(** * design-match-vision: the comparison backend and its page

    A shallow embedding of [backend/compare.js], [backend/screenshot.js],
    [backend/downloadImage.js] and [backend/server.js], and of the state and
    the handlers of the page [src/pages/Index.tsx].

    - JavaScript numbers are IEEE-754 binary64 values; they are modelled by
      [spec_float] at precision 53 with the arithmetic of the standard
      library's [SpecFloat], so subtraction, comparison and [toFixed] round
      exactly as the runtime does.
    - An [async] function is a function from the world (the files on disk
      and the clock) to an outcome and the world it leaves.
    - The collaborators the code calls but does not contain are parameters:
      the comparison engine ([resemblejs]), the headless browser and the
      network ([fetch]).  The routes of the server take the image download
      as a parameter as well; [downloadImage] is what the server passes.
    - The page is its nine state cells; a handler is a function on them,
      and [handleCompare] is cut at its [await] into the part before and the
      part after the answer.
    - Console output and the [stack] field of error answers (development
      mode only) are left out; so are directories, which [fs.ensureDir]
      creates where they are missing. *)

From Stdlib Require Import ZArith Lia List Ascii String.
From Stdlib.Strings Require Import Byte.
From Stdlib Require Import Floats.SpecFloat.
From stdpp Require Import gmap strings.

Local Open Scope string_scope.
Local Open Scope list_scope.
Local Open Scope Z_scope.

(** ** JavaScript numbers *)

Definition prec : Z := 53.
Definition emax : Z := 1024.

Abbreviation number := spec_float.

Definition NaN : number := S754_nan.

(** The number denoted by an integer literal such as [100] or [5]. *)
Definition num_of_Z (z : Z) : number := binary_normalize prec emax z 0 false.

(** [x - y], [x / y], [x * y], [x + y], [x <= y], [x < y] on numbers. *)
Definition num_sub (x y : number) : number := SFsub prec emax x y.
Definition num_div (x y : number) : number := SFdiv prec emax x y.
Definition num_mul (x y : number) : number := SFmul prec emax x y.
Definition num_add (x y : number) : number := SFadd prec emax x y.
Definition num_le (x y : number) : bool := SFleb x y.
Definition num_lt (x y : number) : bool := SFltb x y.

(** [Math.max] and [Math.min]: NaN is contagious, and [+0] is larger than [-0]. *)
Definition num_max (x y : number) : number :=
  match x, y with
  | S754_nan, _ | _, S754_nan => S754_nan
  | S754_zero sx, S754_zero sy => S754_zero (sx && sy)
  | _, _ => if SFltb x y then y else x
  end.

Definition num_min (x y : number) : number :=
  match x, y with
  | S754_nan, _ | _, S754_nan => S754_nan
  | S754_zero sx, S754_zero sy => S754_zero (sx || sy)
  | _, _ => if SFltb y x then y else x
  end.

(** The nearest number to the positive rational [num / den], ties to even. *)
Definition num_of_ratio (s : bool) (num den : positive) : number :=
  let '(mz, ez, lz) := SFdiv_core_binary prec emax (Zpos num) 0 (Zpos den) 0 in
  binary_round_aux prec emax s mz ez lz.

(** *** Decimal digit strings *)

Definition digit_char (d : Z) : ascii :=
  match d with
  | 0 => "0" | 1 => "1" | 2 => "2" | 3 => "3" | 4 => "4"
  | 5 => "5" | 6 => "6" | 7 => "7" | 8 => "8" | _ => "9"
  end%char.

Definition is_digit (c : ascii) : bool :=
  (48 <=? nat_of_ascii c)%nat && (nat_of_ascii c <=? 57)%nat.

Definition digit_value (c : ascii) : Z := Z.of_nat (nat_of_ascii c) - 48.

(** The value of a string of decimal digits, most significant first. *)
Definition digits_value (ds : list ascii) : Z :=
  fold_left (fun acc c => 10 * acc + digit_value c) ds 0.

Fixpoint decimal_go (fuel : nat) (n : Z) (acc : list ascii) : list ascii :=
  match fuel with
  | O => acc
  | S k =>
      if n <? 10 then digit_char n :: acc
      else decimal_go k (n / 10) (digit_char (n mod 10) :: acc)
  end.

(** The decimal representation of [n >= 0], without leading zeros
    (["0"] for zero). *)
Definition decimal_digits (n : Z) : list ascii :=
  decimal_go (S (Z.to_nat (Z.log2 n))) n [].

(** *** Number.prototype.toFixed *)

(** What [toFixed] returns: a string, or, for magnitudes of 10^21 and more,
    the exponent notation of [Number::toString], which is kept symbolic. *)
Inductive rendered :=
  | Str (s : string)
  | ToStringOf (x : number).

(** The integer [n] for which [n / 10^f - m * 2^e] is as close to zero as
    possible; of two such [n], the larger. *)
Definition nearest_scaled (f : nat) (m : positive) (e : Z) : Z :=
  let num := Zpos m * 10 ^ Z.of_nat f * 2 ^ Z.max e 0 in
  let den := 2 ^ Z.max (- e) 0 in
  (2 * num + den) / (2 * den).

(** [Math.round] of a number that is not negative, as an integer. *)
Definition num_round (x : number) : Z :=
  match x with
  | S754_finite false m e => nearest_scaled 0 m e
  | _ => 0
  end.

(** Steps 11.b and 11.c of [toFixed]: the digits of [n] with a decimal point
    before the last [f] of them, padded with zeros on the left. *)
Definition fixed_digits (f : nat) (n : Z) : list ascii :=
  let m := decimal_digits n in
  match f with
  | O => m
  | _ =>
      let m := if (length m <=? f)%nat then repeat "0"%char (f + 1 - length m) ++ m else m in
      let k := length m in
      take (k - f) m ++ "."%char :: drop (k - f) m
  end.

Definition magnitude_geb (m : positive) (e : Z) (bound : Z) : bool :=
  bound * 2 ^ Z.max (- e) 0 <=? Zpos m * 2 ^ Z.max e 0.

Definition toFixed (f : nat) (x : number) : rendered :=
  match x with
  | S754_nan => Str "NaN"
  | S754_infinity s => Str (if s then "-Infinity" else "Infinity")
  | S754_zero _ => Str (string_of_list_ascii (fixed_digits f 0))
  | S754_finite s m e =>
      if magnitude_geb m e (10 ^ 21) then ToStringOf x
      else Str ((if s then "-" else "") +:+
                string_of_list_ascii (fixed_digits f (nearest_scaled f m e)))
  end.

(** *** parseFloat *)

Inductive JsValue :=
  | JsUndefined
  | JsNumber (x : number)
  | JsString (s : string).

Definition is_white_space (c : ascii) : bool :=
  match nat_of_ascii c with
  | 9 | 10 | 11 | 12 | 13 | 32 => true
  | _ => false
  end%nat.

Fixpoint span_digits (s : list ascii) : list ascii * list ascii :=
  match s with
  | c :: r =>
      if is_digit c then let '(ds, r') := span_digits r in (c :: ds, r')
      else ([], s)
  | [] => ([], [])
  end.

Fixpoint has_prefix (p s : list ascii) : bool :=
  match p, s with
  | [], _ => true
  | a :: p', b :: s' => if Ascii.eqb a b then has_prefix p' s' else false
  | _ :: _, [] => false
  end.

(** An optional sign: whether it is ["-"], and the rest. *)
Definition take_sign (s : list ascii) : bool * list ascii :=
  match s with
  | "-"%char :: r => (true, r)
  | "+"%char :: r => (false, r)
  | _ => (false, s)
  end.

(** The exponent part [e±ddd] when one is complete, else no exponent. *)
Definition exponent_part (s : list ascii) : Z :=
  match s with
  | c :: r =>
      if Ascii.eqb c "e" || Ascii.eqb c "E" then
        let '(neg, r') := take_sign r in
        let '(ds, _) := span_digits r' in
        match ds with
        | [] => 0
        | _ => if neg then - digits_value ds else digits_value ds
        end
      else 0
  | [] => 0
  end.

Fixpoint drop_while (P : ascii -> bool) (s : list ascii) : list ascii :=
  match s with
  | c :: r => if P c then drop_while P r else s
  | [] => []
  end.

(** The number nearest to [n * 10^scale] for [n >= 0]. *)
Definition num_of_decimal (s : bool) (n : Z) (scale : Z) : number :=
  match n with
  | Zpos p =>
      if 0 <=? scale then num_of_ratio s (p * Z.to_pos (10 ^ scale)) 1
      else num_of_ratio s p (Z.to_pos (10 ^ (- scale)))
  | _ => S754_zero s
  end.

(** [parseFloat] of a string: white space is skipped, the longest prefix that
    is a [StrDecimalLiteral] is read, and anything after it is ignored. *)
Definition parseFloat_string (str : string) : number :=
  let s := drop_while is_white_space (list_ascii_of_string str) in
  let '(neg, s) := take_sign s in
  if has_prefix (list_ascii_of_string "Infinity") s then S754_infinity neg
  else
    let '(ip, r1) := span_digits s in
    let '(fp, r2) :=
      match r1 with
      | "."%char :: r => span_digits r
      | _ => ([], r1)
      end in
    match ip ++ fp with
    | [] => NaN
    | ds => num_of_decimal neg (digits_value ds) (exponent_part r2 - Z.of_nat (length fp))
    end.

(** [parseFloat(v)] is [parseFloat] of [ToString(v)].  For a number the
    string is its shortest round-tripping representation, so the number
    itself comes back, with [-0] read as [0]. *)
Definition parseFloat (v : JsValue) : number :=
  match v with
  | JsUndefined => NaN
  | JsNumber (S754_zero _) => S754_zero false
  | JsNumber x => x
  | JsString s => parseFloat_string s
  end.

(** ** The runtime: errors, promises, files, clock, paths *)

Record JsError := { message : string }.

(** How an [async] function ends. *)
Inductive Outcome (A : Type) :=
  | Resolved (a : A)
  | Rejected (e : JsError).
Arguments Resolved {A} a.
Arguments Rejected {A} e.

(** The files on disk, by path as written, and the wall clock in
    milliseconds since the epoch. *)
Record World := {
  files : gmap string (list byte);
  clock : Z
}.

(** An ISO-8601 timestamp, kept as the instant it denotes
    ([toISOString] is one-to-one on instants). *)
Record IsoTime := { epoch_ms : Z }.

(** [new Date().toISOString()] *)
Definition Date_now_iso (w : World) : IsoTime := {| epoch_ms := clock w |}.

Definition existsSync (w : World) (p : string) : bool :=
  bool_decide (is_Some (files w !! p)).

Definition writeFileSync (p : string) (content : list byte) (w : World) : World :=
  {| files := <[p := content]> (files w); clock := clock w |}.

Definition is_slash (c : ascii) : bool := Ascii.eqb c "/".

(** [path.dirname] (POSIX). *)
Definition dirname (p : string) : string :=
  match list_ascii_of_string p with
  | [] => "."
  | c0 :: rest =>
      let hasRoot := is_slash c0 in
      let upto := drop_while (fun c => negb (is_slash c)) (drop_while is_slash (rev rest)) in
      match upto with
      | [] => if hasRoot then "/" else "."
      | _ =>
          let e := length upto in
          if hasRoot && (e =? 1)%nat then "//"
          else string_of_list_ascii (take e (c0 :: rest))
      end
  end.

(** The segments of a path between slashes. *)
Fixpoint split_slash (s : list ascii) (cur : list ascii) : list (list ascii) :=
  match s with
  | [] => [rev cur]
  | c :: r => if is_slash c then rev cur :: split_slash r [] else split_slash r (c :: cur)
  end.

Definition dot : list ascii := ["."%char].
Definition dotdot : list ascii := ["."%char; "."%char].

Definition seg_eqb (a b : list ascii) : bool :=
  bool_decide (a = b).

(** [normalizeString]: the segments kept, last first. *)
Fixpoint normalize_segments (allowAboveRoot : bool) (segs : list (list ascii))
    (acc : list (list ascii)) : list (list ascii) :=
  match segs with
  | [] => acc
  | seg :: r =>
      if seg_eqb seg [] || seg_eqb seg dot then normalize_segments allowAboveRoot r acc
      else if seg_eqb seg dotdot then
        match acc with
        | last :: acc' =>
            if seg_eqb last dotdot
            then normalize_segments allowAboveRoot r (if allowAboveRoot then dotdot :: acc else acc)
            else normalize_segments allowAboveRoot r acc'
        | [] => normalize_segments allowAboveRoot r (if allowAboveRoot then [dotdot] else [])
        end
      else normalize_segments allowAboveRoot r (seg :: acc)
  end.

Fixpoint join_slash (segs : list (list ascii)) : list ascii :=
  match segs with
  | [] => []
  | [s] => s
  | s :: r => s ++ "/"%char :: join_slash r
  end.

(** [path.normalize] (POSIX). *)
Definition normalize (p : string) : string :=
  match list_ascii_of_string p with
  | [] => "."
  | c0 :: rest =>
      let isAbsolute := is_slash c0 in
      let trailingSeparator := is_slash (List.last rest c0) in
      let body := join_slash (rev (normalize_segments (negb isAbsolute)
                                     (split_slash (c0 :: rest) []) [])) in
      match body with
      | [] => if isAbsolute then "/" else if trailingSeparator then "./" else "."
      | _ =>
          let body := if trailingSeparator then body ++ ["/"%char] else body in
          string_of_list_ascii (if isAbsolute then "/"%char :: body else body)
      end
  end.

(** [path.join(a, b)] for non-empty [a] and [b]. *)
Definition join (a b : string) : string := normalize (a +:+ "/" +:+ b).

(** ** compare.js *)

Record ErrorColor := { red : Z; green : Z; blue : Z }.

(** The [output] object handed to [outputSettings]. *)
Record OutputSettings := {
  errorColor : ErrorColor;
  errorType : string;
  transparency : number;
  largeImageThreshold : Z;
  useCrossOrigin : bool;
  outputDiff : bool
}.

(** The merged comparison options. *)
Record ComparisonOptions := {
  output : OutputSettings;
  scaleToSameSize : bool;
  ignore : list string
}.

(** The caller's [options] object: a key that is absent is [None]. *)
Record Options := {
  opt_output : option OutputSettings;
  opt_scaleToSameSize : option bool;
  opt_ignore : option (list string)
}.

Definition no_options : Options :=
  {| opt_output := None; opt_scaleToSameSize := None; opt_ignore := None |}.

Definition defaultOptions : ComparisonOptions := {|
  output := {|
    errorColor := {| red := 255; green := 0; blue := 255 |};
    errorType := "movement";
    transparency := num_of_ratio false 3 10;
    largeImageThreshold := 1200;
    useCrossOrigin := false;
    outputDiff := true
  |};
  scaleToSameSize := true;
  ignore := ["antialiasing"; "colors"; "less"; "nothing"]
|}.

(** [{ ...defaultOptions, ...options }] *)
Definition merge_options (d : ComparisonOptions) (o : Options) : ComparisonOptions := {|
  output := default (output d) (opt_output o);
  scaleToSameSize := default (scaleToSameSize d) (opt_scaleToSameSize o);
  ignore := default (ignore d) (opt_ignore o)
|}.

(** [list.includes(s)] *)
Definition includes (l : list string) (s : string) : bool := bool_decide (s ∈ l).

(** What the chained calls on [resemble(image1Path)] configure. *)
Record EngineCall := {
  call_image1 : string;
  call_image2 : string;
  call_ignoreColors : bool;
  call_ignoreAntialiasing : bool;
  call_scaleToSameSize : bool;
  call_outputSettings : OutputSettings
}.

Record Dimensions := { dim_width : Z; dim_height : Z }.

Record DiffBounds := { top : Z; left : Z; bottom : Z; right : Z }.

(** The object the engine hands to the [onComplete] callback.  A field the
    object does not carry reads as [undefined]; [getBuffer], when the object
    carries it, is called: it returns the diff image or throws. *)
Record ResembleData := {
  data_misMatchPercentage : JsValue;
  data_isSameDimensions : option bool;
  data_dimensionDifference : option Dimensions;
  data_rawMisMatchPercentage : JsValue;
  data_diffBounds : option DiffBounds;
  data_analysisTime : JsValue;
  data_getBuffer : option (JsError + list byte)
}.

(** The engine either calls [onComplete] or throws while the chain is set up. *)
Inductive EngineOutcome :=
  | Completed (data : ResembleData)
  | Threw (e : JsError).

(** The comparison engine ([resemblejs]): it reads the two files, may take
    time, and reports through [onComplete]. *)
Definition Engine := EngineCall -> World -> EngineOutcome * World.

Record RawData := {
  rawMisMatchPercentage : number;
  diffBounds : option DiffBounds;
  raw_analysisTime : JsValue
}.

Record ComparisonResult := {
  misMatchPercentage : number;
  isSameDimensions : option bool;
  dimensionDifference : option Dimensions;
  analysisTime : IsoTime;
  diffImagePath : string;
  rawData : RawData
}.

(** The error the outer [catch] of [compareImages] throws. *)
Definition comparison_failed (msg : string) : JsError :=
  {| message := "Image comparison failed: " +:+ msg |}.

(** The error the [catch] inside [onComplete] rejects with. *)
Definition processing_failed (msg : string) : JsError :=
  {| message := "Failed to process comparison result: " +:+ msg |}.

(** [compareImages(image1Path, image2Path, options = {})].  The files are
    checked first; an error thrown there is caught by the outer [catch] and
    thrown again with the prefix of [comparison_failed].  Then the function
    returns, without awaiting it, the promise in whose executor the engine is
    configured and run: an error the engine throws there rejects that promise
    as it is, and the outer [catch] does not see it.  The answer of the
    engine is handled in [onComplete]: the diff buffer, when the answer has a
    [getBuffer], is written next to the first image, and the promise resolves
    with the result object; an error thrown in the callback is caught there
    and rejects the promise with the prefix of [processing_failed].  Writing
    a file next to an existing one does not fail in this world, so what can
    throw in the callback is the call of [getBuffer]. *)
Definition compareImages (resemble : Engine) (image1Path image2Path : string)
    (options : Options) (w : World) : Outcome ComparisonResult * World :=
  if negb (existsSync w image1Path) then
    (Rejected (comparison_failed ("First image not found: " +:+ image1Path)), w)
  else if negb (existsSync w image2Path) then
    (Rejected (comparison_failed ("Second image not found: " +:+ image2Path)), w)
  else
    let comparisonOptions := merge_options defaultOptions options in
    let assetsDir := dirname image1Path in
    let diffPath := join assetsDir "diff.png" in
    let call := {|
      call_image1 := image1Path;
      call_image2 := image2Path;
      call_ignoreColors := includes (ignore comparisonOptions) "colors";
      call_ignoreAntialiasing := includes (ignore comparisonOptions) "antialiasing";
      call_scaleToSameSize := scaleToSameSize comparisonOptions;
      call_outputSettings := output comparisonOptions
    |} in
    match resemble call w with
    | (Threw e, w1) => (Rejected e, w1)
    | (Completed data, w1) =>
        let saved :=
          match data_getBuffer data with
          | Some (inr diffBuffer) => inr (writeFileSync diffPath diffBuffer w1)
          | Some (inl error) => inl error
          | None => inr w1
          end in
        match saved with
        | inl error => (Rejected (processing_failed (message error)), w1)
        | inr w2 =>
            (Resolved {|
               misMatchPercentage := parseFloat (data_misMatchPercentage data);
               isSameDimensions := data_isSameDimensions data;
               dimensionDifference := data_dimensionDifference data;
               analysisTime := Date_now_iso w2;
               diffImagePath := diffPath;
               rawData := {|
                 rawMisMatchPercentage := parseFloat (data_rawMisMatchPercentage data);
                 diffBounds := data_diffBounds data;
                 raw_analysisTime := data_analysisTime data
               |}
             |}, w2)
        end
    end.

(** The engine call [compareImages] makes once both files exist, and the
    path it writes the diff image to. *)
Definition engine_call (image1Path image2Path : string) (options : Options) : EngineCall :=
  let o := merge_options defaultOptions options in
  {| call_image1 := image1Path;
     call_image2 := image2Path;
     call_ignoreColors := includes (ignore o) "colors";
     call_ignoreAntialiasing := includes (ignore o) "antialiasing";
     call_scaleToSameSize := scaleToSameSize o;
     call_outputSettings := output o |}.

Definition diff_path (image1Path : string) : string := join (dirname image1Path) "diff.png".

(** A piece of a template string: literal text, or a number written by
    [Number::toString]. *)
Inductive Piece :=
  | Text (s : rendered)
  | Num (x : number).

Record ToleranceResult := {
  result : ComparisonResult;
  passed : bool;
  tolerance : number;
  status : string;
  tolerance_message : list Piece
}.

(** [compareImagesWithTolerance]; a tolerance that is not given is 5. *)
Definition compareImagesWithTolerance (resemble : Engine) (image1Path image2Path : string)
    (tol : option number) (options : Options) (w : World) : Outcome ToleranceResult * World :=
  let tolerance := default (num_of_Z 5) tol in
  match compareImages resemble image1Path image2Path options w with
  | (Rejected e, w1) => (Rejected e, w1)
  | (Resolved r, w1) =>
      let p := num_le (misMatchPercentage r) tolerance in
      (Resolved {|
         result := r;
         passed := p;
         tolerance := tolerance;
         status := if p then "PASS" else "FAIL";
         tolerance_message :=
           if p then [Text (Str "Images match within tolerance ("); Num tolerance;
                      Text (Str "%)")]
           else [Text (Str "Images exceed tolerance ("); Num tolerance;
                 Text (Str "%). Mismatch: "); Text (toFixed 2 (misMatchPercentage r));
                 Text (Str "%")]
       |}, w1)
  end.

(** *** compareImagesDetailed *)

(** What [fs.statSync] tells of a file. *)
Record Stats := { stat_size : Z; stat_mtime : IsoTime }.

(** [fs.statSync(p)].  The world keeps no modification times; they come
    from [mtime_of]. *)
Definition statSync (mtime_of : string -> World -> IsoTime) (p : string) (w : World)
    : JsError + Stats :=
  match files w !! p with
  | Some content =>
      inr {| stat_size := Z.of_nat (length content); stat_mtime := mtime_of p w |}
  | None => inl {| message := "ENOENT: no such file or directory, stat '" +:+ p +:+ "'" |}
  end.

Record FileInfo := { info_path : string; info_size : Z; info_modified : IsoTime }.

Record Quality := { excellent : bool; good : bool; acceptable : bool; poor : bool }.

Record DetailedAnalysis := {
  detailed_result : ComparisonResult;
  fileInfo_image1 : FileInfo;
  fileInfo_image2 : FileInfo;
  quality : Quality;
  recommendations : list string
}.

(** [!v] for a field that holds a boolean or is absent. *)
Definition not_flag (v : option bool) : bool :=
  match v with
  | Some true => false
  | _ => true
  end.

(** [compareImagesDetailed(image1Path, image2Path, options = {})] *)
Definition compareImagesDetailed (resemble : Engine) (mtime_of : string -> World -> IsoTime)
    (image1Path image2Path : string) (options : Options) (w : World)
    : Outcome DetailedAnalysis * World :=
  match compareImages resemble image1Path image2Path options w with
  | (Rejected e, w1) => (Rejected e, w1)
  | (Resolved r, w1) =>
      match statSync mtime_of image1Path w1 with
      | inl e => (Rejected e, w1)
      | inr image1Stats =>
          match statSync mtime_of image2Path w1 with
          | inl e => (Rejected e, w1)
          | inr image2Stats =>
              let m := misMatchPercentage r in
              (Resolved {|
                 detailed_result := r;
                 fileInfo_image1 := {| info_path := image1Path;
                                       info_size := stat_size image1Stats;
                                       info_modified := stat_mtime image1Stats |};
                 fileInfo_image2 := {| info_path := image2Path;
                                       info_size := stat_size image2Stats;
                                       info_modified := stat_mtime image2Stats |};
                 quality := {|
                   excellent := num_le m (num_of_Z 1);
                   good := num_le m (num_of_Z 5);
                   acceptable := num_le m (num_of_Z 10);
                   poor := num_lt (num_of_Z 10) m
                 |};
                 recommendations :=
                   (if num_le m (num_of_Z 1) then
                      "Excellent match! The implementation is very close to the design."
                    else if num_le m (num_of_Z 5) then
                      "Good match. Minor adjustments may be needed for pixel-perfect implementation."
                    else if num_le m (num_of_Z 10) then
                      "Acceptable match. Consider reviewing layout, spacing, and styling."
                    else
                      "Significant differences detected. Review the design implementation thoroughly.")
                   :: (if not_flag (isSameDimensions r) then
                         ["Images have different dimensions. Ensure consistent viewport sizes."]
                       else [])
               |}, w1)
          end
      end
  end.

(** ** screenshot.js *)

(** What the headless browser does with a page, from [puppeteer.launch] to
    [browser.close]: a step throws (launch, navigation or capture), the
    navigation gives a response that is not ok or no response at all, or the
    page is captured into the output file; in these four the browser, where
    one was launched, closes without an error.  [CloseThrew e before]: the
    steps end as [before] says, and [browser.close()] rejects with [e]. *)
Inductive BrowserOutcome :=
  | BrowserThrew (e : JsError)
  | ResponseNotOk (status_no : Z) (statusText : string)
  | Captured (png : list byte)
  | NoResponse
  | CloseThrew (e : JsError) (before : BrowserOutcome).

Definition Browser := string -> World -> BrowserOutcome * World.

(** [!v] *)
Definition falsy (v : JsValue) : bool :=
  match v with
  | JsUndefined => true
  | JsString s => bool_decide (s = "")
  | JsNumber (S754_zero _) | JsNumber S754_nan => true
  | JsNumber _ => false
  end.

(** The error the [catch] of [takeScreenshot] throws. *)
Definition screenshot_failed (msg : string) : JsError :=
  {| message := "Failed to take screenshot: " +:+ msg |}.

(** The [try] and the [catch] of [takeScreenshot] once the URL is valid:
    the browser loads the page and captures it into [outputPath], and an
    empty capture is an error; every error is thrown again with the prefix
    of [screenshot_failed].  [no_response] is the message of the error that
    a navigation without response ends in. *)
Fixpoint screenshot_steps (no_response : string) (outcome : BrowserOutcome)
    (outputPath : string) (w1 : World) : Outcome unit * World :=
  match outcome with
  | BrowserThrew e => (Rejected (screenshot_failed (message e)), w1)
  | NoResponse => (Rejected (screenshot_failed no_response), w1)
  | ResponseNotOk st txt =>
      (Rejected (screenshot_failed
         ("Failed to load page: " +:+ string_of_list_ascii (decimal_digits st)
          +:+ " " +:+ txt)), w1)
  | Captured png =>
      let w2 := writeFileSync outputPath png w1 in
      match png with
      | [] => (Rejected (screenshot_failed "Screenshot file is empty"), w2)
      | _ => (Resolved tt, w2)
      end
  | CloseThrew _ before => screenshot_steps no_response before outputPath w1
  end.

(** [takeScreenshot(pageUrl, outputPath)] of [screenshot.js], with the
    default options.  A URL that is not valid is refused before a browser is
    launched.  Without a response, [response.ok()] is a [TypeError].  The
    [finally] awaits [browser.close()] unguarded: when that rejects, the
    call rejects with the error of [close] as it is, whatever the [try] and
    the [catch] had come to. *)
Definition takeScreenshot (browser : Browser) (pageUrl : JsValue) (outputPath : string)
    (w : World) : Outcome unit * World :=
  match pageUrl with
  | JsString url =>
      if falsy pageUrl then
        (Rejected (screenshot_failed "Invalid page URL provided"), w)
      else
        let '(outcome, w1) := browser url w in
        let '(r, w2) :=
          screenshot_steps "Cannot read properties of null (reading 'ok')"
            outcome outputPath w1 in
        match outcome with
        | CloseThrew e _ => (Rejected e, w2)
        | _ => (r, w2)
        end
  | _ => (Rejected (screenshot_failed "Invalid page URL provided"), w)
  end.

(** [takeScreenshot(pageUrl, outputPath)] of the variant of [screenshot.js]
    for small hosts, with the default options.  A navigation without
    response is an error of its own, and [browser.close()] is awaited inside
    a [try] whose [catch] only logs: an error of [close] changes nothing. *)
Definition takeScreenshot_small (browser : Browser) (pageUrl : JsValue) (outputPath : string)
    (w : World) : Outcome unit * World :=
  match pageUrl with
  | JsString url =>
      if falsy pageUrl then
        (Rejected (screenshot_failed "Invalid page URL provided"), w)
      else
        let '(outcome, w1) := browser url w in
        screenshot_steps "Failed to load page: No response " outcome outputPath w1
  | _ => (Rejected (screenshot_failed "Invalid page URL provided"), w)
  end.

(** *** Retries *)

(** [`${n}`] for an integer. *)
Definition show_Z (n : Z) : string :=
  if n <? 0 then "-" +:+ string_of_list_ascii (decimal_digits (- n))
  else string_of_list_ascii (decimal_digits n).

(** The longest delay a timer takes; [setTimeout] replaces a delay outside
    of [1 .. TIMEOUT_MAX] by 1. *)
Definition TIMEOUT_MAX : Z := 2147483647.

(** [await new Promise(resolve => setTimeout(resolve, delay))]; the timer is
    taken to fire when it is due. *)
Definition sleep (delay : Z) (w : World) : World := {|
  files := files w;
  clock := clock w + (if (1 <=? delay) && (delay <=? TIMEOUT_MAX) then delay else 1)
|}.

Section RetryLoop.
(** The loop of [takeScreenshotWithRetry] and [downloadImageWithRetry]: what
    one attempt does, the words of the final message, the delay before the
    second attempt is twice [base], and the number of attempts. *)
Variable attempt_once : World -> Outcome unit * World.
Variable what : string.
Variable base : Z.
Variable maxRetries : Z.

(** The [throw] after the loop.  When the loop body never ran, [lastError]
    is [undefined] and reading its [message] is a [TypeError]. *)
Definition retry_exhausted (lastError : option JsError) : JsError :=
  match lastError with
  | Some e =>
      {| message := "Failed to " +:+ what +:+ " after " +:+ show_Z maxRetries
                    +:+ " attempts. Last error: " +:+ message e |}
  | None => {| message := "Cannot read properties of undefined (reading 'message')" |}
  end.

(** The loop from [attempt] on; [fuel] bounds the iterations that are left. *)
Fixpoint retry_from (fuel : nat) (attempt : Z) (lastError : option JsError) (w : World)
    : Outcome unit * World :=
  match fuel with
  | S k =>
      if attempt <=? maxRetries then
        match attempt_once w with
        | (Resolved _, w1) => (Resolved tt, w1)
        | (Rejected error, w1) =>
            let w2 := if attempt <? maxRetries then sleep (2 ^ attempt * base) w1 else w1 in
            retry_from k (attempt + 1) (Some error) w2
        end
      else (Rejected (retry_exhausted lastError), w)
  | O => (Rejected (retry_exhausted lastError), w)
  end.

Definition retry_loop (w : World) : Outcome unit * World :=
  retry_from (Z.to_nat maxRetries) 1 None w.

(** The moment attempt [j] begins, for a loop that is at attempt [attempt]
    at the time [now], when every attempt takes [d] milliseconds: the wait
    after attempt [i] is [2^i * base]. *)
Definition attempt_start (now d attempt j : Z) : Z :=
  now + (j - attempt) * d + base * (2 ^ j - 2 ^ attempt).
End RetryLoop.

(** [takeScreenshotWithRetry(pageUrl, outputPath, options = {}, maxRetries = 3)] *)
Definition takeScreenshotWithRetry (browser : Browser) (pageUrl : JsValue)
    (outputPath : string) (maxRetries : option Z) (w : World) : Outcome unit * World :=
  retry_loop (takeScreenshot browser pageUrl outputPath) "take screenshot" 1000
    (default 3 maxRetries) w.

(** The variant of [screenshot.js] for small hosts: two attempts by default,
    and half the delays. *)
Definition takeScreenshotWithRetry_small (browser : Browser) (pageUrl : JsValue)
    (outputPath : string) (maxRetries : option Z) (w : World) : Outcome unit * World :=
  retry_loop (takeScreenshot_small browser pageUrl outputPath) "take screenshot" 500
    (default 2 maxRetries) w.

(** ** downloadImage.js *)

(** *** Regular expressions

    The patterns of [downloadImage.js] are sequences of literal text and of
    greedy runs [[^c]+] or [[^c]*] of characters other than [c], some of them
    captured by parentheses. *)
Inductive RegItem :=
  | RLit (text : list ascii)
  | RRun (excluded : ascii) (least : nat) (captured : bool).

(** What a match gives: the matched text and the captured groups. *)
Definition Match : Type := list ascii * list (list ascii).

Fixpoint take_while (P : ascii -> bool) (s : list ascii) : list ascii :=
  match s with
  | c :: r => if P c then c :: take_while P r else []
  | [] => []
  end.

Definition other_than (c : ascii) (x : ascii) : bool := negb (Ascii.eqb x c).

(** A greedy run that may take [n] characters of [s]: it takes them all and
    gives them back one by one until the rest of the pattern, [continue],
    matches; it takes [least] characters or more. *)
Fixpoint give_back (continue : list ascii -> option Match) (s : list ascii)
    (least : nat) (captured : bool) (n : nat) : option Match :=
  let here :=
    if (least <=? n)%nat then
      match continue (drop n s) with
      | Some (m, groups) =>
          Some (take n s ++ m, if captured then take n s :: groups else groups)
      | None => None
      end
    else None in
  match here, n with
  | Some r, _ => Some r
  | None, S k => give_back continue s least captured k
  | None, O => None
  end.

(** A match of the items at the start of [s]. *)
Fixpoint match_here (items : list RegItem) (s : list ascii) : option Match :=
  match items with
  | [] => Some ([], [])
  | RLit text :: rest =>
      if has_prefix text s then
        match match_here rest (drop (length text) s) with
        | Some (m, groups) => Some (text ++ m, groups)
        | None => None
        end
      else None
  | RRun c least captured :: rest =>
      give_back (match_here rest) s least captured
        (length (take_while (other_than c) s))
  end.

(** [s.match(pattern)] for a pattern without flags: the first position of
    [s] at which the pattern matches. *)
Fixpoint regex_match (items : list RegItem) (s : list ascii) : option Match :=
  match match_here items s with
  | Some r => Some r
  | None =>
      match s with
      | [] => None
      | _ :: t => regex_match items t
      end
  end.

Definition lit (s : string) : RegItem := RLit (list_ascii_of_string s).

(** [/figma\.com\/<kind>\/([^\/]+)\/[^?]+\?node-id=([^&]+)/] *)
Definition figma_pattern (kind : string) : list RegItem :=
  [lit ("figma.com/" +:+ kind +:+ "/"); RRun "/" 1 true; lit "/"; RRun "?" 1 false;
   lit "?node-id="; RRun "&" 1 true].

Record FigmaIds := { fileId : string; nodeId : string }.

Definition patterns : list (list RegItem) :=
  [figma_pattern "design"; figma_pattern "file"; figma_pattern "proto";
   figma_pattern "community/file"].

(** The message of [extractFigmaIds] for a URL no pattern matches. *)
Definition invalid_figma_url : JsError :=
  {| message := "Invalid Figma URL format. Please provide a valid Figma design URL with node-id parameter." |}.

(** [extractFigmaIds(figmaUrl)]: the patterns are tried in order, and the
    first that matches gives its two groups. *)
Definition extractFigmaIds (figmaUrl : string) : JsError + FigmaIds :=
  let fix first_match (ps : list (list RegItem)) : JsError + FigmaIds :=
    match ps with
    | pattern :: rest =>
        match regex_match pattern (list_ascii_of_string figmaUrl) with
        | Some (_, groups) =>
            inr {| fileId := string_of_list_ascii (nth 0 groups []);
                   nodeId := string_of_list_ascii (nth 1 groups []) |}
        | None => first_match rest
        end
    | [] => inl invalid_figma_url
    end in
  first_match patterns.

(** *** The network *)

(** What the code reads of the parsed answer of the images API: [null], on
    which reading [images] throws, or a value whose [images] is falsy
    ([None]) or answers [images[nodeId]]. *)
Inductive ImagesAnswer :=
  | AnswerNull
  | AnswerImages (images : option (string -> JsValue)).

(** A response of [fetch], with what its methods give. *)
Record FetchResponse := {
  res_ok : bool;
  res_status : Z;
  res_statusText : string;
  res_contentType : option string;
  res_json : JsError + ImagesAnswer;
  res_text : JsError + string;
  res_arrayBuffer : JsError + list byte
}.

Inductive FetchOutcome :=
  | FetchThrew (e : JsError)
  | Fetched (response : FetchResponse).

(** [fetch(url)] *)
Definition Fetch := JsValue -> World -> FetchOutcome * World.

Definition nl : string := String "010"%char "".

(** The message when neither approach gives an image URL. *)
Definition unable_to_convert : string :=
  "Unable to convert Figma URL to image. This might be because:" +:+ nl +:+
  "1. The Figma file is private and requires authentication" +:+ nl +:+
  "2. The URL format is not supported" +:+ nl +:+
  "3. The node ID is invalid" +:+ nl +:+ nl +:+
  "Please try:" +:+ nl +:+
  "- Making the Figma file public" +:+ nl +:+
  "- Using a direct image URL instead" +:+ nl +:+
  "- Exporting the design as PNG and uploading it to an image host".

(** The error the outer [catch] of [convertFigmaUrlToImageUrl] throws. *)
Definition convert_failed (msg : string) : JsError :=
  {| message := "Failed to convert Figma URL to image URL: " +:+ msg |}.

Definition quote : ascii := "034"%char.

(** [/https:\/\/[^"]*\.png[^"]*/] *)
Definition png_url_pattern : list RegItem :=
  [lit "https://"; RRun quote 0 false; lit ".png"; RRun quote 0 false].

(** The second approach of [convertFigmaUrlToImageUrl]: the first PNG URL in
    the page of the design. *)
Definition image_url_from_page (fetch : Fetch) (figmaUrl : string) (w : World)
    : Outcome JsValue * World :=
  let failed w' := (Rejected (convert_failed unable_to_convert), w') in
  match fetch (JsString figmaUrl) w with
  | (FetchThrew _, w1) => failed w1
  | (Fetched pageResponse, w1) =>
      if res_ok pageResponse then
        match res_text pageResponse with
        | inl _ => failed w1
        | inr html =>
            match regex_match png_url_pattern (list_ascii_of_string html) with
            | Some (whole, _) => (Resolved (JsString (string_of_list_ascii whole)), w1)
            | None => failed w1
            end
        end
      else failed w1
  end.

(** [convertFigmaUrlToImageUrl(figmaUrl)] *)
Definition convertFigmaUrlToImageUrl (fetch : Fetch) (figmaUrl : string) (w : World)
    : Outcome JsValue * World :=
  match extractFigmaIds figmaUrl with
  | inl e => (Rejected (convert_failed (message e)), w)
  | inr ids =>
      let apiUrl := "https://www.figma.com/api/figma/1.0/images/" +:+ fileId ids
                    +:+ "?ids=" +:+ nodeId ids +:+ "&format=png&scale=2" in
      match fetch (JsString apiUrl) w with
      | (FetchThrew _, w1) => image_url_from_page fetch figmaUrl w1
      | (Fetched response, w1) =>
          if res_ok response then
            match res_json response with
            | inr (AnswerImages (Some images)) =>
                if falsy (images (nodeId ids)) then image_url_from_page fetch figmaUrl w1
                else (Resolved (images (nodeId ids)), w1)
            | _ => image_url_from_page fetch figmaUrl w1
            end
          else image_url_from_page fetch figmaUrl w1
      end
  end.

(** [s.includes(needle)] *)
Fixpoint includes_from (needle : list ascii) (s : list ascii) : bool :=
  has_prefix needle s ||
  match s with
  | [] => false
  | _ :: t => includes_from needle t
  end.

Definition string_includes (needle s : string) : bool :=
  includes_from (list_ascii_of_string needle) (list_ascii_of_string s).

(** The error the [catch] of [downloadImage] throws. *)
Definition download_failed (msg : string) : JsError :=
  {| message := "Failed to download image: " +:+ msg |}.

(** [`${v}`] for the value of the [content-type] header. *)
Definition show_header (v : option string) : string := default "null" v.

(** [downloadImage(imageUrl, outputPath)] *)
Definition downloadImage (fetch : Fetch) (imageUrl : JsValue) (outputPath : string)
    (w : World) : Outcome unit * World :=
  match imageUrl with
  | JsString url =>
      if falsy imageUrl then (Rejected (download_failed "Invalid image URL provided"), w)
      else
        let converted :=
          if string_includes "figma.com" url then convertFigmaUrlToImageUrl fetch url w
          else (Resolved imageUrl, w) in
        match converted with
        | (Rejected e, w1) => (Rejected (download_failed (message e)), w1)
        | (Resolved finalImageUrl, w1) =>
            match fetch finalImageUrl w1 with
            | (FetchThrew e, w2) => (Rejected (download_failed (message e)), w2)
            | (Fetched response, w2) =>
                if negb (res_ok response) then
                  (Rejected (download_failed
                     ("Failed to download image: " +:+ show_Z (res_status response)
                      +:+ " " +:+ res_statusText response)), w2)
                else if match res_contentType response with
                        | Some contentType =>
                            bool_decide (contentType = "") || negb (String.prefix "image/" contentType)
                        | None => true
                        end then
                  (Rejected (download_failed
                     ("URL does not point to an image. Content-Type: "
                      +:+ show_header (res_contentType response))), w2)
                else
                  match res_arrayBuffer response with
                  | inl e => (Rejected (download_failed (message e)), w2)
                  | inr buffer =>
                      let w3 := writeFileSync outputPath buffer w2 in
                      match buffer with
                      | [] => (Rejected (download_failed "Downloaded image file is empty"), w3)
                      | _ => (Resolved tt, w3)
                      end
                  end
            end
        end
  | _ => (Rejected (download_failed "Invalid image URL provided"), w)
  end.

(** [downloadImageWithRetry(imageUrl, outputPath, maxRetries = 3)] *)
Definition downloadImageWithRetry (fetch : Fetch) (imageUrl : JsValue) (outputPath : string)
    (maxRetries : option Z) (w : World) : Outcome unit * World :=
  retry_loop (downloadImage fetch imageUrl outputPath) "download image" 1000
    (default 3 maxRetries) w.

(** ** server.js *)

Record OriginalImages := { figma : string; code : string }.

(** The report sent on success. *)
Record Report := {
  matchScore : rendered;
  report_diffImagePath : string;
  report_misMatchPercentage : rendered;
  report_analysisTime : IsoTime;
  originalImages : OriginalImages
}.

Inductive Body :=
  | ErrorBody (error : string) (msg : string)
  | ReportBody (r : Report).

Record Response := { status_code : Z; body : Body }.

(** [res.json(b)] answers with status 200 unless [res.status] was called. *)
Definition json (b : Body) : Response := {| status_code := 200; body := b |}.
Definition status_json (st : Z) (b : Body) : Response := {| status_code := st; body := b |}.

(** The response object both routes build from a comparison result. *)
Definition build_response (comparisonResult : ComparisonResult) (w : World) : Report := {|
  matchScore :=
    toFixed 2 (num_sub (num_of_Z 100)
                 (parseFloat (JsNumber (misMatchPercentage comparisonResult))));
  report_diffImagePath := "/diff.png";
  report_misMatchPercentage :=
    toFixed 2 (parseFloat (JsNumber (misMatchPercentage comparisonResult)));
  report_analysisTime := Date_now_iso w;
  originalImages := {| figma := "/figma.png"; code := "/code.png" |}
|}.

(** The uploaded file as the upload middleware sees it. *)
Record UploadedFile := {
  mimetype : string;
  originalname : string;
  upload_content : list byte
}.

Record CompareRequest := { figmaImageUrl : JsValue; pageUrl : JsValue }.
Record CompareFileRequest := { figmaImage : option UploadedFile; file_pageUrl : JsValue }.

Section Server.
(** The collaborators of the server: the image download
    ([downloadImage.js]), the headless browser and the comparison engine;
    and the directory the server runs from. *)
Variable downloadImage : JsValue -> string -> World -> Outcome unit * World.
Variable browser : Browser.
Variable resemble : Engine.
Variable server_dir : string.

Definition assetsDir : string := join server_dir "assets".

(** Where both routes keep the design image and the screenshot. *)
Definition figmaImagePath : string := join assetsDir "figma.png".
Definition codeImagePath : string := join assetsDir "code.png".

(** [app.post('/compare', ...)] *)
Definition post_compare (req : CompareRequest) (w : World) : Response * World :=
  if falsy (figmaImageUrl req) || falsy (pageUrl req) then
    (status_json 400 (ErrorBody "Missing required parameters"
                        "Both figmaImageUrl and pageUrl are required"), w)
  else
    match downloadImage (figmaImageUrl req) figmaImagePath w with
    | (Rejected e, w1) => (status_json 500 (ErrorBody "Comparison failed" (message e)), w1)
    | (Resolved _, w1) =>
        match takeScreenshot browser (pageUrl req) codeImagePath w1 with
        | (Rejected e, w2) =>
            (status_json 500 (ErrorBody "Comparison failed" (message e)), w2)
        | (Resolved _, w2) =>
            match compareImages resemble figmaImagePath codeImagePath no_options w2 with
            | (Rejected e, w3) =>
                (status_json 500 (ErrorBody "Comparison failed" (message e)), w3)
            | (Resolved comparisonResult, w3) =>
                (json (ReportBody (build_response comparisonResult w3)), w3)
            end
        end
    end.

(** [fs.copy(src, dest)] *)
Definition copy (src dest : string) (w : World) : Outcome unit * World :=
  match files w !! src with
  | Some content => (Resolved tt, writeFileSync dest content w)
  | None => (Rejected {| message := "ENOENT: no such file or directory" |}, w)
  end.

(** [fs.remove(p)] *)
Definition remove (p : string) (w : World) : World :=
  {| files := delete p (files w); clock := clock w |}.

(** [app.post('/compare-file', upload.single('figmaImage'), ...)]: the
    upload middleware stores an image file as [assets/figma-upload.png];
    a file of another type ends in the error-handling middleware. *)
Definition post_compare_file (req : CompareFileRequest) (w : World) : Response * World :=
  let uploaded :=
    match figmaImage req with
    | Some f =>
        if String.prefix "image/" (mimetype f)
        then inl (Some (join assetsDir "figma-upload.png", f))
        else inr {| message := "Only image files are allowed" |}
    | None => inl None
    end in
  match uploaded with
  | inr err => (status_json 500 (ErrorBody "Internal server error" (message err)), w)
  | inl None =>
      (status_json 400 (ErrorBody "Missing required parameters"
                          "Both figmaImage file and pageUrl are required"), w)
  | inl (Some (uploadPath, f)) =>
      let w0 := writeFileSync uploadPath (upload_content f) w in
      if falsy (file_pageUrl req) then
        (status_json 400 (ErrorBody "Missing required parameters"
                            "Both figmaImage file and pageUrl are required"), w0)
      else
        match copy uploadPath figmaImagePath w0 with
        | (Rejected e, w1) =>
            (status_json 500 (ErrorBody "File upload comparison failed" (message e)), w1)
        | (Resolved _, w1) =>
            match takeScreenshot browser (file_pageUrl req) codeImagePath w1 with
            | (Rejected e, w2) =>
                (status_json 500 (ErrorBody "File upload comparison failed" (message e)), w2)
            | (Resolved _, w2) =>
                match compareImages resemble figmaImagePath codeImagePath no_options w2 with
                | (Rejected e, w3) =>
                    (status_json 500
                       (ErrorBody "File upload comparison failed" (message e)), w3)
                | (Resolved comparisonResult, w3) =>
                    let w4 := remove uploadPath w3 in
                    (json (ReportBody (build_response comparisonResult w4)), w4)
                end
            end
        end
  end.
End Server.

(** *** server.js: the other routes *)

(** What the other routes answer: a file, or a JSON object of strings with
    a status. *)
Inductive Reply :=
  | ReplyFile (path : string) (content : list byte)
  | ReplyJson (st : Z) (fields : list (string * string)).

(** [res.sendFile(p)] *)
Definition sendFile (p : string) (w : World) : Reply :=
  ReplyFile p (default [] (files w !! p)).

(** [app.get('/health', ...)] *)
Definition get_health : Reply :=
  ReplyJson 200 [("status", "OK");
                 ("message", "Figma-to-Code comparison server is running")].

Section StaticRoutes.
Variable server_dir : string.

(** [app.get('/diff.png', ...)], [app.get('/figma.png', ...)] and
    [app.get('/code.png', ...)].  The static middleware in front of them
    sends the same file when it exists. *)
Definition get_diff (w : World) : Reply :=
  let diffPath := join (assetsDir server_dir) "diff.png" in
  if existsSync w diffPath then sendFile diffPath w
  else ReplyJson 404 [("error", "Diff image not found")].

Definition get_figma (w : World) : Reply :=
  let figmaPath := join (assetsDir server_dir) "figma.png" in
  if existsSync w figmaPath then sendFile figmaPath w
  else ReplyJson 404 [("error", "Figma image not found")].

Definition get_code (w : World) : Reply :=
  let codePath := join (assetsDir server_dir) "code.png" in
  if existsSync w codePath then sendFile codePath w
  else ReplyJson 404 [("error", "Code image not found")].
End StaticRoutes.

(** [app.use('*', ...)]: the answer to any other request. *)
Definition route_not_found (method originalUrl : string) : Reply :=
  ReplyJson 404 [("error", "Route not found");
                 ("message", "Cannot " +:+ method +:+ " " +:+ originalUrl)].

(** ** The page: Index.tsx *)

(** *** The score *)

(** [getMatchScoreColor(score)] *)
Definition getMatchScoreColor (score : string) : string :=
  let numScore := parseFloat (JsString score) in
  if num_le (num_of_Z 90) numScore then "text-green-600"
  else if num_le (num_of_Z 80) numScore then "text-blue-600"
  else if num_le (num_of_Z 70) numScore then "text-yellow-600"
  else "text-red-600".

(** An icon: the component and its class. *)
Record Icon := { icon_component : string; icon_className : string }.

(** [getMatchScoreIcon(score)] *)
Definition getMatchScoreIcon (score : string) : Icon :=
  let numScore := parseFloat (JsString score) in
  if num_le (num_of_Z 90) numScore then
    {| icon_component := "CheckCircle"; icon_className := "w-5 h-5 text-green-600" |}
  else if num_le (num_of_Z 80) numScore then
    {| icon_component := "CheckCircle"; icon_className := "w-5 h-5 text-blue-600" |}
  else if num_le (num_of_Z 70) numScore then
    {| icon_component := "AlertCircle"; icon_className := "w-5 h-5 text-yellow-600" |}
  else {| icon_component := "XCircle"; icon_className := "w-5 h-5 text-red-600" |}.

(** The words under the score. *)
Definition matchScoreWords (score : string) : string :=
  if num_le (num_of_Z 90) (parseFloat (JsString score)) then "Excellent match!"
  else if num_le (num_of_Z 80) (parseFloat (JsString score)) then "Great implementation!"
  else if num_le (num_of_Z 70) (parseFloat (JsString score)) then "Good match"
  else "Needs improvement".

(** *** The state of the page and its handlers *)

(** A [File] of the browser: what the page and the upload read of it. *)
Record BrowserFile := { file_name : string; file_type : string; file_content : list byte }.

Module Page.

(** The nine [useState] cells of [Index]. *)
Record State := {
  figmaUrl : string;
  pageUrl : string;
  isComparing : bool;
  showResults : bool;
  comparisonResult : option Body;
  error : string;
  figmaFile : option BrowserFile;
  inputMethod : string;
  overlayOpacity : number
}.

Definition initial : State := {|
  figmaUrl := ""; pageUrl := ""; isComparing := false; showResults := false;
  comparisonResult := None; error := ""; figmaFile := None; inputMethod := "url";
  overlayOpacity := num_of_ratio false 5 10
|}.

Definition setFigmaUrl (v : string) (st : State) : State :=
  {| figmaUrl := v; pageUrl := pageUrl st; isComparing := isComparing st;
     showResults := showResults st; comparisonResult := comparisonResult st;
     error := error st; figmaFile := figmaFile st; inputMethod := inputMethod st;
     overlayOpacity := overlayOpacity st |}.
Definition setPageUrl (v : string) (st : State) : State :=
  {| figmaUrl := figmaUrl st; pageUrl := v; isComparing := isComparing st;
     showResults := showResults st; comparisonResult := comparisonResult st;
     error := error st; figmaFile := figmaFile st; inputMethod := inputMethod st;
     overlayOpacity := overlayOpacity st |}.
Definition setIsComparing (v : bool) (st : State) : State :=
  {| figmaUrl := figmaUrl st; pageUrl := pageUrl st; isComparing := v;
     showResults := showResults st; comparisonResult := comparisonResult st;
     error := error st; figmaFile := figmaFile st; inputMethod := inputMethod st;
     overlayOpacity := overlayOpacity st |}.
Definition setShowResults (v : bool) (st : State) : State :=
  {| figmaUrl := figmaUrl st; pageUrl := pageUrl st; isComparing := isComparing st;
     showResults := v; comparisonResult := comparisonResult st;
     error := error st; figmaFile := figmaFile st; inputMethod := inputMethod st;
     overlayOpacity := overlayOpacity st |}.
Definition setComparisonResult (v : option Body) (st : State) : State :=
  {| figmaUrl := figmaUrl st; pageUrl := pageUrl st; isComparing := isComparing st;
     showResults := showResults st; comparisonResult := v;
     error := error st; figmaFile := figmaFile st; inputMethod := inputMethod st;
     overlayOpacity := overlayOpacity st |}.
Definition setError (v : string) (st : State) : State :=
  {| figmaUrl := figmaUrl st; pageUrl := pageUrl st; isComparing := isComparing st;
     showResults := showResults st; comparisonResult := comparisonResult st;
     error := v; figmaFile := figmaFile st; inputMethod := inputMethod st;
     overlayOpacity := overlayOpacity st |}.
Definition setFigmaFile (v : option BrowserFile) (st : State) : State :=
  {| figmaUrl := figmaUrl st; pageUrl := pageUrl st; isComparing := isComparing st;
     showResults := showResults st; comparisonResult := comparisonResult st;
     error := error st; figmaFile := v; inputMethod := inputMethod st;
     overlayOpacity := overlayOpacity st |}.
Definition setInputMethod (v : string) (st : State) : State :=
  {| figmaUrl := figmaUrl st; pageUrl := pageUrl st; isComparing := isComparing st;
     showResults := showResults st; comparisonResult := comparisonResult st;
     error := error st; figmaFile := figmaFile st; inputMethod := v;
     overlayOpacity := overlayOpacity st |}.
Definition setOverlayOpacity (v : number) (st : State) : State :=
  {| figmaUrl := figmaUrl st; pageUrl := pageUrl st; isComparing := isComparing st;
     showResults := showResults st; comparisonResult := comparisonResult st;
     error := error st; figmaFile := figmaFile st; inputMethod := inputMethod st;
     overlayOpacity := v |}.

(** [handleFileChange(e)], with [file] for [e.target.files?.[0]]. *)
Definition handleFileChange (file : option BrowserFile) (st : State) : State :=
  match file with
  | Some f =>
      if String.prefix "image/" (file_type f)
      then setError "" (setFigmaUrl "" (setFigmaFile (Some f) st))
      else setFigmaFile None (setError "Please select a valid image file (PNG, JPG, etc.)" st)
  | None => setFigmaFile None (setError "Please select a valid image file (PNG, JPG, etc.)" st)
  end.

(** What [handleCompare] sends: the route and the fields of the body. *)
Inductive Request :=
  | PostCompareFile (figmaImage : BrowserFile) (page : string)
  | PostCompare (figmaImageUrl : string) (page : string).

Definition request (st : State) : Request :=
  match String.eqb (inputMethod st) "file", figmaFile st with
  | true, Some f => PostCompareFile f (pageUrl st)
  | _, _ => PostCompare (figmaUrl st) (pageUrl st)
  end.

(** How the awaited [fetch] ends: it or the reading of the JSON throws, or
    the server has answered. *)
Inductive Settled :=
  | Thrown (e : JsError)
  | Answered (response : Response).

(** [response.ok] *)
Definition ok (response : Response) : bool :=
  (200 <=? status_code response) && (status_code response <=? 299).

(** [errorData.message || 'Failed to compare images'] *)
Definition error_message (errorData : Body) : string :=
  match errorData with
  | ErrorBody _ msg => if bool_decide (msg = "") then "Failed to compare images" else msg
  | ReportBody _ => "Failed to compare images"
  end.

(** [handleCompare] up to its [await], and from there on. *)
Definition handleCompare_begin (st : State) : State := setError "" (setIsComparing true st).

Definition handleCompare_end (s : Settled) (st : State) : State :=
  match s with
  | Thrown e => setIsComparing false (setError (message e) st)
  | Answered response =>
      if negb (ok response)
      then setIsComparing false (setError (error_message (body response)) st)
      else setIsComparing false
             (setShowResults true (setComparisonResult (Some (body response)) st))
  end.

(** The [disabled] of the button. *)
Definition compare_disabled (st : State) : bool :=
  bool_decide (pageUrl st = "") || isComparing st
  || (String.eqb (inputMethod st) "url" && bool_decide (figmaUrl st = ""))
  || (String.eqb (inputMethod st) "file"
      && match figmaFile st with Some _ => false | None => true end).

(** The [onClick] of the button "New Comparison". *)
Definition new_comparison (st : State) : State :=
  setError "" (setComparisonResult None (setShowResults false st)).

(** The error alert of the results view: [{error && <Alert>...}]. *)
Definition alert (st : State) : option string :=
  if showResults st && negb (bool_decide (error st = "")) then Some (error st) else None.

(** The two tabs. *)
Inductive Tab := TabUrl | TabFile.
Definition tab_value (t : Tab) : string :=
  match t with TabUrl => "url" | TabFile => "file" end.

(** What can happen to the page. *)
Inductive Event :=
  | ChangeFigmaUrl (value : string)
  | ChangePageUrl (value : string)
  | ChangeTab (t : Tab)
  | ChangeFile (file : option BrowserFile)
  | ClickCompare
  | Settle (s : Settled)
  | ClickNewComparison
  | ChangeOpacity (value : string).

(** One event.  The form is rendered while [showResults] is false and the
    results while it is true; the inputs and the button are not used while
    they are disabled; a fetch settles only while one is awaited. *)
Definition step (ev : Event) (st : State) : option State :=
  match ev with
  | ChangeFigmaUrl v =>
      if showResults st || isComparing st then None else Some (setFigmaUrl v st)
  | ChangePageUrl v =>
      if showResults st || isComparing st then None else Some (setPageUrl v st)
  | ChangeTab t =>
      if showResults st then None else Some (setInputMethod (tab_value t) st)
  | ChangeFile file =>
      if showResults st || isComparing st then None else Some (handleFileChange file st)
  | ClickCompare =>
      if showResults st || compare_disabled st then None else Some (handleCompare_begin st)
  | Settle s =>
      if isComparing st then Some (handleCompare_end s st) else None
  | ClickNewComparison =>
      if showResults st then Some (new_comparison st) else None
  | ChangeOpacity v =>
      if showResults st then Some (setOverlayOpacity (parseFloat (JsString v)) st) else None
  end.

Fixpoint run (evs : list Event) (st : State) : option State :=
  match evs with
  | [] => Some st
  | ev :: rest => match step ev st with Some st' => run rest st' | None => None end
  end.

End Page.

(** The request as the routes of the server receive it. *)
Definition receive (fetch : Fetch) (browser : Browser) (resemble : Engine) (server_dir : string)
    (r : Page.Request) (w : World) : Response * World :=
  match r with
  | Page.PostCompare figmaImageUrl page =>
      post_compare (downloadImage fetch) browser resemble server_dir
        {| figmaImageUrl := JsString figmaImageUrl; pageUrl := JsString page |} w
  | Page.PostCompareFile f page =>
      post_compare_file browser resemble server_dir
        {| figmaImage := Some {| mimetype := file_type f; originalname := file_name f;
                                 upload_content := file_content f |};
           file_pageUrl := JsString page |} w
  end.

(** ** The values of numbers

    Every finite binary64 number is a whole number of units of [2^-1074]. *)

Definition unit_den : Z := 2 ^ 1074.

(** The value of a finite number, in units of [2^-1074]. *)
Definition units (x : number) : Z :=
  match x with
  | S754_finite s m e => cond_Zopp s (Zpos m * 2 ^ (e + 1074))
  | _ => 0
  end.

Definition is_finite (x : number) : bool :=
  match x with
  | S754_zero _ | S754_finite _ _ _ => true
  | _ => false
  end.

(** The numbers the runtime can hold: the mantissa is normalised. *)
Definition valid (x : number) : bool := valid_binary prec emax x.

(** The number of hundredths a string such as ["87.55"] stands for: digits, a
    point and exactly two digits, with an optional minus sign. *)
Definition hundredths (r : rendered) : option Z :=
  match r with
  | Str s =>
      let '(neg, cs) :=
        match list_ascii_of_string s with
        | "-"%char :: cs => (true, cs)
        | cs => (false, cs)
        end in
      let '(ip, r1) := span_digits cs in
      match ip, r1 with
      | _ :: _, "."%char :: f =>
          match span_digits f with
          | ([d1; d2], []) =>
              let n := digits_value (ip ++ [d1; d2]) in
              Some (if neg then - n else n)
          | _ => None
          end
      | _, _ => None
      end
  | ToStringOf _ => None
  end.

(** ** The report of the specification *)

(** [clamp(v, lo, hi)] *)
Definition clamp (v lo hi : number) : number := num_min (num_max v lo) hi.

(** The match score as the specification words it:
    [clamp(100 - mismatchPercentage, 0, 100)], reported with two decimals. *)
Definition matchScore_spec (m : number) : rendered :=
  toFixed 2 (clamp (num_sub (num_of_Z 100) m) (num_of_Z 0) (num_of_Z 100)).

(** ** The comparator of the specification

    The pixel comparison itself is done by [resemblejs], which [compare.js]
    imports; its code is not among the sources.  The definitions of this
    part follow sections 3 and 4 of the specification instead. *)

(** Modelled from the spec: a pixel of a RasterImage (section 3, "per-pixel
    RGBA"); channels are 0..255. *)
Record Pixel := { px_r : Z; px_g : Z; px_b : Z; px_a : Z }.

(** Modelled from the spec: RasterImage (section 3), "an immutable,
    already-decoded 2D grid of pixels (width, height, per-pixel RGBA)";
    the grid is kept row by row. *)
Record RasterImage := {
  img_width : nat;
  img_height : nat;
  img_pixels : list Pixel
}.

(** Modelled from the spec: the inputs of the Size Normalizer have "any
    positive dimensions" (section 4.1); the grid holds one pixel per position
    and the number of pixels is one a number holds exactly. *)
Definition wf_image (i : RasterImage) : Prop :=
  (0 < img_width i)%nat /\ (0 < img_height i)%nat /\
  length (img_pixels i) = (img_width i * img_height i)%nat /\
  Z.of_nat (img_width i * img_height i) < 2 ^ 53.

(** Modelled from the spec: what a position off the grid reads as (the
    specification has no such position; comparisons stay on the grid). *)
Definition transparent_black : Pixel := {| px_r := 0; px_g := 0; px_b := 0; px_a := 0 |}.

(** Modelled from the spec: the pixel at column [x] of row [y] of the grid. *)
Definition pixel_at (i : RasterImage) (x y : nat) : Pixel :=
  nth (y * img_width i + x) (img_pixels i) transparent_black.

(** Modelled from the spec: "each pixel position" (section 4.2) of a [w] by
    [h] grid, row by row. *)
Definition positions (w h : nat) : list (nat * nat) :=
  flat_map (fun y => map (fun x => (x, y)) (seq 0 w)) (seq 0 h).

(** Modelled from the spec: [diffMode] of the ComparisonPolicy (section 3). *)
Inductive DiffMode := overlay | movement | flat.

(** Modelled from the spec: ComparisonPolicy (section 3). *)
Record ComparisonPolicy := {
  ignoreAntialiasing : bool;
  ignoreColors : bool;
  policy_scaleToSameSize : bool;
  errorHighlightColor : ErrorColor;
  errorHighlightTransparency : number;
  diffMode : DiffMode
}.

(** Modelled from the spec: the failures of [compare] (sections 6 and 7). *)
Inductive CompareError := DimensionMismatch | DecodeError | InternalError.

(** Modelled from the spec: the resampling of the Size Normalizer (section
    4.1, "using a fixed interpolation method"); the method fixed here is the
    nearest pixel. *)
Definition resample (i : RasterImage) (w h : nat) : RasterImage := {|
  img_width := w;
  img_height := h;
  img_pixels :=
    map (fun '(x, y) => pixel_at i (x * img_width i / w) (y * img_height i / h))
        (positions w h)
|}.

(** Modelled from the spec: "dimensions already equal" (section 4.1). *)
Definition same_dimensions (a b : RasterImage) : bool :=
  (img_width a =? img_width b)%nat && (img_height a =? img_height b)%nat.

(** Modelled from the spec: [dimensionDelta = (|wA - wB|, |hA - hB|)]
    (section 4.1). *)
Definition dimension_delta (a b : RasterImage) : Dimensions := {|
  dim_width := Z.abs (Z.of_nat (img_width a) - Z.of_nat (img_width b));
  dim_height := Z.abs (Z.of_nat (img_height a) - Z.of_nat (img_height b))
|}.

(** Modelled from the spec: the Size Normalizer (section 4.1).  Equal
    dimensions pass through; with [scaleToSameSize] both images are brought
    to the larger width and the larger height; without it the normalizer
    fails with [DimensionMismatch]. *)
Definition normalize_size (policy : ComparisonPolicy) (a b : RasterImage)
    : CompareError + RasterImage * RasterImage :=
  if same_dimensions a b then inr (a, b)
  else if policy_scaleToSameSize policy then
    let w := Nat.max (img_width a) (img_width b) in
    let h := Nat.max (img_height a) (img_height b) in
    inr (resample a w h, resample b w h)
  else inl DimensionMismatch.

(** Modelled from the spec: "a luminance-only representation" (section 4.2);
    the weights are those of Rec. 601, in thousandths. *)
Definition luminance (p : Pixel) : Z := 299 * px_r p + 587 * px_g p + 114 * px_b p.

(** Modelled from the spec: the "per-channel ... distance between the two
    images' pixel values" (section 4.2), on the luminance when [ignoreColors]
    is set. *)
Definition pixel_distance (policy : ComparisonPolicy) (p q : Pixel) : Z :=
  if ignoreColors policy then
    Z.abs (luminance p - luminance q) + Z.abs (px_a p - px_a q)
  else
    Z.abs (px_r p - px_r q) + Z.abs (px_g p - px_g q)
    + Z.abs (px_b p - px_b q) + Z.abs (px_a p - px_a q).

(** Modelled from the spec: "the 3x3 ... window around it" (section 4.2):
    the positions around [(x, y)] that lie on the grid. *)
Definition neighbours (i : RasterImage) (x y : nat) : list (nat * nat) :=
  List.filter (fun '(u, v) =>
            negb ((u =? x)%nat && (v =? y)%nat)
            && (u <? img_width i)%nat && (v <? img_height i)%nat)
         (flat_map (fun v => map (fun u => (u, v)) (seq (x - 1) (if (x =? 0)%nat then 2 else 3)))
                   (seq (y - 1) (if (y =? 0)%nat then 2 else 3))).

(** Modelled from the spec: a channel of the pixel lies "within the range
    spanned by its own neighboring pixels" (section 4.2): some neighbour is
    not above it and some neighbour is not below it. *)
Definition channel_in_range (c : Pixel -> Z) (i : RasterImage) (x y : nat) : bool :=
  let around := map (fun '(u, v) => c (pixel_at i u v)) (neighbours i x y) in
  existsb (fun n => n <=? c (pixel_at i x y)) around
  && existsb (fun n => c (pixel_at i x y) <=? n) around.

(** Modelled from the spec: "the divergent pixel's color lies within the
    range spanned by its own neighboring pixels" (section 4.2), channel by
    channel over the 3 by 3 window. *)
Definition in_neighbour_range (i : RasterImage) (x y : nat) : bool :=
  channel_in_range px_r i x y && channel_in_range px_g i x y && channel_in_range px_b i x y.

(** Modelled from the spec: a channel of the pixel is a mix of its
    neighbours (section 4.2, "a blend"): some neighbour lies below it and
    some neighbour lies above it. *)
Definition channel_between (c : Pixel -> Z) (i : RasterImage) (x y : nat) : bool :=
  let around := map (fun '(u, v) => c (pixel_at i u v)) (neighbours i x y) in
  existsb (fun n => n <? c (pixel_at i x y)) around
  && existsb (fun n => c (pixel_at i x y) <? n) around.

(** Modelled from the spec: "a blend consistent with anti-aliased edge
    smoothing" (section 4.2) at a position of one image: the colour lies
    within the range its neighbours span, and on some channel between two of
    them.  A pixel whose neighbours all have its own colour is no blend:
    section 8 asks a mismatch of 100 for black against white, whatever
    [ignoreAntialiasing] is. *)
Definition blended (i : RasterImage) (x y : nat) : bool :=
  in_neighbour_range i x y
  && (channel_between px_r i x y || channel_between px_g i x y || channel_between px_b i x y).

(** Modelled from the spec: an anti-aliased blend at a position, seen in the
    window "around it in either image" (section 4.2). *)
Definition antialiased (a b : RasterImage) (x y : nat) : bool :=
  blended a x y || blended b x y.

(** Modelled from the spec: the classification of the Pixel Comparator
    (section 4.2): a position is divergent when its pixels are at a distance,
    unless [ignoreAntialiasing] is set and the difference is a blend. *)
Definition divergent (policy : ComparisonPolicy) (a b : RasterImage) (xy : nat * nat) : bool :=
  let '(x, y) := xy in
  negb (pixel_distance policy (pixel_at a x y) (pixel_at b x y) =? 0)
  && negb (ignoreAntialiasing policy && antialiased a b x y).

(** Modelled from the spec: the "running divergence count" and the number
    of compared pixels (section 4.2). *)
Definition divergentPixels (policy : ComparisonPolicy) (a b : RasterImage) : nat :=
  length (List.filter (divergent policy a b) (positions (img_width a) (img_height a))).

(** Modelled from the spec: [totalPixels] (section 4.2). *)
Definition totalPixels (a : RasterImage) : nat := (img_width a * img_height a)%nat.

(** Modelled from the spec: [rawMismatchPercentage = divergentPixels /
    totalPixels * 100], "computed in floating point" (section 4.2). *)
Definition rawMismatchPercentage_of (policy : ComparisonPolicy) (a b : RasterImage) : number :=
  num_mul (num_div (num_of_Z (Z.of_nat (divergentPixels policy a b)))
                   (num_of_Z (Z.of_nat (totalPixels a))))
          (num_of_Z 100).

(** Modelled from the spec: "blend [errorHighlightColor] over the base pixel
    with alpha = [errorHighlightTransparency]" (section 4.3). *)
Definition blend_channel (alpha : number) (highlight base : Z) : Z :=
  num_round (num_add (num_mul alpha (num_of_Z highlight))
                     (num_mul (num_sub (num_of_Z 1) alpha) (num_of_Z base))).

(** Modelled from the spec: a highlighted pixel of the diff raster (section
    4.3): the three colour channels blended, the alpha of the base kept. *)
Definition highlight_pixel (policy : ComparisonPolicy) (base : Pixel) : Pixel :=
  let c := errorHighlightColor policy in
  let alpha := errorHighlightTransparency policy in
  {| px_r := blend_channel alpha (red c) (px_r base);
     px_g := blend_channel alpha (green c) (px_g base);
     px_b := blend_channel alpha (blue c) (px_b base);
     px_a := px_a base |}.

(** Modelled from the spec: the Diff Image Renderer (section 4.3): the
    candidate image as base layer, every divergent pixel highlighted, at the
    normalized dimensions.  The directional tint of [diffMode = movement] is
    not fixed by the specification; divergent pixels get the flat highlight
    in every mode. *)
Definition render_diff (policy : ComparisonPolicy) (a b : RasterImage) : RasterImage := {|
  img_width := img_width a;
  img_height := img_height a;
  img_pixels :=
    map (fun xy => if divergent policy a b xy
                   then highlight_pixel policy (pixel_at b (fst xy) (snd xy))
                   else pixel_at b (fst xy) (snd xy))
        (positions (img_width a) (img_height a))
|}.

(** Modelled from the spec: ComparisonResult (section 3). *)
Record SpecResult := {
  mismatchPercentage : number;
  spec_rawMismatchPercentage : number;
  spec_isSameDimensions : bool;
  dimensionDelta : option Dimensions;
  diffImage : RasterImage;
  computedAt : IsoTime
}.

(** Modelled from the spec: the Comparator (sections 2 and 4): normalize the
    sizes, compare the pixels, render the diff. *)
Definition compare_spec (now : IsoTime) (policy : ComparisonPolicy)
    (reference candidate : RasterImage) : CompareError + SpecResult :=
  match normalize_size policy reference candidate with
  | inl err => inl err
  | inr (a, b) =>
      let same := same_dimensions reference candidate in
      inr {|
        mismatchPercentage := rawMismatchPercentage_of policy a b;
        spec_rawMismatchPercentage := rawMismatchPercentage_of policy a b;
        spec_isSameDimensions := same;
        dimensionDelta := if same then None else Some (dimension_delta reference candidate);
        diffImage := render_diff policy a b;
        computedAt := now
      |}
  end.

(** Modelled from the spec: the [diffMode] an [errorType] of the output
    settings stands for. *)
Definition diffMode_of (errorType : string) : DiffMode :=
  if String.eqb errorType "movement" then movement
  else if String.eqb errorType "flat" then flat
  else overlay.

(** Modelled from the spec: the names of the failures (section 7). *)
Definition error_name (e : CompareError) : string :=
  match e with
  | DimensionMismatch => "DimensionMismatch"
  | DecodeError => "DecodeError"
  | InternalError => "InternalError"
  end.

Section SpecEngine.
(** Modelled from the spec: the comparator works on decoded rasters (section
    3); the codec that turns the bytes of a file into a raster and back is a
    parameter. *)
Variable decode : list byte -> option RasterImage.
Variable encode : RasterImage -> list byte.

(** Modelled from the spec: the ComparisonPolicy (section 3) that the chained
    calls of [compare.js] configure. *)
Definition policy_of (call : EngineCall) : ComparisonPolicy := {|
  ignoreAntialiasing := call_ignoreAntialiasing call;
  ignoreColors := call_ignoreColors call;
  policy_scaleToSameSize := call_scaleToSameSize call;
  errorHighlightColor := errorColor (call_outputSettings call);
  errorHighlightTransparency := transparency (call_outputSettings call);
  diffMode := diffMode_of (errorType (call_outputSettings call))
|}.

(** Modelled from the spec: the comparator of the specification behind the
    interface [compare.js] uses: it reads and decodes the two files, compares
    them under the policy the call configures, and reports the percentages,
    the dimensions and the diff image; a failure of [compare] is thrown. *)
Definition spec_engine : Engine := fun call w =>
  match files w !! call_image1 call ≫= decode, files w !! call_image2 call ≫= decode with
  | Some reference, Some candidate =>
      match compare_spec (Date_now_iso w) (policy_of call) reference candidate with
      | inl err => (Threw {| message := error_name err |}, w)
      | inr res =>
          (Completed {|
             data_misMatchPercentage := JsNumber (mismatchPercentage res);
             data_isSameDimensions := Some (spec_isSameDimensions res);
             data_dimensionDifference := dimensionDelta res;
             data_rawMisMatchPercentage := JsNumber (spec_rawMismatchPercentage res);
             data_diffBounds := None;
             data_analysisTime := JsNumber (num_of_Z (epoch_ms (computedAt res)));
             data_getBuffer := Some (inr (encode (diffImage res)))
           |}, w)
      end
  | _, _ => (Threw {| message := error_name DecodeError |}, w)
  end.
End SpecEngine.

(** ** Notions the properties are stated with *)

(** A character occurs in a string. *)
Definition occurs (c : ascii) (s : string) : Prop := In c (list_ascii_of_string s).

(** The ids two groups stand for. *)
Definition ids_of (groups : list (list ascii)) : FigmaIds :=
  {| fileId := string_of_list_ascii (nth 0 groups []);
     nodeId := string_of_list_ascii (nth 1 groups []) |}.

(** A segment that [normalize] keeps as it is. *)
Definition regular (seg : list ascii) : Prop :=
  seg <> [] /\ seg <> dot /\ seg <> dotdot /\ Forall (fun c => is_slash c = false) seg.

(** A path in canonical form: the root and regular segments. *)
Definition canonical (p : string) : Prop :=
  exists segs, segs <> [] /\ Forall regular segs /\
               list_ascii_of_string p = "/"%char :: join_slash segs.

(** While a comparison runs the form is shown and no error is stored, and
    the results are shown only with no error stored. *)
Definition page_quiet (st : Page.State) : Prop :=
  (Page.isComparing st = true -> Page.showResults st = false /\ Page.error st = "") /\
  (Page.showResults st = true -> Page.error st = "").

(** The file the page holds is an image, and the tab is one of the two. *)
Definition page_chosen (st : Page.State) : Prop :=
  (forall f, Page.figmaFile st = Some f -> String.prefix "image/" (file_type f) = true) /\
  (Page.inputMethod st = "url" \/ Page.inputMethod st = "file").

(** A figure of the report that stands for the number [x] rounded to
    hundredths: digits, a point and two digits, with a minus sign for a
    negative [x]; no hundredth is nearer to [x], and of two that are as near
    it is the one away from zero. *)
Definition two_decimals (x : number) (figure : rendered) : Prop :=
  exists a, hundredths figure = Some a /\
    (0 <= units x -> 0 <= a) /\ (units x <= 0 -> a <= 0) /\
    - unit_den < 2 * (Z.abs a * unit_den - 100 * Z.abs (units x)) <= unit_den.

(** What [toFixed(2)] makes of the number [x]: two decimals when [x] is
    finite and below [10^21] in magnitude, and no such figure otherwise. *)
Definition fixed_figure (x : number) (figure : rendered) : Prop :=
  (is_finite x = true -> Z.abs (units x) < 10 ^ 21 * unit_den -> two_decimals x figure) /\
  (is_finite x = false \/ 10 ^ 21 * unit_den <= Z.abs (units x) -> hundredths figure = None).




(** ** Sample runs *)

Definition figma_path : string := "/app/backend/assets/figma.png".
Definition code_path : string := "/app/backend/assets/code.png".

Definition png_signature : list byte := [x89; x50; x4e; x47; x0d; x0a; x1a; x0a].

(** Both images on disk, at 2024-01-15T10:30:00.000Z. *)
Definition sample_world : World := {|
  files := <[figma_path := png_signature ++ [x01]]>
             (<[code_path := png_signature ++ [x02]]> ∅);
  clock := 1705314600000
|}.

(** The same disk one second later. *)
Definition later_world : World := {| files := files sample_world; clock := 1705314601000 |}.

(** A disk without the screenshot. *)
Definition world_without_code : World := {|
  files := <[figma_path := png_signature ++ [x01]]> ∅;
  clock := 1705314600000
|}.

(** An engine answer for two images of different sizes: the comparison
    completes and reports the difference in size. *)
Definition sized_data : ResembleData := {|
  data_misMatchPercentage := JsString "12.45";
  data_isSameDimensions := Some false;
  data_dimensionDifference := Some {| dim_width := 50; dim_height := 50 |};
  data_rawMisMatchPercentage := JsNumber (num_of_ratio false 1245 100);
  data_diffBounds := Some {| top := 0; left := 0; bottom := 100; right := 100 |};
  data_analysisTime := JsNumber (num_of_Z 12);
  data_getBuffer := Some (inr (png_signature ++ [x03]))
|}.

Definition sized_engine : Engine := fun _ w => (Completed sized_data, w).

(** The caller's options with scaling switched off. *)
Definition no_scaling : Options :=
  {| opt_output := None; opt_scaleToSameSize := Some false; opt_ignore := None |}.

Definition sample_result : ComparisonResult := {|
  misMatchPercentage := parseFloat (JsString "12.45");
  isSameDimensions := Some true;
  dimensionDifference := Some {| dim_width := 0; dim_height := 0 |};
  analysisTime := {| epoch_ms := 1705314599000 |};
  diffImagePath := "/app/backend/assets/diff.png";
  rawData := {|
    rawMisMatchPercentage := num_of_ratio false 1245 100;
    diffBounds := None;
    raw_analysisTime := JsNumber (num_of_Z 12)
  |}
|}.

(** A download that fails because the image cannot be fetched. *)
Definition failing_download : JsValue -> string -> World -> Outcome unit * World :=
  fun _ _ w => (Rejected {| message := "Failed to download image: 404 Not Found" |}, w).

Definition sample_browser : Browser := fun _ w => (Captured (png_signature ++ [x02]), w).

Definition sample_request : CompareRequest := {|
  figmaImageUrl := JsString "https://example.com/figma.png";
  pageUrl := JsString "http://localhost:3000"
|}.

(** What [compareImages] answers on [sample_world] with [sized_engine]. *)
Definition sized_world : World :=
  writeFileSync "/app/backend/assets/diff.png" (png_signature ++ [x03]) sample_world.

Definition sized_result : ComparisonResult := {|
  misMatchPercentage := parseFloat (JsString "12.45");
  isSameDimensions := Some false;
  dimensionDifference := Some {| dim_width := 50; dim_height := 50 |};
  analysisTime := {| epoch_ms := 1705314600000 |};
  diffImagePath := "/app/backend/assets/diff.png";
  rawData := {|
    rawMisMatchPercentage := num_of_ratio false 1245 100;
    diffBounds := Some {| top := 0; left := 0; bottom := 100; right := 100 |};
    raw_analysisTime := JsNumber (num_of_Z 12)
  |}
|}.

(** A codec for the samples: a byte for the width, one for the height, then
    one gray level per pixel. *)
Definition gray (g : byte) : Pixel :=
  let v := Z.of_N (Byte.to_N g) in {| px_r := v; px_g := v; px_b := v; px_a := 255 |}.

Definition gray_decode (bs : list byte) : option RasterImage :=
  match bs with
  | w :: h :: levels =>
      let wn := N.to_nat (Byte.to_N w) in
      let hn := N.to_nat (Byte.to_N h) in
      if (length levels =? wn * hn)%nat
      then Some {| img_width := wn; img_height := hn; img_pixels := map gray levels |}
      else None
  | _ => None
  end.

Definition byte_of_Z (z : Z) : byte := default x00 (Byte.of_N (Z.to_N z)).

Definition gray_encode (i : RasterImage) : list byte :=
  byte_of_Z (Z.of_nat (img_width i)) :: byte_of_Z (Z.of_nat (img_height i))
  :: map (fun p => byte_of_Z (px_r p)) (img_pixels i).

(** A 50 by 50 reference and a 100 by 100 candidate, both mid-gray. *)
Definition small_reference : RasterImage :=
  {| img_width := 50; img_height := 50; img_pixels := repeat (gray x80) (50 * 50) |}.
Definition large_candidate : RasterImage :=
  {| img_width := 100; img_height := 100; img_pixels := repeat (gray x80) (100 * 100) |}.

Definition two_sizes_world : World := {|
  files := <[figma_path := x32 :: x32 :: repeat x80 (50 * 50)]>
             (<[code_path := x64 :: x64 :: repeat x80 (100 * 100)]> ∅);
  clock := 1705314600000
|}.

(** A hard edge and the same edge anti-aliased, three pixels in a row. *)
Definition hard_edge : RasterImage :=
  {| img_width := 3; img_height := 1; img_pixels := [gray x00; gray x00; gray xc8] |}.
Definition smooth_edge : RasterImage :=
  {| img_width := 3; img_height := 1; img_pixels := [gray x00; gray x64; gray xc8] |}.

Definition edges_world : World := {|
  files := <[figma_path := [x03; x01; x00; x00; xc8]]>
             (<[code_path := [x03; x01; x00; x64; xc8]]> ∅);
  clock := 1705314600000
|}.

(** The same image in both files. *)
Definition same_bytes_world : World := {|
  files := <[figma_path := [x03; x01; x00; x64; xc8]]>
             (<[code_path := [x03; x01; x00; x64; xc8]]> ∅);
  clock := 1705314600000
|}.

(** Modification times one second before the clock. *)
Definition sample_mtime : string -> World -> IsoTime :=
  fun _ w => {| epoch_ms := clock w - 1000 |}.

(** What [compareImagesDetailed] answers on [sample_world] with
    [sized_engine]. *)
Definition sized_analysis : DetailedAnalysis := {|
  detailed_result := sized_result;
  fileInfo_image1 := {| info_path := figma_path; info_size := 9;
                        info_modified := {| epoch_ms := 1705314599000 |} |};
  fileInfo_image2 := {| info_path := code_path; info_size := 9;
                        info_modified := {| epoch_ms := 1705314599000 |} |};
  quality := {| excellent := false; good := false; acceptable := false; poor := true |};
  recommendations :=
    ["Significant differences detected. Review the design implementation thoroughly.";
     "Images have different dimensions. Ensure consistent viewport sizes."]
|}.

(** A browser that cannot reach the page and gives up after a quarter of a
    second. *)
Definition unreachable_browser : Browser := fun _ w =>
  (BrowserThrew {| message := "net::ERR_CONNECTION_REFUSED" |},
   {| files := files w; clock := clock w + 250 |}).

(** What two attempts with [unreachable_browser] leave. *)
Definition retried_error : JsError := {|
  message := "Failed to take screenshot after 2 attempts. Last error: "
             +:+ "Failed to take screenshot: net::ERR_CONNECTION_REFUSED"
|}.
Definition retried_world : World :=
  {| files := files sample_world; clock := clock sample_world + 250 + 2000 + 250 |}.

(** A browser whose [close] rejects after a good capture. *)
Definition closing_badly : Browser := fun _ w =>
  (CloseThrew {| message := "Protocol error: Connection closed." |}
     (Captured (png_signature ++ [x02])), w).

(** A browser that reaches the page only from six seconds on; every call
    takes a quarter of a second. *)
Definition late_browser : Browser := fun _ w =>
  (if clock w <? clock sample_world + 6000
   then BrowserThrew {| message := "net::ERR_CONNECTION_REFUSED" |}
   else Captured (png_signature ++ [x02]),
   {| files := files w; clock := clock w + 250 |}).

(** A network that answers every request with a small PNG, and one that
    answers with status 404. *)
Definition image_response : FetchResponse := {|
  res_ok := true;
  res_status := 200;
  res_statusText := "OK";
  res_contentType := Some "image/png";
  res_json := inl {| message := "Unexpected token" |};
  res_text := inl {| message := "not a text" |};
  res_arrayBuffer := inr (png_signature ++ [x01])
|}.
Definition sample_fetch : Fetch := fun _ w => (Fetched image_response, w).

Definition unreachable_fetch : Fetch := fun _ w =>
  (FetchThrew {| message := "getaddrinfo ENOTFOUND example.com" |}, w).

(** The design URL of [test.js], and the images API answering for its node. *)
Definition design_url : string :=
  "hhttps://www.figma.com/design/sL3BXjIxnX2Zaqbta4e1NE/Loan-CalcD?node-id=0-1&t=15ph90yweftOGITr-0".

Definition api_response : FetchResponse := {|
  res_ok := true;
  res_status := 200;
  res_statusText := "OK";
  res_contentType := Some "application/json";
  res_json := inr (AnswerImages (Some (fun node =>
                if String.eqb node "0-1" then JsString "https://cdn.example.com/0-1.png"
                else JsUndefined)));
  res_text := inl {| message := "body used already" |};
  res_arrayBuffer := inl {| message := "body used already" |}
|}.
Definition figma_fetch : Fetch := fun target w =>
  match target with
  | JsString "https://www.figma.com/api/figma/1.0/images/sL3BXjIxnX2Zaqbta4e1NE?ids=0-1&format=png&scale=2" =>
      (Fetched api_response, w)
  | _ => (Fetched image_response, w)
  end.

(** What [/compare] answers to [sample_request], and the world it leaves. *)
Definition compared : Response * World :=
  post_compare (downloadImage sample_fetch) sample_browser sized_engine "/app/backend"
    sample_request sample_world.

(** An uploaded PNG, and what [/compare-file] answers to it. *)
Definition uploaded_png : UploadedFile :=
  {| mimetype := "image/png"; originalname := "design.png";
     upload_content := png_signature ++ [x04] |}.
Definition compared_file : Response * World :=
  post_compare_file sample_browser sized_engine "/app/backend"
    {| figmaImage := Some uploaded_png; file_pageUrl := JsString "http://localhost:3000" |}
    sample_world.

(** A comparison that fails, and an upload chosen at the second try. *)
Definition failed_run : list Page.Event :=
  [Page.ChangeFigmaUrl "https://example.com/figma.png";
   Page.ChangePageUrl "http://localhost:3000";
   Page.ClickCompare;
   Page.Settle (Page.Thrown {| message := "Failed to fetch" |})].

Definition upload_run : list Page.Event :=
  [Page.ChangeTab Page.TabFile;
   Page.ChangeFile (Some {| file_name := "notes.txt"; file_type := "text/plain";
                            file_content := [x68; x69] |});
   Page.ChangeFile (Some {| file_name := "design.png"; file_type := "image/png";
                            file_content := png_signature ++ [x04] |});
   Page.ChangePageUrl "http://localhost:3000"].

(** A comparison result with a mismatch of 150. *)
Definition overshoot_result : ComparisonResult := {|
  misMatchPercentage := num_of_Z 150;
  isSameDimensions := Some true;
  dimensionDifference := Some {| dim_width := 0; dim_height := 0 |};
  analysisTime := {| epoch_ms := 1705314599000 |};
  diffImagePath := "/app/backend/assets/diff.png";
  rawData := {|
    rawMisMatchPercentage := num_of_Z 150;
    diffBounds := None;
    raw_analysisTime := JsNumber (num_of_Z 12)
  |}
|}.

(** An engine answer that carries no figures, as for a file that is no
    image: the object holds an error text and nothing the code reads. *)
Definition blank_data : ResembleData := {|
  data_misMatchPercentage := JsUndefined;
  data_isSameDimensions := None;
  data_dimensionDifference := None;
  data_rawMisMatchPercentage := JsUndefined;
  data_diffBounds := None;
  data_analysisTime := JsUndefined;
  data_getBuffer := None
|}.
Definition blank_engine : Engine := fun _ w => (Completed blank_data, w).

(** A comparison result whose mismatch is no number. *)
Definition blank_result : ComparisonResult := {|
  misMatchPercentage := NaN;
  isSameDimensions := None;
  dimensionDifference := None;
  analysisTime := {| epoch_ms := 1705314600000 |};
  diffImagePath := "/app/backend/assets/diff.png";
  rawData := {| rawMisMatchPercentage := NaN; diffBounds := None;
                raw_analysisTime := JsUndefined |}
|}.

(** An engine that throws while the chain is set up, and one whose answer
    has a [getBuffer] that throws. *)
Definition throwing_engine : Engine := fun _ w =>
  (Threw {| message := "Unsupported image type" |}, w).
Definition broken_buffer_engine : Engine := fun _ w =>
  (Completed {|
     data_misMatchPercentage := JsString "12.45";
     data_isSameDimensions := Some true;
     data_dimensionDifference := None;
     data_rawMisMatchPercentage := JsNumber (num_of_ratio false 1245 100);
     data_diffBounds := None;
     data_analysisTime := JsNumber (num_of_Z 12);
     data_getBuffer := Some (inl {| message := "Out of memory" |})
   |}, w).

(** A black and a white image of 3 by 3 pixels. *)
Definition black_white_world : World := {|
  files := <[figma_path := x03 :: x03 :: repeat x00 9]>
             (<[code_path := x03 :: x03 :: repeat xff 9]> ∅);
  clock := 1705314600000
|}.

(** * Properties *)

(** ** compare.js: input validation and the engine's answer *)

Lemma existsSync_false w p : existsSync w p = false <-> files w !! p = None.
Proof.
  unfold existsSync. rewrite bool_decide_eq_false, <- eq_None_not_Some. tauto.
Qed.

Lemma existsSync_true w p : existsSync w p = true <-> is_Some (files w !! p).
Proof. unfold existsSync. by rewrite bool_decide_eq_true. Qed.

Lemma existsSync_write p q c w :
  existsSync (writeFileSync p c w) q = existsSync w q || bool_decide (p = q).
Proof.
  unfold existsSync, writeFileSync; simpl.
  destruct (decide (p = q)) as [->|Hne].
  - rewrite lookup_insert_eq, (bool_decide_eq_true_2 (q = q)) by done.
    rewrite orb_true_r. apply bool_decide_eq_true_2. eauto.
  - rewrite lookup_insert_ne, (bool_decide_eq_false_2 (p = q)) by done.
    by rewrite orb_false_r.
Qed.

Lemma compareImages_first_missing resemble p1 p2 options w :
  existsSync w p1 = false ->
  compareImages resemble p1 p2 options w =
    (Rejected (comparison_failed ("First image not found: " +:+ p1)), w).
Proof. intros H. unfold compareImages. by rewrite H. Qed.

Lemma compareImages_second_missing resemble p1 p2 options w :
  existsSync w p1 = true -> existsSync w p2 = false ->
  compareImages resemble p1 p2 options w =
    (Rejected (comparison_failed ("Second image not found: " +:+ p2)), w).
Proof. intros H1 H2. unfold compareImages. by rewrite H1, H2. Qed.

Lemma compareImages_completed resemble p1 p2 options w data w1 :
  existsSync w p1 = true -> existsSync w p2 = true ->
  resemble (engine_call p1 p2 options) w = (Completed data, w1) ->
  (forall error, data_getBuffer data <> Some (inl error)) ->
  let w2 := match data_getBuffer data with
            | Some (inr buf) => writeFileSync (diff_path p1) buf w1
            | _ => w1
            end in
  compareImages resemble p1 p2 options w =
    (Resolved {|
       misMatchPercentage := parseFloat (data_misMatchPercentage data);
       isSameDimensions := data_isSameDimensions data;
       dimensionDifference := data_dimensionDifference data;
       analysisTime := Date_now_iso w2;
       diffImagePath := diff_path p1;
       rawData := {|
         rawMisMatchPercentage := parseFloat (data_rawMisMatchPercentage data);
         diffBounds := data_diffBounds data;
         raw_analysisTime := data_analysisTime data |} |}, w2).
Proof.
  intros H1 H2 He Hb. unfold compareImages. rewrite H1, H2. cbn [negb].
  unfold engine_call in He. cbv zeta in He |- *. rewrite He.
  destruct (data_getBuffer data) as [[error|buf]|]; [by destruct (Hb error)|done|done].
Qed.

(** An error the engine throws comes out as it is. *)
Lemma compareImages_threw resemble p1 p2 options w e w1 :
  existsSync w p1 = true -> existsSync w p2 = true ->
  resemble (engine_call p1 p2 options) w = (Threw e, w1) ->
  compareImages resemble p1 p2 options w = (Rejected e, w1).
Proof.
  intros H1 H2 He. unfold compareImages. rewrite H1, H2. cbn [negb].
  unfold engine_call in He. cbv zeta in He |- *. by rewrite He.
Qed.

(** An error thrown while the answer is handled comes out with the prefix
    of the inner [catch]; nothing has been written. *)
Lemma compareImages_callback_threw resemble p1 p2 options w data error w1 :
  existsSync w p1 = true -> existsSync w p2 = true ->
  resemble (engine_call p1 p2 options) w = (Completed data, w1) ->
  data_getBuffer data = Some (inl error) ->
  compareImages resemble p1 p2 options w = (Rejected (processing_failed (message error)), w1).
Proof.
  intros H1 H2 He Hb. unfold compareImages. rewrite H1, H2. cbn [negb].
  unfold engine_call in He. cbv zeta in He |- *. by rewrite He, Hb.
Qed.

(** ** Binary64 arithmetic *)

Lemma digits2_pos_bounds p :
  2 ^ (Zpos (digits2_pos p) - 1) <= Zpos p < 2 ^ Zpos (digits2_pos p).
Proof.
  induction p as [p IH|p IH|]; cbn [digits2_pos].
  - rewrite Pos2Z.inj_succ, (Pos2Z.inj_xI p).
    replace (Z.succ (Zpos (digits2_pos p)) - 1) with (Z.succ (Zpos (digits2_pos p) - 1)) by lia.
    rewrite !Z.pow_succ_r by lia.
    generalize dependent (2 ^ (Zpos (digits2_pos p) - 1)).
    generalize dependent (2 ^ Zpos (digits2_pos p)). lia.
  - rewrite Pos2Z.inj_succ, (Pos2Z.inj_xO p).
    replace (Z.succ (Zpos (digits2_pos p)) - 1) with (Z.succ (Zpos (digits2_pos p) - 1)) by lia.
    rewrite !Z.pow_succ_r by lia.
    generalize dependent (2 ^ (Zpos (digits2_pos p) - 1)).
    generalize dependent (2 ^ Zpos (digits2_pos p)). lia.
  - simpl. lia.
Qed.

Lemma iter_pos_nat {A} (f : A -> A) p x :
  SpecFloat.iter_pos f p x = Nat.iter (Pos.to_nat p) f x.
Proof.
  revert x. induction p as [p IH|p IH|]; intros x; cbn [SpecFloat.iter_pos].
  - rewrite !IH, Pos2Nat.inj_xI.
    replace (S (2 * Pos.to_nat p)) with (Pos.to_nat p + S (Pos.to_nat p))%nat by lia.
    rewrite Nat.iter_add. f_equal. by rewrite Nat.iter_succ_r.
  - rewrite !IH, Pos2Nat.inj_xO.
    replace (2 * Pos.to_nat p)%nat with (Pos.to_nat p + Pos.to_nat p)%nat by lia.
    by rewrite Nat.iter_add.
  - reflexivity.
Qed.

(** One step of the right shift halves the mantissa. *)
Lemma shr_1_m mrs : 0 <= shr_m mrs -> shr_m (shr_1 mrs) = shr_m mrs / 2.
Proof.
  destruct mrs as [m r s]. cbn [shr_m]. intros Hm.
  destruct m as [|q|q]; [reflexivity| |lia].
  destruct q as [p|p|]; cbn [shr_1 shr_m].
  - rewrite (Pos2Z.inj_xI p). Z.to_euclidean_division_equations; lia.
  - rewrite (Pos2Z.inj_xO p). Z.to_euclidean_division_equations; lia.
  - reflexivity.
Qed.

Lemma shr_iter_m n mrs :
  0 <= shr_m mrs ->
  shr_m (Nat.iter n shr_1 mrs) = shr_m mrs / 2 ^ Z.of_nat n.
Proof.
  intros Hm. induction n as [|n IH].
  - simpl. by rewrite Z.div_1_r.
  - rewrite Nat.iter_succ, shr_1_m.
    + rewrite IH, Nat2Z.inj_succ, Z.pow_succ_r by lia.
      rewrite Z.div_div by lia. f_equal. lia.
    + rewrite IH. apply Z.div_pos; lia.
Qed.

Lemma pow2_pos k : 0 <= k -> 0 < 2 ^ k.
Proof. intros. apply Z.pow_pos_nonneg; lia. Qed.

Lemma pow2_add a b : 0 <= a -> 0 <= b -> 2 ^ (a + b) = 2 ^ a * 2 ^ b.
Proof. intros. by rewrite Z.pow_add_r. Qed.

Lemma pow2_le a b : a <= b -> 2 ^ a <= 2 ^ b.
Proof. intros. apply Z.pow_le_mono_r; lia. Qed.

Lemma pow2_lt a b : 0 <= b -> a < b -> 2 ^ a < 2 ^ b.
Proof. intros. apply Z.pow_lt_mono_r; lia. Qed.

(** The number of binary digits of [x > 0] is the [d] with
    [2^(d-1) <= x < 2^d]. *)
Lemma digits2_pos_unique p d :
  2 ^ (d - 1) <= Zpos p < 2 ^ d -> Zpos (digits2_pos p) = d.
Proof.
  intros [Hlo Hhi]. pose proof (digits2_pos_bounds p) as [Hlo' Hhi'].
  set (d' := Zpos (digits2_pos p)) in *.
  assert (0 < d).
  { destruct (Z.lt_trichotomy d 0) as [Hd|[->|Hd]]; [|simpl in Hhi; lia|done].
    rewrite (Z.pow_neg_r 2 d) in Hhi by lia. lia. }
  destruct (Z.lt_trichotomy d' d) as [Hlt|[Heq|Hgt]]; [|done|].
  - assert (2 ^ d' <= 2 ^ (d - 1)) by (apply pow2_le; lia). lia.
  - assert (2 ^ d <= 2 ^ (d' - 1)) by (apply pow2_le; lia). lia.
Qed.

Lemma pos_iter_xO p d : Zpos (Pos.iter xO p d) = Zpos p * 2 ^ Zpos d.
Proof.
  induction d as [|d IH] using Pos.peano_ind.
  - simpl. lia.
  - rewrite Pos.iter_succ, Pos2Z.inj_succ, Z.pow_succ_r by lia.
    rewrite (Pos2Z.inj_xO (Pos.iter xO p d)), IH. lia.
Qed.

Lemma digits2_pos_shift p d :
  Zpos (digits2_pos (Pos.iter xO p d)) = Zpos (digits2_pos p) + Zpos d.
Proof.
  apply digits2_pos_unique. rewrite pos_iter_xO.
  pose proof (digits2_pos_bounds p) as [Hlo Hhi].
  replace (Zpos (digits2_pos p) + Zpos d - 1) with ((Zpos (digits2_pos p) - 1) + Zpos d) by lia.
  rewrite !pow2_add by lia.
  pose proof (pow2_pos (Zpos d)). nia.
Qed.

Lemma shr_1_spec m r s :
  0 <= m ->
  shr_1 (Build_shr_record m r s) = Build_shr_record (m / 2) (Z.odd m) (r || s).
Proof.
  intros Hm. destruct m as [|q|q]; [reflexivity| |lia].
  destruct q as [p|p|]; cbn [shr_1]; f_equal.
  - rewrite (Pos2Z.inj_xI p). Z.to_euclidean_division_equations; lia.
  - rewrite (Pos2Z.inj_xO p). Z.to_euclidean_division_equations; lia.
Qed.

(** After [j + 1] shifts of the exact record of [M]: the quotient by
    [2^(j+1)], the round bit (the next bit of [M]) and the sticky bit
    (whether anything lies below it). *)
Lemma shr_iter_exact M j :
  0 <= M ->
  let mrs := Nat.iter (S j) shr_1 (Build_shr_record M false false) in
  0 <= shr_m mrs /\
  exists t, 0 <= t < 2 ^ Z.of_nat j /\
    M = shr_m mrs * 2 ^ (Z.of_nat j + 1) + (if shr_r mrs then 2 ^ Z.of_nat j else 0) + t /\
    (shr_s mrs = true <-> 0 < t).
Proof.
  intros HM. induction j as [|j IH].
  - cbn [Nat.iter]. rewrite shr_1_spec by done. cbn [shr_m shr_r shr_s orb].
    split; [Z.to_euclidean_division_equations; lia|].
    exists 0. change (2 ^ Z.of_nat 0) with 1. change (2 ^ (Z.of_nat 0 + 1)) with 2.
    repeat split; try lia; try discriminate.
    destruct (Z.odd M) eqn:Ho.
    + apply Z.odd_spec in Ho as [k ->]. Z.to_euclidean_division_equations; lia.
    + rewrite <- Z.negb_even in Ho. apply negb_false_iff, Z.even_spec in Ho as [k ->].
      Z.to_euclidean_division_equations; lia.
  - cbn zeta in IH |- *. rewrite Nat.iter_succ.
    destruct (Nat.iter (S j) shr_1 _) as [m r s]. cbn [shr_m shr_r shr_s] in IH.
    destruct IH as [Hm (t & Ht & HMeq & Hs)].
    rewrite shr_1_spec by done. cbn [shr_m shr_r shr_s].
    split; [Z.to_euclidean_division_equations; lia|].
    rewrite Nat2Z.inj_succ. unfold Z.succ.
    rewrite (pow2_add (Z.of_nat j + 1) 1) by lia.
    rewrite (pow2_add (Z.of_nat j) 1) in * by lia. change (2 ^ 1) with 2.
    pose proof (pow2_pos (Z.of_nat j) ltac:(lia)) as HP.
    set (P := 2 ^ Z.of_nat j) in *.
    exists ((if r then P else 0) + t).
    assert (m = 2 * (m / 2) + (if Z.odd m then 1 else 0)) as Hmd.
    { destruct (Z.odd m) eqn:Ho.
      - apply Z.odd_spec in Ho as [k ->]. Z.to_euclidean_division_equations; lia.
      - rewrite <- Z.negb_even in Ho. apply negb_false_iff, Z.even_spec in Ho as [k ->].
        Z.to_euclidean_division_equations; lia. }
    repeat split.
    + destruct r; lia.
    + destruct r; lia.
    + destruct (Z.odd m), r; nia.
    + intros Hrs. destruct r; [lia|]. simpl in Hrs. apply Hs in Hrs. lia.
    + intros Hpos. destruct r; [done|]. simpl. apply Hs. lia.
Qed.

(** Rounding the shifted mantissa to nearest, ties to even, stays within
    half a unit of the last place. *)
Lemma round_shift_exact M j :
  0 <= M ->
  let mrs := Nat.iter (S j) shr_1 (Build_shr_record M false false) in
  let m1 := round_nearest_even (shr_m mrs) (loc_of_shr_record mrs) in
  let P := 2 ^ (Z.of_nat j + 1) in
  shr_m mrs = M / P /\
  M / P <= m1 <= M / P + 1 /\
  - P <= 2 * (M - m1 * P) <= P /\
  (M mod P = 0 -> m1 = M / P).
Proof.
  intros HM. pose proof (shr_iter_exact M j HM) as H. cbv zeta in H |- *.
  destruct (Nat.iter (S j) shr_1 _) as [m r s]. cbn [shr_m shr_r shr_s] in *.
  destruct H as [Hm (t & Ht & HMeq & Hs)].
  rewrite (pow2_add (Z.of_nat j) 1) in * by lia. change (2 ^ 1) with 2 in *.
  pose proof (pow2_pos (Z.of_nat j) ltac:(lia)) as HP.
  set (P := 2 ^ Z.of_nat j) in *.
  assert (m = M / (P * 2)) as Hq.
  { apply Z.div_unique with ((if r then P else 0) + t); destruct r; lia. }
  assert (M mod (P * 2) = (if r then P else 0) + t) as Hr.
  { symmetry. apply Z.mod_unique with m; destruct r; lia. }
  rewrite <- Hq, Hr. split; [done|].
  assert (s = false -> t = 0) as Hs0.
  { intros ->. destruct (Z.lt_trichotomy 0 t) as [Hc|[|]]; [|lia|lia].
    apply Hs in Hc. discriminate. }
  assert (s = true -> 0 < t) as Hs1 by apply Hs.
  destruct r, s; cbn [loc_of_shr_record round_nearest_even];
    try specialize (Hs0 eq_refl); try specialize (Hs1 eq_refl);
    try destruct (Z.even m); repeat split; try lia.
Qed.

Lemma fexp_eq x : fexp prec emax x = Z.max (x - 53) (-1074).
Proof. reflexivity. Qed.

Lemma shr_nonpos mrs e n : n <= 0 -> shr mrs e n = (mrs, e).
Proof. intros Hn. destruct n; [reflexivity|lia|reflexivity]. Qed.

Lemma shr_pos mrs e n :
  0 < n -> shr mrs e n = (Nat.iter (Z.to_nat n) shr_1 mrs, e + n).
Proof.
  intros Hn. destruct n as [|p|p]; [lia| |lia].
  cbn [shr]. by rewrite iter_pos_nat, Z2Nat.inj_pos.
Qed.

(** A mantissa that already sits at its exponent is returned unchanged. *)
Lemma binary_round_aux_fits s m e :
  fexp prec emax (Zpos (digits2_pos m) + e) <= e -> e <= 971 ->
  binary_round_aux prec emax s (Zpos m) e loc_Exact = S754_finite s m e.
Proof.
  intros Hfit He. unfold binary_round_aux, shr_fexp. cbn [Zdigits2 shr_record_of_loc].
  rewrite shr_nonpos by lia. cbn [shr_m loc_of_shr_record round_nearest_even].
  cbn [Zdigits2 shr_record_of_loc]. rewrite shr_nonpos by lia. cbn [shr_m].
  change (emax - prec) with 971. by rewrite (proj2 (Z.leb_le e 971)).
Qed.

(** A mantissa with more than 53 digits, in the normal range, is shifted to
    53 digits and rounded; a carry out of the rounding moves the exponent up
    by one. *)
Lemma binary_round_aux_shift s M e :
  let d := Zpos (digits2_pos M) in
  let n := d - 53 in
  let P := 2 ^ n in
  53 < d -> -1074 <= e + n -> e + n + 1 <= 971 ->
  exists m1 m2 e2,
    binary_round_aux prec emax s (Zpos M) e loc_Exact = S754_finite s m2 e2 /\
    Zpos M / P <= m1 <= Zpos M / P + 1 /\
    - P <= 2 * (Zpos M - m1 * P) <= P /\
    (Zpos M mod P = 0 -> m1 = Zpos M / P) /\
    ((e2 = e + n /\ Zpos m2 = m1) \/ (e2 = e + n + 1 /\ 2 * Zpos m2 = m1 /\ m1 = 2 ^ 53)).
Proof.
  intros d n P Hd Hlo Hhi.
  pose proof (digits2_pos_bounds M) as [HMlo HMhi]. fold d in HMlo, HMhi.
  assert (Z.of_nat (Z.to_nat (n - 1)) + 1 = n) as Hj by lia.
  pose proof (round_shift_exact (Zpos M) (Z.to_nat (n - 1)) ltac:(lia)) as Hr.
  cbv zeta in Hr. rewrite Hj in Hr. fold P in Hr.
  replace (S (Z.to_nat (n - 1))) with (Z.to_nat n) in Hr by lia.
  destruct Hr as (Hq & Hm1 & Herr & Hex).
  set (mrs := Nat.iter (Z.to_nat n) shr_1 (Build_shr_record (Zpos M) false false)) in *.
  set (m1 := round_nearest_even (shr_m mrs) (loc_of_shr_record mrs)) in *.
  assert (0 < P) as HP by (apply pow2_pos; lia).
  assert (2 ^ d = 2 ^ 53 * P) as Hd53.
  { unfold P. rewrite <- pow2_add by lia. f_equal. lia. }
  assert (2 ^ (d - 1) = 2 ^ 52 * P) as Hd52.
  { unfold P. rewrite <- pow2_add by lia. f_equal. lia. }
  assert (2 ^ 52 <= Zpos M / P < 2 ^ 53) as [Hqlo Hqhi].
  { split.
    - apply Z.div_le_lower_bound; lia.
    - apply Z.div_lt_upper_bound; lia. }
  assert (shr_fexp prec emax (Zpos M) e loc_Exact = (mrs, e + n)) as Hs1.
  { unfold shr_fexp. cbn [Zdigits2 shr_record_of_loc]. fold d.
    rewrite fexp_eq, Z.max_l by lia.
    replace (d + e - 53 - e) with n by lia. by rewrite shr_pos by lia. }
  unfold binary_round_aux. rewrite Hs1. fold m1.
  destruct (Z.eq_dec m1 (2 ^ 53)) as [Hc|Hc].
  - exists m1, (Z.to_pos (2 ^ 52)), (e + n + 1).
    split; [|repeat split; try lia; right; rewrite Hc; done].
    rewrite Hc. unfold shr_fexp.
    change (Zdigits2 (2 ^ 53)) with 54. rewrite fexp_eq, Z.max_l by lia.
    replace (54 + (e + n) - 53 - (e + n)) with 1 by lia.
    rewrite shr_pos by lia. change (Z.to_nat 1) with 1%nat. cbn [Nat.iter shr_record_of_loc].
    rewrite shr_1_spec by lia. cbn [shr_m].
    change (2 ^ 53 / 2) with (Zpos (Z.to_pos (2 ^ 52))).
    change (emax - prec) with 971.
    rewrite (proj2 (Z.leb_le (e + n + 1) 971)) by lia. done.
  - destruct m1 as [|m1p|m1p] eqn:Em1; [lia| |lia].
    exists (Zpos m1p), m1p, (e + n).
    split; [|repeat split; try lia; left; done].
    unfold shr_fexp. cbn [Zdigits2 shr_record_of_loc].
    rewrite (digits2_pos_unique m1p 53) by (change (53 - 1) with 52; lia).
    rewrite fexp_eq, Z.max_l by lia.
    rewrite shr_nonpos by lia. cbn [shr_m].
    change (emax - prec) with 971.
    rewrite (proj2 (Z.leb_le (e + n) 971)) by lia. done.
Qed.

(** [binary_round] on a positive mantissa, with values counted in units of
    [2^-1074]: the result is within half a unit of the last place of the
    exact value, is exact when no digit has to be dropped, and does not
    cross a multiple of the unit in the last place. *)
Lemma binary_round_spec s M e :
  let d := Zpos (digits2_pos M) in
  let e' := fexp prec emax (d + e) in
  -1074 <= e -> e' + 1 <= 971 ->
  exists m2 e2,
    binary_round prec emax s M e = S754_finite s m2 e2 /\
    -1074 <= e2 /\
    2 * Z.abs (Zpos m2 * 2 ^ (e2 + 1074) - Zpos M * 2 ^ (e + 1074)) <= 2 ^ (e' + 1074) /\
    (e' <= e -> Zpos m2 * 2 ^ (e2 + 1074) = Zpos M * 2 ^ (e + 1074)) /\
    (forall C, Zpos M * 2 ^ (e + 1074) <= C * 2 ^ (e' + 1074) ->
               Zpos m2 * 2 ^ (e2 + 1074) <= C * 2 ^ (e' + 1074)) /\
    (e2 = e' \/ (e2 = e' + 1 /\ Zpos m2 = 2 ^ 52)).
Proof.
  intros d e' He Hhi.
  assert (-1074 <= e') as He' by (unfold e'; rewrite fexp_eq; lia).
  assert (0 < 2 ^ (e' + 1074)) as HPe' by (apply pow2_pos; lia).
  unfold binary_round. fold d e'.
  destruct (Z.lt_trichotomy e' e) as [Hlt|[Heq|Hgt]].
  - (* the mantissa is shifted left, nothing is lost *)
    unfold shl_align. destruct (e' - e) as [|p|p] eqn:Ep; [lia|lia|].
    assert (Zpos p = e - e') as Hp by lia.
    exists (Pos.iter xO M p), e'.
    assert (Zpos (Pos.iter xO M p) * 2 ^ (e' + 1074) = Zpos M * 2 ^ (e + 1074)) as Hval.
    { rewrite pos_iter_xO, Hp, <- Z.mul_assoc, <- pow2_add by lia. do 2 f_equal. lia. }
    rewrite binary_round_aux_fits.
    + rewrite Hval, Z.sub_diag. simpl Z.abs. repeat split; try lia; try done.
    + rewrite digits2_pos_shift, Hp. fold d.
      replace (d + (e - e') + e') with (d + e) by lia. fold e'. lia.
    + lia.
  - (* the mantissa already sits at its exponent *)
    unfold shl_align. rewrite Heq, Z.sub_diag.
    exists M, e. rewrite binary_round_aux_fits by (fold d; fold e'; lia).
    rewrite Z.sub_diag. simpl Z.abs. rewrite <- Heq. repeat split; try lia; try done.
  - (* digits are dropped: shift right and round *)
    unfold shl_align. destruct (e' - e) as [|p|p] eqn:Ep; [lia| |lia].
    assert (e' = d + e - 53) as He'd by (unfold e' in *; rewrite fexp_eq in *; lia).
    destruct (binary_round_aux_shift s M e) as (m1 & m2 & e2 & Hres & Hq & Herr & Hex & Hcase);
      fold d; try lia.
    fold d in Hres, Hq, Herr, Hex, Hcase.
    replace (e + (d - 53)) with e' in Hcase by lia.
    set (P := 2 ^ (d - 53)) in *.
    assert (0 < P) as HP by (apply pow2_pos; lia).
    assert (2 ^ (e' + 1074) = P * 2 ^ (e + 1074)) as Hpe.
    { unfold P. rewrite <- pow2_add by lia. f_equal. lia. }
    assert (0 < 2 ^ (e + 1074)) as HPe by (apply pow2_pos; lia).
    assert (Zpos m2 * 2 ^ (e2 + 1074) = m1 * 2 ^ (e' + 1074)) as Hval.
    { destruct Hcase as [[-> ->]|(-> & <- & _)]; [done|].
      replace (e' + 1 + 1074) with (1 + (e' + 1074)) by lia.
      rewrite pow2_add by lia. change (2 ^ 1) with 2. lia. }
    exists m2, e2. rewrite Hres, Hval, Hpe.
    set (Q := 2 ^ (e + 1074)) in *.
    split; [done|]. split; [lia|]. split; [|split; [lia|split]].
    + replace (m1 * (P * Q) - Zpos M * Q) with ((m1 * P - Zpos M) * Q) by lia.
      rewrite Z.abs_mul, (Z.abs_eq Q) by lia.
      assert (2 * Z.abs (m1 * P - Zpos M) <= P) by lia. nia.
    + intros C HC.
      assert (Zpos M <= C * P) as HMC by nia.
      assert (m1 <= C); [|nia].
      destruct (Z.le_gt_cases m1 C) as [|Hgt']; [done|].
      assert (Zpos M / P <= C) by (apply Z.div_le_upper_bound; lia).
      assert (Zpos M / P = C) as HqC by lia.
      assert (C * P <= Zpos M).
      { rewrite <- HqC. rewrite Z.mul_comm. apply Z.mul_div_le. lia. }
      assert (Zpos M mod P = 0) as Hmod.
      { replace (Zpos M) with (C * P) by lia. apply Z.mod_mul. lia. }
      specialize (Hex Hmod). lia.
    + destruct Hcase as [[-> _]|(-> & H2 & Hc)]; [by left|right].
      split; [done|]. rewrite Hc in H2. change (2 ^ 53) with (2 * 2 ^ 52) in H2. lia.
Qed.

Lemma unit_den_pos : 0 < unit_den.
Proof. done. Qed.

Lemma valid_finite_bounds s m e :
  valid (S754_finite s m e) = true ->
  -1074 <= e <= 971 /\ Zpos m < 2 ^ 53 /\ (-1074 < e -> 2 ^ 52 <= Zpos m).
Proof.
  unfold valid, valid_binary, bounded, canonical_mantissa.
  rewrite andb_true_iff, Z.eqb_eq, Z.leb_le, fexp_eq. change (emax - prec) with 971.
  intros [Hc He]. pose proof (digits2_pos_bounds m) as [Hlo Hhi].
  set (d := Zpos (digits2_pos m)) in *.
  split; [lia|]. split.
  - assert (2 ^ d <= 2 ^ 53) by (apply pow2_le; lia). lia.
  - intros Hn. assert (d = 53) as Hd by lia. rewrite Hd in Hlo. exact Hlo.
Qed.

(** Between valid numbers the larger exponent is the larger number. *)
Lemma valid_exponent_order s1 m1 e1 s2 m2 e2 :
  valid (S754_finite s1 m1 e1) = true -> valid (S754_finite s2 m2 e2) = true ->
  e1 < e2 -> Zpos m1 * 2 ^ (e1 + 1074) < Zpos m2 * 2 ^ (e2 + 1074).
Proof.
  intros (He1 & Hm1 & _)%valid_finite_bounds (He2 & _ & Hm2)%valid_finite_bounds Hlt.
  specialize (Hm2 ltac:(lia)).
  replace (e2 + 1074) with ((e2 - e1 - 1) + (1 + (e1 + 1074))) by lia.
  rewrite (pow2_add (e2 - e1 - 1)), (pow2_add 1) by lia. change (2 ^ 1) with 2.
  pose proof (pow2_pos (e1 + 1074) ltac:(lia)).
  pose proof (pow2_pos (e2 - e1 - 1) ltac:(lia)).
  change (2 ^ 53) with (2 * 2 ^ 52) in Hm1.
  set (A := 2 ^ (e1 + 1074)) in *. set (B := 2 ^ (e2 - e1 - 1)) in *.
  set (T := 2 ^ 52) in *.
  assert (Zpos m1 * A < 2 * T * A) by nia.
  assert (T * (B * (2 * A)) <= Zpos m2 * (B * (2 * A))) by nia.
  assert (2 * T * A <= T * (B * (2 * A))) by nia.
  lia.
Qed.

Lemma compare_scale a b c : 0 < c -> (a * c ?= b * c) = (a ?= b).
Proof. intros Hc. symmetry. apply Zmult_compare_compat_r. lia. Qed.

(** On valid finite numbers the comparison of the runtime is the order of
    the values. *)
Lemma SFcompare_units x y :
  valid x = true -> valid y = true -> is_finite x = true -> is_finite y = true ->
  SFcompare x y = Some (units x ?= units y).
Proof.
  intros Hx Hy Fx Fy.
  destruct x as [sx| |  |sx mx ex], y as [sy| | |sy my ey]; try discriminate;
    cbn [SFcompare units].
  - done.
  - pose proof (valid_finite_bounds _ _ _ Hy) as (He & _).
    pose proof (pow2_pos (ey + 1074) ltac:(lia)).
    destruct sy; cbn [cond_Zopp]; f_equal; symmetry;
      [apply Z.compare_gt_iff|apply Z.compare_lt_iff]; lia.
  - pose proof (valid_finite_bounds _ _ _ Hx) as (He & _).
    pose proof (pow2_pos (ex + 1074) ltac:(lia)).
    destruct sx; cbn [cond_Zopp]; f_equal; symmetry;
      [apply Z.compare_lt_iff|apply Z.compare_gt_iff]; lia.
  - pose proof (valid_finite_bounds _ _ _ Hx) as (Hex & _).
    pose proof (valid_finite_bounds _ _ _ Hy) as (Hey & _).
    pose proof (pow2_pos (ex + 1074) ltac:(lia)) as HPx.
    pose proof (pow2_pos (ey + 1074) ltac:(lia)) as HPy.
    f_equal.
    assert (ex = ey -> (Zpos mx * 2 ^ (ex + 1074) ?= Zpos my * 2 ^ (ey + 1074))
                       = Pos.compare_cont Eq mx my) as Hsame.
    { intros ->. by rewrite compare_scale. }
    destruct sx, sy; cbn [cond_Zopp]; symmetry.
    + destruct (Z.compare_spec ex ey) as [Heq|Hlt|Hgt].
      * rewrite Z.compare_opp, <- Heq, compare_scale by done.
        rewrite (Z.compare_antisym (Zpos mx) (Zpos my)). done.
      * apply Z.compare_gt_iff.
        pose proof (valid_exponent_order _ _ _ _ _ _ Hx Hy Hlt). lia.
      * apply Z.compare_lt_iff.
        pose proof (valid_exponent_order _ _ _ _ _ _ Hy Hx ltac:(lia)). lia.
    + apply Z.compare_lt_iff. lia.
    + apply Z.compare_gt_iff. lia.
    + destruct (Z.compare_spec ex ey) as [Heq|Hlt|Hgt].
      * by apply Hsame.
      * apply Z.compare_lt_iff. by apply (valid_exponent_order false _ _ false).
      * apply Z.compare_gt_iff.
        pose proof (valid_exponent_order _ _ _ _ _ _ Hy Hx ltac:(lia)). lia.
Qed.

Lemma num_le_units x y :
  valid x = true -> valid y = true -> is_finite x = true -> is_finite y = true ->
  num_le x y = (units x <=? units y).
Proof.
  intros. unfold num_le, SFleb, Z.leb. rewrite SFcompare_units by done.
  by destruct (units x ?= units y).
Qed.

Lemma num_lt_units x y :
  valid x = true -> valid y = true -> is_finite x = true -> is_finite y = true ->
  num_lt x y = (units x <? units y).
Proof.
  intros. unfold num_lt, SFltb, Z.ltb. rewrite SFcompare_units by done.
  by destruct (units x ?= units y).
Qed.

Lemma num_100_eq : num_of_Z 100 = S754_finite false 7036874417766400 (-46).
Proof. reflexivity. Qed.

Lemma units_100 : units (num_of_Z 100) = 100 * unit_den.
Proof. reflexivity. Qed.

(** A number between 0 and 100 is a zero or a positive finite number. *)
Lemma percent_cases m :
  num_le (S754_zero false) m = true -> num_le m (num_of_Z 100) = true ->
  (exists s, m = S754_zero s) \/ (exists mm me, m = S754_finite false mm me).
Proof.
  intros H0 H100. destruct m as [s|s| |s mm me]; [eauto|by destruct s|done|].
  destruct s; [discriminate|eauto].
Qed.

(** [100 - m] for [m] between 0 and 100: the difference lies between 0 and
    100 and is off the exact difference by at most [2^-47]. *)
Lemma sub_100_spec m :
  valid m = true ->
  num_le (S754_zero false) m = true -> num_le m (num_of_Z 100) = true ->
  let r := num_sub (num_of_Z 100) (parseFloat (JsNumber m)) in
  (r = S754_zero false \/ exists m2 e2, r = S754_finite false m2 e2 /\ -1074 <= e2 <= -46) /\
  0 <= units r <= 100 * unit_den /\
  2 ^ 47 * Z.abs (units r - (100 * unit_den - units m)) <= unit_den.
Proof.
  intros Hv H0 H100.
  destruct (percent_cases m H0 H100) as [[s ->]|(mm & me & ->)].
  - cbn [parseFloat]. cbv zeta.
    change (num_sub (num_of_Z 100) (S754_zero false)) with (num_of_Z 100).
    rewrite num_100_eq. split; [|split].
    + right. eexists _, _. split; [reflexivity|lia].
    + vm_compute. split; discriminate.
    + vm_compute. discriminate.
  - cbn [parseFloat]. cbv zeta.
    pose proof (valid_finite_bounds _ _ _ Hv) as (Hme & Hmm & _).
    assert (units (S754_finite false mm me) <= 100 * unit_den) as Hle.
    { rewrite num_le_units in H100 by done. apply Z.leb_le in H100.
      by rewrite units_100 in H100. }
    cbn [units cond_Zopp] in Hle |- *.
    assert (me <= -46) as Hme46.
    { unfold num_le, SFleb in H100. rewrite num_100_eq in H100. cbn [SFcompare] in H100.
      destruct (Z.compare_spec me (-46)); [lia|lia|discriminate]. }
    pose proof (pow2_pos (me + 1074) ltac:(lia)) as HA.
    set (A := 2 ^ (me + 1074)) in *.
    (* the mantissa of 100 at the exponent of m *)
    set (X := 7036874417766400 * 2 ^ (-46 - me)).
    assert (X * A = 100 * unit_den) as HX.
    { unfold X, A. rewrite <- Z.mul_assoc, <- pow2_add by lia.
      replace (-46 - me + (me + 1074)) with 1028 by lia. reflexivity. }
    assert (num_sub (num_of_Z 100) (S754_finite false mm me)
            = binary_normalize prec emax (X - Zpos mm) me false) as Hsub.
    { rewrite num_100_eq. unfold num_sub, SFsub. rewrite Z.min_r by lia.
      cbn [cond_Zopp]. f_equal. f_equal.
      - unfold shl_align, X. destruct (me - -46) as [|p|p] eqn:Ep; [|lia|].
        + replace (-46 - me) with 0 by lia. reflexivity.
        + cbn [fst]. rewrite pos_iter_xO. do 2 f_equal. lia.
      - unfold shl_align. by rewrite Z.sub_diag. }
    rewrite Hsub.
    assert (0 <= X - Zpos mm) as HM by nia.
    destruct (X - Zpos mm) as [|M|M] eqn:EM; [| |lia].
    + (* m is exactly 100 *)
      cbn [binary_normalize units]. split; [by left|].
      assert (Zpos mm * A = 100 * unit_den) by nia.
      replace (0 - (100 * unit_den - Zpos mm * A)) with 0 by lia.
      vm_compute. repeat split; discriminate.
    + cbn [binary_normalize].
      pose proof (digits2_pos_bounds M) as [HMlo HMhi].
      set (d := Zpos (digits2_pos M)) in *.
      assert (Zpos M * A <= 100 * unit_den) as HVle by nia.
      assert (d + me <= 7) as Hdm.
      { destruct (Z.le_gt_cases (d + me) 7) as [|Hgt]; [done|exfalso].
        assert (2 ^ (7 - me) <= 2 ^ (d - 1)) by (apply pow2_le; lia).
        assert (2 ^ (7 - me) * A = 128 * unit_den) as H128.
        { unfold A. rewrite <- pow2_add by lia.
          replace (7 - me + (me + 1074)) with 1081 by lia. reflexivity. }
        assert (0 < unit_den) by done. nia. }
      destruct (binary_round_spec false M me) as (m2 & e2 & Hres & He2 & Herr & _ & Hmono & Hcase);
        [lia|rewrite fexp_eq; fold d; lia|].
      fold d in Herr, Hmono, Hcase. fold A in Herr, Hmono.
      set (e' := fexp prec emax (d + me)) in *.
      assert (-1074 <= e' <= -46) as He' by (unfold e'; rewrite fexp_eq; lia).
      assert (2 ^ (-46 - e') * 2 ^ (e' + 1074) = 2 ^ 1028) as Hpe.
      { rewrite <- pow2_add by lia. f_equal. lia. }
      specialize (Hmono (7036874417766400 * 2 ^ (-46 - e'))).
      rewrite <- Z.mul_assoc, Hpe in Hmono.
      change (7036874417766400 * 2 ^ 1028) with (100 * unit_den) in Hmono.
      specialize (Hmono HVle).
      rewrite Hres. cbn [units cond_Zopp].
      pose proof (pow2_pos (e2 + 1074) ltac:(lia)) as HB.
      assert (e2 <= -46) as He2hi.
      { destruct Hcase as [->|[-> Hm2]]; [lia|].
        destruct (Z.le_gt_cases (e' + 1) (-46)) as [|Hgt]; [done|exfalso].
        assert (e' = -46) as He46 by lia. rewrite Hm2, He46 in Hmono.
        vm_compute in Hmono. by apply Hmono. }
      split; [right; eexists _, _; split; [reflexivity|lia]|].
      split; [lia|].
      replace (100 * unit_den - Zpos mm * A) with (Zpos M * A) by nia.
      assert (2 ^ (e' + 1074) <= 2 ^ 1028) by (apply pow2_le; lia).
      change unit_den with (2 ^ 46 * 2 ^ 1028).
      change (2 ^ 47) with (2 ^ 46 * 2).
      set (D := Z.abs _) in *.
      generalize dependent (2 ^ 1028). generalize dependent (2 ^ (e' + 1074)).
      intros; nia.
Qed.

(** *** Quotients and products of positive numbers *)

Lemma shr_record_of_loc_m m l : shr_m (shr_record_of_loc m l) = m.
Proof. by destruct l as [|[]]. Qed.

Lemma round_nearest_even_bounds m l : m <= round_nearest_even m l <= m + 1.
Proof. destruct l as [|[]]; cbn [round_nearest_even]; try destruct (Z.even m); lia. Qed.

(** Shifting a positive mantissa to its exponent leaves a positive mantissa
    as long as the value is not below the smallest number. *)
Lemma shr_fexp_positive m e l :
  0 < m -> -1073 <= Zdigits2 m + e ->
  let '(mrs, e1) := shr_fexp prec emax m e l in
  0 < shr_m mrs /\ e <= e1 /\ -1074 <= e1.
Proof.
  intros Hm Hd. destruct m as [|p|p]; [lia| |lia]. cbn [Zdigits2] in Hd.
  unfold shr_fexp. cbn [Zdigits2].
  pose proof (digits2_pos_bounds p) as [Hlo Hhi].
  set (d := Zpos (digits2_pos p)) in *. rewrite fexp_eq.
  destruct (Z.le_gt_cases (Z.max (d + e - 53) (-1074) - e) 0) as [Hn|Hn].
  - rewrite shr_nonpos by done. rewrite shr_record_of_loc_m. lia.
  - rewrite shr_pos by done. rewrite shr_iter_m by (rewrite shr_record_of_loc_m; lia).
    rewrite shr_record_of_loc_m, Z2Nat.id by lia.
    set (n := Z.max (d + e - 53) (-1074) - e) in *.
    split; [|lia].
    assert (2 ^ n <= 2 ^ (d - 1)) by (apply pow2_le; lia).
    apply Z.div_str_pos. split; [apply pow2_pos|]; lia.
Qed.


(** A whole number below [2^53] is held exactly. *)
Lemma num_of_Z_small k :
  0 < k < 2 ^ 53 ->
  exists m e, num_of_Z k = S754_finite false m e /\ -53 <= e <= 1 /\
              Zpos m * 2 ^ (e + 1074) = k * unit_den /\
              1 <= Zpos (digits2_pos m) + e <= 53.
Proof.
  intros [Hk0 Hk]. destruct k as [|K|K]; [lia| |lia].
  unfold num_of_Z. cbn [binary_normalize].
  pose proof (digits2_pos_bounds K) as [HKlo HKhi].
  set (d := Zpos (digits2_pos K)) in *.
  assert (d <= 53) as Hd.
  { destruct (Z.le_gt_cases d 53) as [|Hgt]; [done|exfalso].
    assert (2 ^ 53 <= 2 ^ (d - 1)) by (apply pow2_le; lia). lia. }
  destruct (binary_round_spec false K 0) as (m & e & Hres & He & _ & Hex & _ & Hcase);
    [lia|rewrite fexp_eq; fold d; lia|].
  fold d in Hex, Hcase. rewrite fexp_eq in Hex, Hcase.
  rewrite Z.max_l in Hex, Hcase by lia. specialize (Hex ltac:(lia)).
  exists m, e. split; [done|]. split; [lia|]. split; [exact Hex|].
  pose proof (digits2_pos_bounds m) as [Hmlo Hmhi].
  set (dm := Zpos (digits2_pos m)) in *.
  change (2 ^ (0 + 1074)) with unit_den in Hex.
  assert (unit_den <= Zpos m * 2 ^ (e + 1074) < 2 ^ 53 * unit_den) as [Hv1 Hv2].
  { rewrite Hex. pose proof unit_den_pos. nia. }
  pose proof (pow2_pos (e + 1074) ltac:(lia)) as HE.
  split.
  - destruct (Z.le_gt_cases 1 (dm + e)) as [|Hlt]; [done|exfalso].
    assert (2 ^ dm * 2 ^ (e + 1074) <= 2 ^ 1074).
    { rewrite <- pow2_add by lia. apply pow2_le. lia. }
    change (2 ^ 1074) with unit_den in *. nia.
  - destruct (Z.le_gt_cases (dm + e) 53) as [|Hgt]; [done|exfalso].
    assert (2 ^ (53 + 1074) <= 2 ^ (dm - 1) * 2 ^ (e + 1074)).
    { rewrite <- pow2_add by lia. apply pow2_le. lia. }
    change (2 ^ (53 + 1074)) with (2 ^ 53 * unit_den) in *. nia.
Qed.



(** The percentage of a part of the pixels: zero for no pixel, positive for
    some. *)
Lemma percentage_zero total :
  0 < total < 2 ^ 53 ->
  num_mul (num_div (num_of_Z 0) (num_of_Z total)) (num_of_Z 100) = S754_zero false.
Proof.
  intros Ht. destruct (num_of_Z_small total Ht) as (m & e & -> & _). reflexivity.
Qed.


(** ** Decimal strings *)

Lemma digit_char_spec d :
  0 <= d <= 9 -> is_digit (digit_char d) = true /\ digit_value (digit_char d) = d.
Proof.
  intros Hd.
  assert (d = 0 \/ d = 1 \/ d = 2 \/ d = 3 \/ d = 4 \/ d = 5 \/ d = 6 \/ d = 7 \/ d = 8 \/ d = 9)
    as Hc by lia.
  repeat (destruct Hc as [->|Hc]; [by split|]). by subst.
Qed.

Lemma digits_value_snoc ds c : digits_value (ds ++ [c]) = 10 * digits_value ds + digit_value c.
Proof. unfold digits_value. by rewrite fold_left_app. Qed.

Lemma decimal_go_spec fuel n acc :
  fuel <> O -> 0 <= n < 2 ^ Z.of_nat fuel ->
  exists ds, decimal_go fuel n acc = ds ++ acc /\ ds <> [] /\
             Forall (fun c => is_digit c = true) ds /\ digits_value ds = n.
Proof.
  revert n acc. induction fuel as [|k IH]; intros n acc Hf Hn; [done|].
  cbn [decimal_go]. destruct (Z.ltb_spec n 10) as [Hlt|Hge].
  - exists [digit_char n]. destruct (digit_char_spec n ltac:(lia)) as [Hd Hv].
    repeat split; [done|by constructor|]. unfold digits_value. simpl. lia.
  - rewrite Nat2Z.inj_succ, Z.pow_succ_r in Hn by lia.
    assert (k <> O) as Hk. { intros ->. simpl in Hn. lia. }
    destruct (IH (n / 10) (digit_char (n mod 10) :: acc) Hk) as (ds & Heq & Hne & Hall & Hval).
    { Z.to_euclidean_division_equations; lia. }
    destruct (digit_char_spec (n mod 10)) as [Hd Hv].
    { Z.to_euclidean_division_equations; lia. }
    exists (ds ++ [digit_char (n mod 10)]). rewrite Heq, <- app_assoc. repeat split.
    + by destruct ds.
    + apply Forall_app. split; [done|by constructor].
    + rewrite digits_value_snoc, Hval, Hv. Z.to_euclidean_division_equations; lia.
Qed.

Lemma decimal_digits_spec n :
  0 <= n ->
  decimal_digits n <> [] /\ Forall (fun c => is_digit c = true) (decimal_digits n) /\
  digits_value (decimal_digits n) = n.
Proof.
  intros Hn. unfold decimal_digits.
  destruct (decimal_go_spec (S (Z.to_nat (Z.log2 n))) n []) as (ds & Heq & Hne & Hall & Hval).
  - done.
  - split; [done|]. rewrite Nat2Z.inj_succ, Z2Nat.id by apply Z.log2_nonneg.
    destruct (Z.eq_dec n 0) as [->|]; [done|]. apply Z.log2_spec. lia.
  - rewrite Heq, app_nil_r. done.
Qed.

Lemma digits_value_zeros k ds :
  digits_value (repeat "0"%char k ++ ds) = digits_value ds.
Proof.
  unfold digits_value. rewrite fold_left_app. f_equal.
  induction k as [|k IH]; [done|]. simpl. exact IH.
Qed.

Lemma span_digits_all ds rest :
  Forall (fun c => is_digit c = true) ds ->
  match rest with c :: _ => is_digit c = false | [] => True end ->
  span_digits (ds ++ rest) = (ds, rest).
Proof.
  intros Hall Hrest. induction Hall as [|c ds Hc Hall IH].
  - simpl. destruct rest as [|c r]; [done|]. simpl. by rewrite Hrest.
  - simpl. by rewrite Hc, IH.
Qed.

(** The digits [toFixed(2)] writes: some digits, a point and two digits,
    which read back as the number of hundredths. *)
Lemma fixed_digits_2_spec n :
  0 <= n ->
  exists ip d1 d2,
    fixed_digits 2 n = ip ++ "."%char :: [d1; d2] /\ ip <> [] /\
    Forall (fun c => is_digit c = true) (ip ++ [d1; d2]) /\
    digits_value (ip ++ [d1; d2]) = n.
Proof.
  intros Hn. destruct (decimal_digits_spec n Hn) as (Hne & Hall & Hval).
  unfold fixed_digits.
  set (m := if (length (decimal_digits n) <=? 2)%nat
            then repeat "0"%char (2 + 1 - length (decimal_digits n)) ++ decimal_digits n
            else decimal_digits n).
  assert (Forall (fun c => is_digit c = true) m /\ digits_value m = n /\ (3 <= length m)%nat)
    as (Hm & Hmv & Hml).
  { unfold m. destruct (Nat.leb_spec (length (decimal_digits n)) 2) as [Hle|Hgt].
    - repeat split.
      + apply Forall_app. split; [|done]. apply Forall_forall. intros c Hc%list_elem_of_In%repeat_spec. by subst.
      + by rewrite digits_value_zeros.
      + rewrite length_app, repeat_length. lia.
    - repeat split; [done|done|lia]. }
  clearbody m.
  assert (length (drop (length m - 2) m) = 2%nat) as Hdl by (rewrite length_drop; lia).
  destruct (drop (length m - 2) m) as [|d1 [|d2 [|]]] eqn:Ed; try discriminate.
  exists (take (length m - 2) m), d1, d2.
  assert (take (length m - 2) m ++ [d1; d2] = m) as Hsplit.
  { rewrite <- Ed. apply take_drop. }
  repeat split.
  - intros Ht. apply (f_equal length) in Ht. rewrite length_take in Ht. simpl in Ht. lia.
  - by rewrite Hsplit.
  - by rewrite Hsplit.
Qed.

Lemma hundredths_fixed_digits n :
  0 <= n -> hundredths (Str (string_of_list_ascii (fixed_digits 2 n))) = Some n.
Proof.
  intros Hn. destruct (fixed_digits_2_spec n Hn) as (ip & d1 & d2 & Heq & Hne & Hall & Hval).
  unfold hundredths. rewrite list_ascii_of_string_of_list_ascii, Heq.
  apply Forall_app in Hall as [Hip Hfp].
  assert (exists c ip', ip = c :: ip' /\ c <> "-"%char) as (c & ip' & -> & Hc).
  { destruct ip as [|c ip']; [done|]. exists c, ip'. split; [done|].
    intros ->. by inversion Hip. }
  assert (match (c :: ip') ++ "."%char :: [d1; d2] with
          | "-"%char :: cs => (true, cs)
          | cs => (false, cs)
          end = (false, (c :: ip') ++ "."%char :: [d1; d2])) as ->.
  { simpl. destruct c as [[] [] [] [] [] [] [] []]; try done. }
  rewrite span_digits_all by done.
  pose proof (span_digits_all [d1; d2] [] Hfp I) as Hs. rewrite app_nil_r in Hs.
  rewrite Hs, Hval. done.
Qed.

(** ** toFixed(2) on percentages *)

(** The hundredths nearest to a value given in units of [2^-1074]. *)
Lemma nearest_scaled_units m e :
  -1074 <= e <= 0 ->
  nearest_scaled 2 m e = (200 * (Zpos m * 2 ^ (e + 1074)) + unit_den) / (2 * unit_den).
Proof.
  intros He. unfold nearest_scaled. rewrite (Z.max_l (- e) 0), (Z.max_r e 0) by lia.
  change (10 ^ Z.of_nat 2) with 100. change (2 ^ 0) with 1.
  pose proof (pow2_pos (e + 1074) ltac:(lia)) as HA.
  pose proof (pow2_pos (- e) ltac:(lia)) as HB.
  assert (unit_den = 2 ^ (- e) * 2 ^ (e + 1074)) as ->.
  { unfold unit_den. rewrite <- pow2_add by lia. f_equal. lia. }
  set (A := 2 ^ (e + 1074)) in *. set (B := 2 ^ (- e)) in *.
  replace (200 * (Zpos m * A) + B * A) with ((2 * (Zpos m * 100 * 1) + B) * A) by lia.
  replace (2 * (B * A)) with (2 * B * A) by lia.
  rewrite Z.div_mul_cancel_r by lia. done.
Qed.

(** What [toFixed(2)] writes for a number between 0 and 100. *)
Lemma toFixed_2_percent x :
  ((exists s, x = S754_zero s) \/
   (exists m e, x = S754_finite false m e /\ -1074 <= e <= 0)) ->
  units x <= 100 * unit_den ->
  let n := (200 * units x + unit_den) / (2 * unit_den) in
  toFixed 2 x = Str (string_of_list_ascii (fixed_digits 2 n)) /\ 0 <= n <= 10000.
Proof.
  intros [[s ->]|(m & e & -> & He)] Hle; cbv zeta; cbn [units cond_Zopp toFixed] in *.
  - split; [done|]. vm_compute. split; discriminate.
  - pose proof (pow2_pos (e + 1074) ltac:(lia)) as HA.
    pose proof (pow2_pos (- e) ltac:(lia)) as HB.
    assert (magnitude_geb m e (10 ^ 21) = false) as ->.
    { unfold magnitude_geb. rewrite (Z.max_l (- e) 0), (Z.max_r e 0) by lia. apply Z.leb_gt.
      assert (unit_den = 2 ^ (- e) * 2 ^ (e + 1074)) as Hud.
      { unfold unit_den. rewrite <- pow2_add by lia. f_equal. lia. }
      rewrite Hud in Hle. change (2 ^ 0) with 1. change (10 ^ 21) with 1000000000000000000000.
      set (A := 2 ^ (e + 1074)) in *. set (B := 2 ^ (- e)) in *. nia. }
    rewrite nearest_scaled_units by done. split; [done|].
    pose proof unit_den_pos. set (U := Zpos m * 2 ^ (e + 1074)) in *.
    assert (0 < U) by (unfold U; lia).
    split.
    + apply Z.div_pos; lia.
    + apply Z.lt_succ_r, Z.div_lt_upper_bound; lia.
Qed.

Lemma num_0_eq : num_of_Z 0 = S754_zero false.
Proof. reflexivity. Qed.

(** Between 0 and 100 the clamp changes nothing. *)
Lemma clamp_percent r :
  (r = S754_zero false \/ exists m2 e2, r = S754_finite false m2 e2 /\ -1074 <= e2 <= -46) ->
  units r <= 100 * unit_den ->
  clamp r (num_of_Z 0) (num_of_Z 100) = r.
Proof.
  intros [->|(m2 & e2 & -> & He)] Hle; [reflexivity|].
  unfold clamp. rewrite num_0_eq, num_100_eq. cbn [num_max SFltb SFcompare].
  cbn [num_min]. unfold SFltb. cbn [SFcompare].
  destruct (Z.compare_spec (-46) e2) as [Heq|Hlt|Hgt]; [|lia|done].
  subst e2. cbn [units cond_Zopp] in Hle.
  change (100 * unit_den) with (7036874417766400 * 2 ^ (-46 + 1074)) in Hle.
  assert (Zpos m2 <= 7036874417766400) as Hm.
  { pose proof (pow2_pos (-46 + 1074) ltac:(lia)). nia. }
  destruct (Pos.compare_cont Eq 7036874417766400 m2) eqn:Ec; [done| |done].
  change (Pos.compare_cont Eq 7036874417766400 m2) with (7036874417766400 ?= m2)%positive in Ec.
  exfalso. assert (Zpos 7036874417766400 < Zpos m2) by (by apply Pos2Z.pos_lt_pos). lia.
Qed.

(** A valid number between 0 and 100, by shape and by value. *)
Lemma percent_bounds m :
  valid m = true ->
  num_le (num_of_Z 0) m = true -> num_le m (num_of_Z 100) = true ->
  ((exists s, m = S754_zero s) \/
   (exists mm me, m = S754_finite false mm me /\ -1074 <= me <= 0)) /\
  0 <= units m <= 100 * unit_den.
Proof.
  intros Hv H0 H100.
  assert (is_finite m = true) as Hf.
  { destruct (percent_cases m H0 H100) as [[s ->]|(mm & me & ->)]; done. }
  assert (units m <= 100 * unit_den) as Hle.
  { rewrite num_le_units in H100 by done. apply Z.leb_le in H100.
    by rewrite units_100 in H100. }
  destruct (percent_cases m H0 H100) as [[s ->]|(mm & me & ->)].
  - split; [eauto|]. cbn [units]. split; [lia|done].
  - pose proof (valid_finite_bounds _ _ _ Hv) as (Hme & _).
    assert (me <= -46).
    { unfold num_le, SFleb in H100. rewrite num_100_eq in H100. cbn [SFcompare] in H100.
      destruct (Z.compare_spec me (-46)); [lia|lia|discriminate]. }
    split; [right; eexists _, _; split; [done|lia]|].
    split; [|done]. cbn [units cond_Zopp].
    pose proof (pow2_pos (me + 1074) ltac:(lia)). lia.
Qed.

Lemma sub_100_parseFloat m :
  num_sub (num_of_Z 100) (parseFloat (JsNumber m)) = num_sub (num_of_Z 100) m.
Proof. by destruct m as [[]| | |]. Qed.

Lemma units_parseFloat m : units (parseFloat (JsNumber m)) = units m.
Proof. by destruct m as [[]| | |]. Qed.

(** Two roundings to hundredths of values that add up to 100 within
    [2^-47] add up to 100 within one hundredth. *)
Lemma hundredths_sum Ur Um :
  2 ^ 47 * Z.abs (Ur - (100 * unit_den - Um)) <= unit_den ->
  -1 <= (200 * Ur + unit_den) / (2 * unit_den)
        + (200 * Um + unit_den) / (2 * unit_den) - 10000 <= 1.
Proof.
  pose proof unit_den_pos as HH. generalize dependent unit_den. intros H HH Hd.
  change (2 ^ 47) with 140737488355328 in Hd.
  pose proof (Z.mul_div_le (200 * Ur + H) (2 * H) ltac:(lia)).
  pose proof (Z.mul_succ_div_gt (200 * Ur + H) (2 * H) ltac:(lia)).
  pose proof (Z.mul_div_le (200 * Um + H) (2 * H) ltac:(lia)).
  pose proof (Z.mul_succ_div_gt (200 * Um + H) (2 * H) ltac:(lia)).
  set (a := (200 * Ur + H) / (2 * H)) in *.
  set (b := (200 * Um + H) / (2 * H)) in *.
  assert (200 * Z.abs (Ur - (100 * H - Um)) < H) as Hs by lia.
  assert (2 * H * (a + b) < 20003 * H) by lia.
  assert (19997 * H < 2 * H * (a + b)) by lia.
  split; nia.
Qed.

(** *** Signs *)

(** Rounding a positive mantissa whose value is not below the smallest
    number keeps the sign: the result is finite and not zero, or the
    infinity of that sign. *)
Lemma binary_round_aux_signed s mx ex lx :
  0 < mx -> -1073 <= Zdigits2 mx + ex ->
  (exists m e, binary_round_aux prec emax s mx ex lx = S754_finite s m e /\ ex <= e /\ -1074 <= e)
  \/ binary_round_aux prec emax s mx ex lx = S754_infinity s.
Proof.
  intros Hm Hd. unfold binary_round_aux.
  pose proof (shr_fexp_positive mx ex lx Hm Hd) as H1.
  destruct (shr_fexp prec emax mx ex lx) as [mrs1 e1]. destruct H1 as (Hm1 & He1 & He1').
  pose proof (round_nearest_even_bounds (shr_m mrs1) (loc_of_shr_record mrs1)) as Hr.
  set (m1 := round_nearest_even (shr_m mrs1) (loc_of_shr_record mrs1)) in *.
  assert (-1073 <= Zdigits2 m1 + e1) as Hd1.
  { destruct m1 as [|p|p]; [lia| |lia]. cbn [Zdigits2]. lia. }
  pose proof (shr_fexp_positive m1 e1 loc_Exact ltac:(lia) Hd1) as H2.
  destruct (shr_fexp prec emax m1 e1 loc_Exact) as [mrs2 e2]. destruct H2 as (Hm2 & He2 & He2').
  destruct (shr_m mrs2) as [|m|m]; [lia| |lia].
  destruct (e2 <=? emax - prec); [left|by right].
  eexists _, _. split; [done|lia].
Qed.

Lemma binary_round_signed s M e :
  -1074 <= e ->
  (exists m2 e2, binary_round prec emax s M e = S754_finite s m2 e2 /\ -1074 <= e2)
  \/ binary_round prec emax s M e = S754_infinity s.
Proof.
  intros He. unfold binary_round, shl_align.
  set (e' := fexp prec emax (Zpos (digits2_pos M) + e)).
  assert (-1074 <= e') as He' by (unfold e'; rewrite fexp_eq; lia).
  destruct (e' - e) as [|p|p].
  - destruct (binary_round_aux_signed s (Zpos M) e loc_Exact) as [(m & e2 & H & _ & H2)|H];
      [lia|cbn [Zdigits2]; lia| |by right].
    left. by exists m, e2.
  - destruct (binary_round_aux_signed s (Zpos M) e loc_Exact) as [(m & e2 & H & _ & H2)|H];
      [lia|cbn [Zdigits2]; lia| |by right].
    left. by exists m, e2.
  - destruct (binary_round_aux_signed s (Zpos (Pos.iter xO M p)) e' loc_Exact)
      as [(m & e2 & H & _ & H2)|H]; [lia|cbn [Zdigits2]; lia| |by right].
    left. by exists m, e2.
Qed.

(** A mantissa brought to a smaller exponent. *)
Lemma shl_align_fst m e ez :
  ez <= e -> Zpos (fst (shl_align m e ez)) = Zpos m * 2 ^ (e - ez).
Proof.
  intros H. unfold shl_align. destruct (ez - e) as [|p|p] eqn:E; cbn [fst].
  - replace (e - ez) with 0 by lia. lia.
  - lia.
  - rewrite pos_iter_xO. do 2 f_equal. lia.
Qed.

(** [100 - m] for a finite [m]: zero when [m] is 100, else a number or an
    infinity that is negative exactly when [m] is above 100. *)
Lemma num_sub_100_shape m :
  valid m = true -> is_finite m = true ->
  let r := num_sub (num_of_Z 100) (parseFloat (JsNumber m)) in
  (r = S754_zero false /\ units m = 100 * unit_den) \/
  (exists s m2 e2, r = S754_finite s m2 e2 /\ -1074 <= e2 /\
                   (s = true <-> 100 * unit_den < units m)) \/
  (exists s, r = S754_infinity s /\ (s = true <-> 100 * unit_den < units m)).
Proof.
  intros Hv Hf. destruct m as [s0| | |s mm me]; try discriminate; cbv zeta.
  - cbn [parseFloat]. change (num_sub (num_of_Z 100) (S754_zero false)) with (num_of_Z 100).
    rewrite num_100_eq. right; left. eexists false, _, _. split; [reflexivity|].
    split; [lia|]. cbn [units]. split; [done|]. pose proof unit_den_pos. lia.
  - cbn [parseFloat].
    pose proof (valid_finite_bounds _ _ _ Hv) as (Hme & _ & _).
    rewrite num_100_eq. unfold num_sub, SFsub.
    set (ez := Z.min (-46) me).
    rewrite !shl_align_fst by (unfold ez; lia).
    set (X := 7036874417766400 * 2 ^ (-46 - ez)).
    set (Y := Zpos mm * 2 ^ (me - ez)).
    pose proof (pow2_pos (ez + 1074) ltac:(unfold ez; lia)) as HE.
    assert (X * 2 ^ (ez + 1074) = 100 * unit_den) as HX.
    { unfold X. rewrite <- Z.mul_assoc, <- pow2_add by (unfold ez; lia).
      replace (-46 - ez + (ez + 1074)) with 1028 by lia. reflexivity. }
    assert (Y * 2 ^ (ez + 1074) = Zpos mm * 2 ^ (me + 1074)) as HY.
    { unfold Y. rewrite <- Z.mul_assoc, <- pow2_add by (unfold ez; lia).
      do 2 f_equal. lia. }
    assert (0 < Y) as HYpos.
    { unfold Y. pose proof (pow2_pos (me - ez) ltac:(unfold ez; lia)). lia. }
    cbn [cond_Zopp units]. set (E := 2 ^ (ez + 1074)) in *.
    set (V := Zpos mm * 2 ^ (me + 1074)) in *.
    destruct (X - cond_Zopp s Y) as [|M|M] eqn:EM; cbn [binary_normalize].
    + left. split; [done|]. destruct s; cbn [cond_Zopp] in *; nia.
    + assert (~ 100 * unit_den < cond_Zopp s V).
      { destruct s; cbn [cond_Zopp] in *; nia. }
      destruct (binary_round_signed false M ez) as [(m2 & e2 & -> & He2)| ->];
        [unfold ez; lia| |].
      * right; left. exists false, m2, e2. split; [done|]. split; [done|]. split; [done|tauto].
      * right; right. exists false. split; [done|]. split; [done|tauto].
    + assert (100 * unit_den < cond_Zopp s V).
      { destruct s; cbn [cond_Zopp] in *; nia. }
      destruct (binary_round_signed true M ez) as [(m2 & e2 & -> & He2)| ->];
        [unfold ez; lia| |].
      * right; left. exists true, m2, e2. split; [done|]. split; [done|]. split; done.
      * right; right. exists true. split; [done|]. split; done.
Qed.

(** *** toFixed(2) on every number *)

Lemma magnitude_geb_units m e bound :
  -1074 <= e ->
  magnitude_geb m e bound = (bound * unit_den <=? Zpos m * 2 ^ (e + 1074)).
Proof.
  intros He. unfold magnitude_geb.
  destruct (Z.le_gt_cases e 0) as [Hle|Hgt].
  - rewrite (Z.max_l (- e) 0), (Z.max_r e 0) by lia. change (2 ^ 0) with 1.
    pose proof (pow2_pos (e + 1074) ltac:(lia)) as HA.
    pose proof (pow2_pos (- e) ltac:(lia)) as HB.
    assert (unit_den = 2 ^ (- e) * 2 ^ (e + 1074)) as ->.
    { unfold unit_den. rewrite <- pow2_add by lia. f_equal. lia. }
    set (A := 2 ^ (e + 1074)) in *. set (B := 2 ^ (- e)) in *.
    destruct (Z.leb_spec (bound * B) (Zpos m * 1)), (Z.leb_spec (bound * (B * A)) (Zpos m * A));
      try done; nia.
  - rewrite (Z.max_r (- e) 0), (Z.max_l e 0) by lia. change (2 ^ 0) with 1.
    rewrite (pow2_add e 1074) by lia. fold unit_den.
    pose proof (pow2_pos e ltac:(lia)) as HA. pose proof unit_den_pos as HU.
    set (A := 2 ^ e) in *.
    destruct (Z.leb_spec (bound * 1) (Zpos m * A)), (Z.leb_spec (bound * unit_den) (Zpos m * (A * unit_den)));
      try done; nia.
Qed.

(** The hundredths of a value given in units of [2^-1074], also for a
    whole number. *)
Lemma nearest_scaled_units_all m e :
  -1074 <= e ->
  nearest_scaled 2 m e = (200 * (Zpos m * 2 ^ (e + 1074)) + unit_den) / (2 * unit_den).
Proof.
  intros He. destruct (Z.le_gt_cases e 0) as [Hle|Hgt]; [by apply nearest_scaled_units|].
  unfold nearest_scaled. rewrite (Z.max_r (- e) 0), (Z.max_l e 0) by lia.
  change (10 ^ Z.of_nat 2) with 100. change (2 ^ 0) with 1.
  rewrite (pow2_add e 1074) by lia. fold unit_den.
  pose proof (pow2_pos e ltac:(lia)) as HA. pose proof unit_den_pos as HU.
  set (A := 2 ^ e) in *.
  replace (200 * (Zpos m * (A * unit_den)) + unit_den)
    with ((2 * (Zpos m * 100 * A) + 1) * unit_den) by lia.
  replace (2 * unit_den) with (2 * 1 * unit_den) by lia.
  rewrite Z.div_mul_cancel_r by lia. done.
Qed.

Lemma hundredths_signed (s : bool) (n : Z) :
  0 <= n ->
  hundredths (Str ((if s then "-" else "") +:+ string_of_list_ascii (fixed_digits 2 n)))
    = Some (cond_Zopp s n).
Proof.
  intros Hn. destruct s; [|by apply hundredths_fixed_digits].
  destruct (fixed_digits_2_spec n Hn) as (ip & d1 & d2 & Heq & Hne & Hall & Hval).
  unfold hundredths.
  change ("-" +:+ string_of_list_ascii (fixed_digits 2 n))
    with (String "-" (string_of_list_ascii (fixed_digits 2 n))).
  cbn [list_ascii_of_string]. rewrite list_ascii_of_string_of_list_ascii, Heq.
  apply Forall_app in Hall as [Hip Hfp].
  change (match "-"%char :: ip ++ "."%char :: [d1; d2] with
          | "-"%char :: cs => (true, cs)
          | cs => (false, cs)
          end) with (true, ip ++ "."%char :: [d1; d2]).
  cbv iota. rewrite span_digits_all by done.
  pose proof (span_digits_all [d1; d2] [] Hfp I) as Hs. rewrite app_nil_r in Hs.
  destruct ip as [|c ip']; [done|]. rewrite Hs, Hval. done.
Qed.

(** The hundredths [toFixed(2)] writes are the nearest ones, a tie going up. *)
Lemma nearest_hundredths U :
  let n := (200 * U + unit_den) / (2 * unit_den) in
  - unit_den < 2 * (n * unit_den - 100 * U) <= unit_den.
Proof.
  cbv zeta. pose proof unit_den_pos as HH. generalize dependent unit_den. intros H HH.
  pose proof (Z.mul_div_le (200 * U + H) (2 * H) ltac:(lia)).
  pose proof (Z.mul_succ_div_gt (200 * U + H) (2 * H) ltac:(lia)).
  lia.
Qed.

(** What [toFixed(2)] writes for a finite number below [10^21]. *)
Lemma toFixed_2_rounds x :
  is_finite x = true -> Z.abs (units x) < 10 ^ 21 * unit_den ->
  (forall s m e, x = S754_finite s m e -> -1074 <= e) ->
  two_decimals x (toFixed 2 x).
Proof.
  intros Hf Hlt He. destruct x as [s0| | |s m e]; try discriminate.
  - exists 0. cbn [units]. split; [reflexivity|]. pose proof unit_den_pos.
    repeat split; lia.
  - specialize (He s m e eq_refl).
    pose proof (pow2_pos (e + 1074) ltac:(lia)) as HA.
    set (U := Zpos m * 2 ^ (e + 1074)) in *.
    assert (Z.abs (units (S754_finite s m e)) = U) as HU.
    { cbn [units]. fold U. destruct s; cbn [cond_Zopp]; lia. }
    rewrite HU in Hlt. unfold two_decimals. rewrite HU.
    cbn [toFixed]. rewrite magnitude_geb_units by done. fold U.
    rewrite (proj2 (Z.leb_gt _ _) Hlt), nearest_scaled_units_all by done. fold U.
    set (n := (200 * U + unit_den) / (2 * unit_den)).
    pose proof unit_den_pos as Hud.
    assert (0 <= n) as Hn by (apply Z.div_pos; lia).
    exists (cond_Zopp s n). split; [by apply hundredths_signed|].
    cbn [units]. fold U.
    pose proof (nearest_hundredths U) as Hnear. cbv zeta in Hnear. fold n in Hnear.
    destruct s; cbn [cond_Zopp]; repeat split; try lia.
Qed.

Lemma toFixed_2_none x :
  (forall s m e, x = S754_finite s m e -> -1074 <= e) ->
  is_finite x = false \/ 10 ^ 21 * unit_den <= Z.abs (units x) ->
  hundredths (toFixed 2 x) = None.
Proof.
  intros He H. destruct x as [s0| [] | |s m e].
  - destruct H as [H|H]; [done|]. cbn [units] in H. pose proof unit_den_pos. lia.
  - reflexivity.
  - reflexivity.
  - reflexivity.
  - destruct H as [H|H]; [done|]. specialize (He s m e eq_refl).
    cbn [toFixed]. rewrite magnitude_geb_units by done.
    assert (Z.abs (units (S754_finite s m e)) = Zpos m * 2 ^ (e + 1074)) as HU.
    { pose proof (pow2_pos (e + 1074) ltac:(lia)). cbn [units]. destruct s; cbn [cond_Zopp]; lia. }
    rewrite HU in H. by rewrite (proj2 (Z.leb_le _ _) H).
Qed.

Lemma toFixed_2_figure x :
  (forall s m e, x = S754_finite s m e -> -1074 <= e) ->
  fixed_figure x (toFixed 2 x).
Proof.
  intros He. split.
  - intros Hf Hlt. by apply toFixed_2_rounds.
  - by apply toFixed_2_none.
Qed.

(** The figure of a number read back by [parseFloat] is the figure of the
    number. *)
Lemma toFixed_parseFloat m : toFixed 2 (parseFloat (JsNumber m)) = toFixed 2 m.
Proof. by destruct m as [[]| | |]. Qed.

(** The exponent of [100 - m] is one of a number. *)
Lemma num_sub_100_exponent m s m2 e2 :
  valid m = true ->
  num_sub (num_of_Z 100) (parseFloat (JsNumber m)) = S754_finite s m2 e2 -> -1074 <= e2.
Proof.
  intros Hv Hr. destruct (is_finite m) eqn:Hf.
  - destruct (num_sub_100_shape m Hv Hf) as [[H _]|[(s' & m' & e' & H & He & _)|(s' & H & _)]];
      cbv zeta in H; rewrite H in Hr; try discriminate.
    by injection Hr as _ _ <-.
  - destruct m as [|[]| |]; discriminate.
Qed.

(** C1, as the code has it.  The report builder computes the score as
    [(100 - m).toFixed(2)] and has no clamp.  For a mismatch [m] between 0
    and 100 that is the two-decimal rendering of [clamp(100 - m, 0, 100)],
    and the two figures of the report, read as hundredths, add up to 100.00
    within one hundredth.  For every [m] above 100 the clamped score is
    ["0.00"] and the score of the code is another one.  For [m = NaN] both
    figures are the string ["NaN"]. *)
Theorem matchScore_clamped_complement (comparisonResult : ComparisonResult) (w : World) :
  let m := misMatchPercentage comparisonResult in
  let report := build_response comparisonResult w in
  valid m = true ->
  (num_le (num_of_Z 0) m = true -> num_le m (num_of_Z 100) = true ->
   matchScore report = matchScore_spec m /\
   exists a b,
     hundredths (matchScore report) = Some a /\
     hundredths (report_misMatchPercentage report) = Some b /\
     -1 <= a + b - 10000 <= 1) /\
  (num_lt (num_of_Z 100) m = true ->
   matchScore_spec m = Str "0.00" /\ matchScore report <> matchScore_spec m) /\
  (m = NaN ->
   matchScore report = Str "NaN" /\ report_misMatchPercentage report = Str "NaN").
Proof.
  intros m report Hv. split; [|split].
  - intros H0 H100.
    destruct (sub_100_spec m Hv H0 H100) as (Hshape & [Hr0 Hr100] & Herr).
    destruct (percent_bounds m Hv H0 H100) as (Hmshape & Hm0 & Hm100).
    unfold report, build_response. cbn [matchScore report_misMatchPercentage]. fold m.
    set (r := num_sub (num_of_Z 100) (parseFloat (JsNumber m))) in *.
    split.
    + unfold matchScore_spec. rewrite <- sub_100_parseFloat. fold r.
      by rewrite clamp_percent.
    + destruct (toFixed_2_percent r) as [Hfr Hnr]; [|done|].
      { destruct Hshape as [->|(m2 & e2 & -> & He2)]; [eauto|].
        right. eexists _, _. split; [done|lia]. }
      destruct (toFixed_2_percent (parseFloat (JsNumber m))) as [Hfm Hnm].
      { destruct Hmshape as [[s ->]|(mm & me & -> & Hme)]; [left; by exists false|].
        right. eexists _, _. split; [done|lia]. }
      { by rewrite units_parseFloat. }
      rewrite units_parseFloat in Hfm, Hnm.
      eexists _, _. rewrite Hfr, Hfm, !hundredths_fixed_digits by lia.
      split; [done|]. split; [done|]. by apply hundredths_sum.
  - intros Habove.
    unfold report, build_response, matchScore_spec. cbn [matchScore]. fold m.
    rewrite <- (sub_100_parseFloat m).
    set (r := num_sub (num_of_Z 100) (parseFloat (JsNumber m))).
    assert ((exists m2 e2, r = S754_finite true m2 e2) \/ r = S754_infinity true) as Hr.
    { destruct m as [s0|[]| |s mm me] eqn:Em; try discriminate.
      - by right.
      - assert (100 * unit_den < units (S754_finite s mm me)) as Hu.
        { rewrite num_lt_units in Habove by done. apply Z.ltb_lt in Habove.
          by rewrite units_100 in Habove. }
        destruct (num_sub_100_shape (S754_finite s mm me) Hv eq_refl)
          as [[_ Heq]|[(s2 & m2 & e2 & Hres & _ & Hs)|(s2 & Hres & Hs)]]; [lia| |].
        + apply Hs in Hu as ->. left. by exists m2, e2.
        + apply Hs in Hu as ->. by right. }
    destruct Hr as [(m2 & e2 & ->)| ->].
    + split; [reflexivity|]. cbn [toFixed].
      by destruct (magnitude_geb m2 e2 (10 ^ 21)).
    + split; [reflexivity|]. done.
  - intros Hm. unfold report, build_response. cbn [matchScore report_misMatchPercentage].
    fold m. by rewrite Hm.
Qed.

Lemma matchScore_clamped_complement_witness :
  (matchScore (build_response sample_result sample_world)
     = matchScore_spec (misMatchPercentage sample_result) /\
   exists a b,
     hundredths (matchScore (build_response sample_result sample_world)) = Some a /\
     hundredths (report_misMatchPercentage (build_response sample_result sample_world)) = Some b /\
     -1 <= a + b - 10000 <= 1) /\
  (matchScore_spec (misMatchPercentage overshoot_result) = Str "0.00" /\
   matchScore (build_response overshoot_result sample_world)
     <> matchScore_spec (misMatchPercentage overshoot_result)) /\
  (matchScore (build_response blank_result sample_world) = Str "NaN" /\
   report_misMatchPercentage (build_response blank_result sample_world) = Str "NaN").
Proof.
  split; [|split].
  - apply (matchScore_clamped_complement sample_result sample_world); reflexivity.
  - apply (matchScore_clamped_complement overshoot_result sample_world); reflexivity.
  - apply (matchScore_clamped_complement blank_result sample_world); reflexivity.
Defined.

(** The claim of the specification about the clamp fails on the code: a
    mismatch of 150 is reported with the score -50.00, where the clamp gives
    0.00; and the report the upload route sends when the engine answers
    without a percentage has the figures NaN and NaN, which add up to
    nothing. *)
Lemma score_not_clamped :
  matchScore (build_response overshoot_result sample_world) = Str "-50.00" /\
  report_misMatchPercentage (build_response overshoot_result sample_world) = Str "150.00" /\
  matchScore_spec (misMatchPercentage overshoot_result) = Str "0.00" /\
  exists report w',
    post_compare_file sample_browser blank_engine "/app/backend"
      {| figmaImage := Some uploaded_png; file_pageUrl := JsString "http://localhost:3000" |}
      sample_world = (json (ReportBody report), w') /\
    matchScore report = Str "NaN" /\ report_misMatchPercentage report = Str "NaN" /\
    hundredths (matchScore report) = None.
Proof.
  split; [reflexivity|]. split; [reflexivity|]. split; [reflexivity|].
  eexists _, _. split; [vm_compute; reflexivity|]. repeat split.
Qed.

(** The sample of the README: a mismatch of 12.45 is reported with the score
    87.55. *)
Example report_12_45 :
  matchScore (build_response sample_result sample_world) = Str "87.55" /\
  report_misMatchPercentage (build_response sample_result sample_world) = Str "12.45".
Proof. split; reflexivity. Qed.

(** C4, as the code has it.  The two figures of the report are
    [toFixed(2)] of binary64 numbers: the mismatch [m], and the difference
    [100 - m] computed in binary64.  A figure whose number is finite and
    below [10^21] in magnitude is a string of digits with exactly two digits
    after the point, the hundredth nearest to the number, a tie going away
    from zero: rounded, not truncated.  A figure whose number is NaN, an
    infinity or [10^21] and more is no such string.  For a mismatch between
    0 and 100 both figures are of the first kind. *)
Theorem report_two_decimals_rounded (comparisonResult : ComparisonResult) (w : World) :
  let m := misMatchPercentage comparisonResult in
  let difference := num_sub (num_of_Z 100) (parseFloat (JsNumber m)) in
  let report := build_response comparisonResult w in
  valid m = true ->
  fixed_figure m (report_misMatchPercentage report) /\
  fixed_figure difference (matchScore report) /\
  (num_le (num_of_Z 0) m = true -> num_le m (num_of_Z 100) = true ->
   two_decimals m (report_misMatchPercentage report) /\
   two_decimals difference (matchScore report)).
Proof.
  intros m difference report Hv.
  assert (fixed_figure m (report_misMatchPercentage report)) as Hm.
  { unfold report, build_response. cbn [report_misMatchPercentage]. fold m.
    rewrite toFixed_parseFloat. apply toFixed_2_figure.
    intros s mm me ->. by destruct (valid_finite_bounds _ _ _ Hv) as ([? _] & _). }
  assert (fixed_figure difference (matchScore report)) as Hd.
  { unfold report, build_response. cbn [matchScore]. fold m. fold difference.
    apply toFixed_2_figure. intros s m2 e2 Hr. by eapply num_sub_100_exponent. }
  split; [done|]. split; [done|]. intros H0 H100.
  destruct (sub_100_spec m Hv H0 H100) as (Hshape & [Hr0 Hr100] & _).
  destruct (percent_bounds m Hv H0 H100) as (Hmshape & Hm0 & Hm100).
  cbv zeta in Hshape, Hr0, Hr100. fold difference in Hshape, Hr0, Hr100.
  pose proof unit_den_pos as Hud.
  assert (100 * unit_den < 10 ^ 21 * unit_den) as Hbig.
  { apply Z.mul_lt_mono_pos_r; [done|]. reflexivity. }
  split.
  - apply Hm; [by destruct Hmshape as [[s ->]|(mm & me & -> & _)]|lia].
  - apply Hd; [by destruct Hshape as [->|(m2 & e2 & -> & _)]|lia].
Qed.

Lemma report_two_decimals_rounded_witness :
  two_decimals (misMatchPercentage sample_result)
    (report_misMatchPercentage (build_response sample_result sample_world)) /\
  two_decimals (num_sub (num_of_Z 100) (parseFloat (JsNumber (misMatchPercentage sample_result))))
    (matchScore (build_response sample_result sample_world)) /\
  hundredths (report_misMatchPercentage (build_response blank_result sample_world)) = None /\
  hundredths (matchScore (build_response blank_result sample_world)) = None.
Proof.
  split; [|split; [|split]].
  - apply (report_two_decimals_rounded sample_result sample_world); reflexivity.
  - apply (report_two_decimals_rounded sample_result sample_world); reflexivity.
  - apply (report_two_decimals_rounded blank_result sample_world); [reflexivity|by left].
  - apply (report_two_decimals_rounded blank_result sample_world); [reflexivity|by left].
Defined.

(** The claim of the specification about two decimals fails on the code:
    when the engine answers without a percentage, the comparison resolves
    with a mismatch that is no number, and [/compare] answers 200 with the
    figures NaN and NaN. *)
Lemma report_without_decimals :
  exists r w1 report w',
    compareImages blank_engine figma_path code_path no_options sample_world = (Resolved r, w1) /\
    misMatchPercentage r = NaN /\
    post_compare (downloadImage sample_fetch) sample_browser blank_engine "/app/backend"
      sample_request sample_world = (json (ReportBody report), w') /\
    report_misMatchPercentage report = Str "NaN" /\ matchScore report = Str "NaN" /\
    hundredths (report_misMatchPercentage report) = None /\
    hundredths (matchScore report) = None.
Proof.
  eexists _, _, _, _. split; [vm_compute; reflexivity|]. split; [reflexivity|].
  split; [vm_compute; reflexivity|]. repeat split.
Qed.

(** Where both figures are ties, both go up and the sum is 100.01. *)
Example tie_sums_to_100_01 :
  toFixed 2 (parseFloat (JsString "0.125")) = Str "0.13" /\
  toFixed 2 (num_sub (num_of_Z 100) (parseFloat (JsString "0.125"))) = Str "99.88".
Proof. split; reflexivity. Qed.

(** Rounding shows where truncation would give another digit: 12.456 is
    written 12.46, and the tie 0.125 goes up to 0.13. *)
Example toFixed_rounds :
  toFixed 2 (parseFloat (JsString "12.456")) = Str "12.46" /\
  toFixed 2 (parseFloat (JsString "0.125")) = Str "0.13" /\
  toFixed 2 (num_sub (num_of_Z 100) (parseFloat (JsString "12.456"))) = Str "87.54".
Proof. repeat split. Qed.

(** ** compare.js: the claims about [compareImages] *)

(** C10.  When either path names no file, [compareImages] rejects with an
    error that names which image was not found and its path; the answer is
    the same whatever the engine is, so the engine is never run, and the
    world comes back as it was, so no diff image is written. *)
Theorem compareImages_missing_image (resemble : Engine) (image1Path image2Path : string)
    (options : Options) (w : World) :
  existsSync w image1Path = false \/ existsSync w image2Path = false ->
  exists which path,
    ((which = "First" /\ path = image1Path) \/ (which = "Second" /\ path = image2Path)) /\
    existsSync w path = false /\
    (forall engine : Engine,
       compareImages engine image1Path image2Path options w =
         (Rejected {| message := "Image comparison failed: " +:+ which
                                 +:+ " image not found: " +:+ path |}, w)) /\
    files (snd (compareImages resemble image1Path image2Path options w)) = files w.
Proof.
  intros Hmiss. destruct (existsSync w image1Path) eqn:E1.
  - destruct Hmiss as [|E2]; [done|].
    exists "Second", image2Path. repeat split; [by right|done| |].
    + intros engine. by rewrite compareImages_second_missing.
    + by rewrite compareImages_second_missing.
  - exists "First", image1Path. repeat split; [by left|done| |].
    + intros engine. by rewrite compareImages_first_missing.
    + by rewrite compareImages_first_missing.
Qed.

Lemma compareImages_missing_image_witness :
  exists which path,
    ((which = "First" /\ path = figma_path) \/ (which = "Second" /\ path = code_path)) /\
    existsSync world_without_code path = false /\
    (forall engine : Engine,
       compareImages engine figma_path code_path no_options world_without_code =
         (Rejected {| message := "Image comparison failed: " +:+ which
                                 +:+ " image not found: " +:+ path |}, world_without_code)) /\
    files (snd (compareImages sized_engine figma_path code_path no_options world_without_code))
      = files world_without_code.
Proof.
  apply (compareImages_missing_image sized_engine figma_path code_path no_options
           world_without_code).
  right. vm_compute. reflexivity.
Defined.

Example missing_screenshot_message :
  fst (compareImages sized_engine figma_path code_path no_options world_without_code) =
    Rejected {| message :=
      "Image comparison failed: Second image not found: /app/backend/assets/code.png" |}.
Proof. vm_compute. reflexivity. Qed.

(** X1.  The four ways [compareImages] rejects, and no other.  An image
    that is missing is reported with the prefix of the outer [catch], the
    world is as it was and the engine has not run.  An error the engine
    throws while it is set up comes out as it is, without that prefix: the
    promise is returned, not awaited, inside the [try].  An error thrown
    while the answer is handled comes out with the prefix of the inner
    [catch] alone.  In these two the world is the one the engine left: no
    diff image has been written. *)
Theorem compareImages_rejections (resemble : Engine) (image1Path image2Path : string)
    (options : Options) (w w' : World) (e : JsError) :
  compareImages resemble image1Path image2Path options w = (Rejected e, w') ->
  (existsSync w image1Path = false /\ w' = w /\
   e = comparison_failed ("First image not found: " +:+ image1Path)) \/
  (existsSync w image1Path = true /\ existsSync w image2Path = false /\ w' = w /\
   e = comparison_failed ("Second image not found: " +:+ image2Path)) \/
  (existsSync w image1Path = true /\ existsSync w image2Path = true /\
   resemble (engine_call image1Path image2Path options) w = (Threw e, w')) \/
  (existsSync w image1Path = true /\ existsSync w image2Path = true /\
   exists data thrown,
     resemble (engine_call image1Path image2Path options) w = (Completed data, w') /\
     data_getBuffer data = Some (inl thrown) /\
     e = processing_failed (message thrown)).
Proof.
  intros Hc. destruct (existsSync w image1Path) eqn:E1.
  - destruct (existsSync w image2Path) eqn:E2.
    + destruct (resemble (engine_call image1Path image2Path options) w)
        as [[data|thrown] w1] eqn:Er.
      * destruct (data_getBuffer data) as [[thrown|buf]|] eqn:Eb.
        -- rewrite (compareImages_callback_threw _ _ _ _ _ _ _ _ E1 E2 Er Eb) in Hc.
           injection Hc as <- <-. right; right; right. repeat split. by exists data, thrown.
        -- rewrite (compareImages_completed _ _ _ _ _ _ _ E1 E2 Er) in Hc; [done|].
           intros error. by rewrite Eb.
        -- rewrite (compareImages_completed _ _ _ _ _ _ _ E1 E2 Er) in Hc; [done|].
           intros error. by rewrite Eb.
      * rewrite (compareImages_threw _ _ _ _ _ _ _ E1 E2 Er) in Hc.
        injection Hc as <- <-. right; right; left. by repeat split.
    + rewrite compareImages_second_missing in Hc by done.
      injection Hc as <- <-. right; left. by repeat split.
  - rewrite compareImages_first_missing in Hc by done.
    injection Hc as <- <-. left. by repeat split.
Qed.

Lemma compareImages_rejections_witness :
  let e := {| message := "Unsupported image type" |} in
  (existsSync sample_world figma_path = false /\ sample_world = sample_world /\
   e = comparison_failed ("First image not found: " +:+ figma_path)) \/
  (existsSync sample_world figma_path = true /\ existsSync sample_world code_path = false /\
   sample_world = sample_world /\
   e = comparison_failed ("Second image not found: " +:+ code_path)) \/
  (existsSync sample_world figma_path = true /\ existsSync sample_world code_path = true /\
   throwing_engine (engine_call figma_path code_path no_options) sample_world
     = (Threw e, sample_world)) \/
  (existsSync sample_world figma_path = true /\ existsSync sample_world code_path = true /\
   exists data thrown,
     throwing_engine (engine_call figma_path code_path no_options) sample_world
       = (Completed data, sample_world) /\
     data_getBuffer data = Some (inl thrown) /\
     e = processing_failed (message thrown)).
Proof.
  apply (compareImages_rejections throwing_engine figma_path code_path no_options
           sample_world sample_world).
  vm_compute. reflexivity.
Defined.

(** The two errors that pass the outer [catch]: the engine's own, and the
    one of the callback. *)
Example rejections_without_prefix :
  fst (compareImages throwing_engine figma_path code_path no_options sample_world)
    = Rejected {| message := "Unsupported image type" |} /\
  fst (compareImages broken_buffer_engine figma_path code_path no_options sample_world)
    = Rejected {| message := "Failed to process comparison result: Out of memory" |} /\
  files (snd (compareImages broken_buffer_engine figma_path code_path no_options sample_world))
    = files sample_world.
Proof. repeat split. Qed.

(** C9.  When the comparison resolves, [compareImagesWithTolerance] resolves
    too, for every tolerance (5 when none is given); [passed] is the
    runtime's [misMatchPercentage <= tolerance], which holds when the two are
    equal and, on valid finite numbers, exactly when the value of the
    mismatch is at most the value of the tolerance; and [status] is ["PASS"]
    exactly when [passed] is true and ["FAIL"] otherwise. *)
Theorem tolerance_verdict (resemble : Engine) (image1Path image2Path : string)
    (tol : option number) (options : Options) (w w1 : World) (r : ComparisonResult) :
  compareImages resemble image1Path image2Path options w = (Resolved r, w1) ->
  let t := default (num_of_Z 5) tol in
  exists res,
    compareImagesWithTolerance resemble image1Path image2Path tol options w
      = (Resolved res, w1) /\
    result res = r /\ tolerance res = t /\
    passed res = num_le (misMatchPercentage r) t /\
    (SFeqb (misMatchPercentage r) t = true -> passed res = true) /\
    (valid (misMatchPercentage r) = true -> valid t = true ->
     is_finite (misMatchPercentage r) = true -> is_finite t = true ->
     (passed res = true <-> units (misMatchPercentage r) <= units t)) /\
    (status res = "PASS" <-> passed res = true) /\
    (status res = "FAIL" <-> passed res = false).
Proof.
  intros Hc t. unfold compareImagesWithTolerance. rewrite Hc. fold t.
  eexists. split; [reflexivity|]. cbn [result tolerance passed status].
  repeat split; try done.
  - unfold num_le, SFleb, SFeqb. by destruct (SFcompare _ _) as [[]|].
  - rewrite num_le_units by done. apply Z.leb_le.
  - rewrite num_le_units by done. apply Z.leb_le.
  - by destruct (num_le _ _).
  - by intros ->.
  - by destruct (num_le _ _).
  - by intros ->.
Qed.

Lemma tolerance_verdict_witness :
  let t := parseFloat (JsString "12.45") in
  exists res,
    compareImagesWithTolerance sized_engine figma_path code_path
      (Some (parseFloat (JsString "12.45"))) no_options sample_world
      = (Resolved res, sized_world) /\
    result res = sized_result /\ tolerance res = t /\
    passed res = num_le (misMatchPercentage sized_result) t /\
    (SFeqb (misMatchPercentage sized_result) t = true -> passed res = true) /\
    (valid (misMatchPercentage sized_result) = true -> valid t = true ->
     is_finite (misMatchPercentage sized_result) = true -> is_finite t = true ->
     (passed res = true <-> units (misMatchPercentage sized_result) <= units t)) /\
    (status res = "PASS" <-> passed res = true) /\
    (status res = "FAIL" <-> passed res = false).
Proof.
  apply (tolerance_verdict sized_engine figma_path code_path
           (Some (parseFloat (JsString "12.45"))) no_options sample_world sized_world
           sized_result).
  vm_compute. reflexivity.
Defined.

(** A mismatch equal to the tolerance passes, one hundredth below the
    tolerance fails, and the tolerance is 5 when none is given. *)
Example tolerance_boundary :
  (exists res, fst (compareImagesWithTolerance sized_engine figma_path code_path
                      (Some (parseFloat (JsString "12.45"))) no_options sample_world)
               = Resolved res /\ passed res = true /\ status res = "PASS") /\
  (exists res, fst (compareImagesWithTolerance sized_engine figma_path code_path
                      (Some (parseFloat (JsString "12.44"))) no_options sample_world)
               = Resolved res /\ passed res = false /\ status res = "FAIL") /\
  (exists res, fst (compareImagesWithTolerance sized_engine figma_path code_path
                      None no_options sample_world)
               = Resolved res /\ passed res = false /\ tolerance res = num_of_Z 5).
Proof. repeat split; eexists; (split; [vm_compute; reflexivity|split; reflexivity]). Qed.

(** ** server.js: the report and the status codes *)

(** C7.  The timestamp of the report is the clock read when the report is
    built: it does not depend on the comparison result (whose own
    [analysisTime] was taken when the comparison completed), and building the
    report of one result at two different clock readings gives two different
    timestamps and otherwise the same report. *)
Theorem report_timestamp_at_call_time (comparisonResult : ComparisonResult) (w1 w2 : World) :
  clock w1 <> clock w2 ->
  report_analysisTime (build_response comparisonResult w1) = {| epoch_ms := clock w1 |} /\
  report_analysisTime (build_response comparisonResult w2) = {| epoch_ms := clock w2 |} /\
  report_analysisTime (build_response comparisonResult w1)
    <> report_analysisTime (build_response comparisonResult w2) /\
  (forall other : ComparisonResult,
     report_analysisTime (build_response other w1)
       = report_analysisTime (build_response comparisonResult w1)) /\
  matchScore (build_response comparisonResult w1)
    = matchScore (build_response comparisonResult w2) /\
  report_misMatchPercentage (build_response comparisonResult w1)
    = report_misMatchPercentage (build_response comparisonResult w2).
Proof.
  intros Hne. cbn [build_response report_analysisTime matchScore report_misMatchPercentage].
  unfold Date_now_iso. repeat split. intros [= Heq]. by apply Hne.
Qed.

Lemma report_timestamp_at_call_time_witness :
  report_analysisTime (build_response sample_result sample_world)
    = {| epoch_ms := 1705314600000 |} /\
  report_analysisTime (build_response sample_result later_world)
    = {| epoch_ms := 1705314601000 |} /\
  report_analysisTime (build_response sample_result sample_world)
    <> report_analysisTime (build_response sample_result later_world) /\
  (forall other : ComparisonResult,
     report_analysisTime (build_response other sample_world)
       = report_analysisTime (build_response sample_result sample_world)) /\
  matchScore (build_response sample_result sample_world)
    = matchScore (build_response sample_result later_world) /\
  report_misMatchPercentage (build_response sample_result sample_world)
    = report_misMatchPercentage (build_response sample_result later_world).
Proof.
  apply (report_timestamp_at_call_time sample_result sample_world later_world).
  vm_compute. discriminate.
Defined.

(** The timestamp of the sample result, taken when the comparison completed,
    is not the one of the report. *)
Example report_time_differs_from_result_time :
  report_analysisTime (build_response sample_result sample_world)
    <> analysisTime sample_result.
Proof. vm_compute. discriminate. Qed.

Section Routes.
Variable downloadImage : JsValue -> string -> World -> Outcome unit * World.
Variable browser : Browser.
Variable resemble : Engine.
Variable server_dir : string.

Lemma post_compare_missing_parameter req w :
  falsy (figmaImageUrl req) || falsy (pageUrl req) = true ->
  post_compare downloadImage browser resemble server_dir req w =
    (status_json 400 (ErrorBody "Missing required parameters"
                        "Both figmaImageUrl and pageUrl are required"), w).
Proof. intros H. unfold post_compare. by rewrite H. Qed.

(** A download that fails ends in status 500. *)
Lemma post_compare_download_failed req w e w1 :
  falsy (figmaImageUrl req) || falsy (pageUrl req) = false ->
  downloadImage (figmaImageUrl req) (figmaImagePath server_dir) w = (Rejected e, w1) ->
  post_compare downloadImage browser resemble server_dir req w =
    (status_json 500 (ErrorBody "Comparison failed" (message e)), w1).
Proof.
  intros H Hd. unfold post_compare. rewrite H. cbv zeta.
  by rewrite Hd.
Qed.

(** C6, as the code has it.  The [/compare] route answers 400 only when a
    required parameter is missing; every failure of the download, of the
    screenshot or of the comparison is answered with 500, whatever its cause;
    and the report is sent, with status 200, only when all three steps have
    succeeded. *)
Theorem post_compare_status (req : CompareRequest) (w : World) :
  let '(resp, w') := post_compare downloadImage browser resemble server_dir req w in
  (status_code resp = 400 /\
   falsy (figmaImageUrl req) || falsy (pageUrl req) = true /\
   body resp = ErrorBody "Missing required parameters"
                 "Both figmaImageUrl and pageUrl are required" /\
   w' = w)
  \/
  (status_code resp = 500 /\
   falsy (figmaImageUrl req) || falsy (pageUrl req) = false /\
   exists e, body resp = ErrorBody "Comparison failed" (message e) /\
     (downloadImage (figmaImageUrl req) (figmaImagePath server_dir) w = (Rejected e, w') \/
      (exists u w1, downloadImage (figmaImageUrl req) (figmaImagePath server_dir) w = (Resolved u, w1) /\
         (takeScreenshot browser (pageUrl req) (codeImagePath server_dir) w1 = (Rejected e, w') \/
          exists v w2, takeScreenshot browser (pageUrl req) (codeImagePath server_dir) w1 = (Resolved v, w2) /\
            compareImages resemble (figmaImagePath server_dir) (codeImagePath server_dir) no_options w2
              = (Rejected e, w')))))
  \/
  (status_code resp = 200 /\
   falsy (figmaImageUrl req) || falsy (pageUrl req) = false /\
   exists u w1 v w2 comparisonResult,
     downloadImage (figmaImageUrl req) (figmaImagePath server_dir) w = (Resolved u, w1) /\
     takeScreenshot browser (pageUrl req) (codeImagePath server_dir) w1 = (Resolved v, w2) /\
     compareImages resemble (figmaImagePath server_dir) (codeImagePath server_dir) no_options w2
       = (Resolved comparisonResult, w') /\
     body resp = ReportBody (build_response comparisonResult w')).
Proof.
  unfold post_compare.
  destruct (falsy (figmaImageUrl req) || falsy (pageUrl req)) eqn:Hf.
  { left. by repeat split. }
  cbv zeta.
  destruct (downloadImage (figmaImageUrl req) (figmaImagePath server_dir) w) as [[u|e] w1] eqn:Hd.
  2:{ right; left. repeat split. exists e. split; [done|by left]. }
  destruct (takeScreenshot browser (pageUrl req) (codeImagePath server_dir) w1) as [[v|e] w2] eqn:Hs.
  2:{ right; left. repeat split. exists e. split; [done|].
      right. exists u, w1. split; [done|by left]. }
  destruct (compareImages resemble (figmaImagePath server_dir) (codeImagePath server_dir) no_options w2)
    as [[r|e] w3] eqn:Hc.
  - right; right. repeat split. by exists u, w1, v, w2, r.
  - right; left. repeat split. exists e. split; [done|].
    right. exists u, w1. split; [done|]. right. by exists v, w2.
Qed.

(** Both routes build their report with [build_response]. *)
Lemma post_compare_file_report req w resp w' rep :
  post_compare_file browser resemble server_dir req w = (resp, w') ->
  body resp = ReportBody rep ->
  status_code resp = 200 /\
  exists comparisonResult, rep = build_response comparisonResult w'.
Proof.
  unfold post_compare_file. intros Hp Hb.
  destruct (figmaImage req) as [f|]; [|by inversion Hp; subst].
  destruct (String.prefix "image/" (mimetype f)); [|by inversion Hp; subst].
  destruct (falsy (file_pageUrl req)); [by inversion Hp; subst|].
  destruct (copy _ _ _) as [[u|e] w1]; [|by inversion Hp; subst].
  destruct (takeScreenshot _ _ _ _) as [[v|e] w2]; [|by inversion Hp; subst].
  destruct (compareImages _ _ _ _ _) as [[r|e] w3]; [|by inversion Hp; subst].
  inversion Hp; subst. cbn [body json] in Hb. inversion Hb; subst.
  split; [done|]. by exists r.
Qed.
End Routes.

(** The claim of the specification about bad input fails on the code: when
    the design image cannot be fetched, the route answers with status 500,
    not with a client error. *)
Lemma failed_download_is_500 :
  let resp := fst (post_compare failing_download sample_browser sized_engine "/app/backend"
                     sample_request sample_world) in
  status_code resp = 500 /\
  ~ (400 <= status_code resp < 500) /\
  body resp = ErrorBody "Comparison failed" "Failed to download image: 404 Not Found".
Proof. vm_compute. repeat split; try done. intros [_ H]. done. Qed.

(** ** The comparator of the specification behind [compareImages] *)


Lemma same_dimensions_refl a : same_dimensions a a = true.
Proof. unfold same_dimensions. by rewrite !Nat.eqb_refl. Qed.

Lemma pixel_distance_same policy p : pixel_distance policy p p = 0.
Proof. unfold pixel_distance. destruct (ignoreColors policy); lia. Qed.

Lemma divergent_same policy a xy : divergent policy a a xy = false.
Proof. destruct xy as [x y]. unfold divergent. by rewrite pixel_distance_same. Qed.

(** No position of an image diverges from the image itself. *)
Lemma divergentPixels_same policy a : divergentPixels policy a a = 0%nat.
Proof.
  unfold divergentPixels.
  induction (positions (img_width a) (img_height a)) as [|xy l IH]; [done|].
  simpl. by rewrite divergent_same.
Qed.










Section SpecEngineProperties.
Variable decode : list byte -> option RasterImage.
Variable encode : RasterImage -> list byte.

(** What the engine of the specification answers for two decoded images. *)
Lemma spec_engine_completed call w bs1 bs2 reference candidate res :
  files w !! call_image1 call = Some bs1 -> files w !! call_image2 call = Some bs2 ->
  decode bs1 = Some reference -> decode bs2 = Some candidate ->
  compare_spec (Date_now_iso w) (policy_of call) reference candidate = inr res ->
  spec_engine decode encode call w =
    (Completed {|
       data_misMatchPercentage := JsNumber (mismatchPercentage res);
       data_isSameDimensions := Some (spec_isSameDimensions res);
       data_dimensionDifference := dimensionDelta res;
       data_rawMisMatchPercentage := JsNumber (spec_rawMismatchPercentage res);
       data_diffBounds := None;
       data_analysisTime := JsNumber (num_of_Z (epoch_ms (computedAt res)));
       data_getBuffer := Some (inr (encode (diffImage res))) |}, w).
Proof.
  intros H1 H2 Hd1 Hd2 Hc. unfold spec_engine. rewrite H1, H2. cbn [mbind option_bind].
  by rewrite Hd1, Hd2, Hc.
Qed.

(** C3.  Two files with the same bytes, compared under any options: the
    comparison resolves with a mismatch of 0, which the report shows as
    ["0.00"] with the match score ["100.00"]. *)
Theorem identical_images_match (image1Path image2Path : string) (options : Options)
    (w : World) (bs : list byte) (img : RasterImage) :
  files w !! image1Path = Some bs -> files w !! image2Path = Some bs ->
  decode bs = Some img -> wf_image img ->
  exists r w2,
    compareImages (spec_engine decode encode) image1Path image2Path options w
      = (Resolved r, w2) /\
    misMatchPercentage r = num_of_Z 0 /\
    report_misMatchPercentage (build_response r w2) = Str "0.00" /\
    matchScore (build_response r w2) = Str "100.00".
Proof.
  intros H1 H2 Hd (Hw & Hh & _ & Hsize).
  set (call := engine_call image1Path image2Path options).
  assert (compare_spec (Date_now_iso w) (policy_of call) img img = inr {|
            mismatchPercentage := num_of_Z 0;
            spec_rawMismatchPercentage := num_of_Z 0;
            spec_isSameDimensions := true;
            dimensionDelta := None;
            diffImage := render_diff (policy_of call) img img;
            computedAt := Date_now_iso w |}) as Hc.
  { unfold compare_spec, normalize_size. rewrite same_dimensions_refl.
    unfold rawMismatchPercentage_of. rewrite divergentPixels_same.
    change (Z.of_nat 0) with 0. rewrite percentage_zero; [done|].
    unfold totalPixels. split; [lia|done]. }
  pose proof (spec_engine_completed call w bs bs img img _ H1 H2 Hd Hd Hc) as He.
  eexists _, _. split.
  - apply compareImages_completed;
      [by apply existsSync_true|by apply existsSync_true|exact He|done].
  - cbn [misMatchPercentage data_misMatchPercentage mismatchPercentage]. by repeat split.
Qed.

(** C5.  A 50 by 50 reference and a 100 by 100 candidate compared with
    [scaleToSameSize] on: the comparison resolves, reports that the
    dimensions are not the same and a difference of 50 by 50, the one of the
    images as they came, and the diff image written is 100 by 100. *)
Theorem scaled_comparison_dimensions (image1Path image2Path : string) (options : Options)
    (w : World) (bs1 bs2 : list byte) (reference candidate : RasterImage) :
  files w !! image1Path = Some bs1 -> files w !! image2Path = Some bs2 ->
  decode bs1 = Some reference -> decode bs2 = Some candidate ->
  img_width reference = 50%nat -> img_height reference = 50%nat ->
  img_width candidate = 100%nat -> img_height candidate = 100%nat ->
  default true (opt_scaleToSameSize options) = true ->
  exists r w2 diff,
    compareImages (spec_engine decode encode) image1Path image2Path options w
      = (Resolved r, w2) /\
    isSameDimensions r = Some false /\
    dimensionDifference r = Some {| dim_width := 50; dim_height := 50 |} /\
    files w2 !! diff_path image1Path = Some (encode diff) /\
    img_width diff = 100%nat /\ img_height diff = 100%nat.
Proof.
  intros H1 H2 Hd1 Hd2 Hw1 Hh1 Hw2 Hh2 Hscale.
  set (call := engine_call image1Path image2Path options).
  set (policy := policy_of call).
  set (a := resample reference 100 100). set (b := resample candidate 100 100).
  assert (compare_spec (Date_now_iso w) policy reference candidate = inr {|
            mismatchPercentage := rawMismatchPercentage_of policy a b;
            spec_rawMismatchPercentage := rawMismatchPercentage_of policy a b;
            spec_isSameDimensions := false;
            dimensionDelta := Some {| dim_width := 50; dim_height := 50 |};
            diffImage := render_diff policy a b;
            computedAt := Date_now_iso w |}) as Hc.
  { unfold compare_spec, normalize_size, same_dimensions, dimension_delta.
    rewrite Hw1, Hh1, Hw2, Hh2. cbn [Nat.eqb andb Nat.max].
    assert (policy_scaleToSameSize policy = true) as -> by exact Hscale.
    reflexivity. }
  pose proof (spec_engine_completed call w bs1 bs2 reference candidate _ H1 H2 Hd1 Hd2 Hc) as He.
  eexists _, _, (render_diff policy a b). split.
  - apply compareImages_completed;
      [by apply existsSync_true|by apply existsSync_true|exact He|done].
  - cbn [isSameDimensions dimensionDifference data_isSameDimensions data_dimensionDifference
         spec_isSameDimensions dimensionDelta data_getBuffer diffImage writeFileSync files].
    repeat split. apply lookup_insert_eq.
Qed.




(** C2.  Two files that decode to images of different dimensions, compared
    with [scaleToSameSize] switched off: the comparison rejects with the
    [DimensionMismatch] of the Size Normalizer, as the engine threw it, and
    the world is as it was: no diff image has been written. *)
Theorem dimension_mismatch_rejected (image1Path image2Path : string) (options : Options)
    (w : World) (bs1 bs2 : list byte) (reference candidate : RasterImage) :
  files w !! image1Path = Some bs1 -> files w !! image2Path = Some bs2 ->
  decode bs1 = Some reference -> decode bs2 = Some candidate ->
  img_width reference <> img_width candidate \/ img_height reference <> img_height candidate ->
  opt_scaleToSameSize options = Some false ->
  call_scaleToSameSize (engine_call image1Path image2Path options) = false /\
  compareImages (spec_engine decode encode) image1Path image2Path options w
    = (Rejected {| message := "DimensionMismatch" |}, w).
Proof.
  intros H1 H2 Hd1 Hd2 Hdim Hscale.
  assert (call_scaleToSameSize (engine_call image1Path image2Path options) = false) as Hcall.
  { cbn. by rewrite Hscale. }
  split; [done|].
  apply compareImages_threw; [by apply existsSync_true|by apply existsSync_true|].
  unfold spec_engine.
  change (call_image1 (engine_call image1Path image2Path options)) with image1Path.
  change (call_image2 (engine_call image1Path image2Path options)) with image2Path.
  rewrite H1, H2. cbn [mbind option_bind]. rewrite Hd1, Hd2.
  unfold compare_spec, normalize_size.
  assert (same_dimensions reference candidate = false) as ->.
  { unfold same_dimensions. apply andb_false_iff.
    destruct Hdim as [Hd|Hd]; [left|right]; by apply Nat.eqb_neq. }
  assert (policy_scaleToSameSize (policy_of (engine_call image1Path image2Path options)) = false)
    as -> by exact Hcall.
  reflexivity.
Qed.
End SpecEngineProperties.

Lemma identical_images_match_witness :
  exists r w2,
    compareImages (spec_engine gray_decode gray_encode) figma_path code_path no_options
      same_bytes_world = (Resolved r, w2) /\
    misMatchPercentage r = num_of_Z 0 /\
    report_misMatchPercentage (build_response r w2) = Str "0.00" /\
    matchScore (build_response r w2) = Str "100.00".
Proof.
  apply (identical_images_match gray_decode gray_encode figma_path code_path no_options
           same_bytes_world [x03; x01; x00; x64; xc8] smooth_edge).
  - vm_compute. reflexivity.
  - vm_compute. reflexivity.
  - reflexivity.
  - repeat split; simpl; lia.
Defined.

Lemma scaled_comparison_dimensions_witness :
  exists r w2 diff,
    compareImages (spec_engine gray_decode gray_encode) figma_path code_path no_options
      two_sizes_world = (Resolved r, w2) /\
    isSameDimensions r = Some false /\
    dimensionDifference r = Some {| dim_width := 50; dim_height := 50 |} /\
    files w2 !! diff_path figma_path = Some (gray_encode diff) /\
    img_width diff = 100%nat /\ img_height diff = 100%nat.
Proof.
  apply (scaled_comparison_dimensions gray_decode gray_encode figma_path code_path no_options
           two_sizes_world (x32 :: x32 :: repeat x80 (50 * 50))
           (x64 :: x64 :: repeat x80 (100 * 100)) small_reference large_candidate).
  - vm_compute. reflexivity.
  - vm_compute. reflexivity.
  - vm_compute. reflexivity.
  - vm_compute. reflexivity.
  - reflexivity.
  - reflexivity.
  - reflexivity.
  - reflexivity.
  - reflexivity.
Defined.


Lemma dimension_mismatch_rejected_witness :
  call_scaleToSameSize (engine_call figma_path code_path no_scaling) = false /\
  compareImages (spec_engine gray_decode gray_encode) figma_path code_path no_scaling
    two_sizes_world = (Rejected {| message := "DimensionMismatch" |}, two_sizes_world).
Proof.
  apply (dimension_mismatch_rejected gray_decode gray_encode figma_path code_path no_scaling
           two_sizes_world (x32 :: x32 :: repeat x80 (50 * 50))
           (x64 :: x64 :: repeat x80 (100 * 100)) small_reference large_candidate).
  - vm_compute. reflexivity.
  - vm_compute. reflexivity.
  - vm_compute. reflexivity.
  - vm_compute. reflexivity.
  - left. cbn. lia.
  - reflexivity.
Defined.

(** The two edges end to end: a third of the pixels differs; with
    ["antialiasing"] ignored none is counted. *)
Example edges_end_to_end :
  (exists r w2,
     compareImages (spec_engine gray_decode gray_encode) figma_path code_path
       {| opt_output := None; opt_scaleToSameSize := None; opt_ignore := Some [] |}
       edges_world = (Resolved r, w2) /\
     report_misMatchPercentage (build_response r w2) = Str "33.33" /\
     matchScore (build_response r w2) = Str "66.67") /\
  (exists r w2,
     compareImages (spec_engine gray_decode gray_encode) figma_path code_path
       {| opt_output := None; opt_scaleToSameSize := None;
          opt_ignore := Some ["antialiasing"] |}
       edges_world = (Resolved r, w2) /\
     report_misMatchPercentage (build_response r w2) = Str "0.00" /\
     matchScore (build_response r w2) = Str "100.00").
Proof.
  split; eexists _, _; (split; [vm_compute; reflexivity|split; vm_compute; reflexivity]).
Qed.

(** Black against white: no pixel is a blend of its neighbours, and the
    mismatch is 100 with and without ["antialiasing"] in the [ignore] list. *)
Example black_against_white :
  (exists r w2,
     compareImages (spec_engine gray_decode gray_encode) figma_path code_path no_options
       black_white_world = (Resolved r, w2) /\
     report_misMatchPercentage (build_response r w2) = Str "100.00" /\
     matchScore (build_response r w2) = Str "0.00") /\
  (exists r w2,
     compareImages (spec_engine gray_decode gray_encode) figma_path code_path
       {| opt_output := None; opt_scaleToSameSize := None; opt_ignore := Some [] |}
       black_white_world = (Resolved r, w2) /\
     report_misMatchPercentage (build_response r w2) = Str "100.00" /\
     matchScore (build_response r w2) = Str "0.00").
Proof.
  split; eexists _, _; (split; [vm_compute; reflexivity|split; vm_compute; reflexivity]).
Qed.

(** * More of the code *)

(** ** compare.js: the detailed analysis *)

Lemma num_1_eq : num_of_Z 1 = S754_finite false 4503599627370496 (-52).
Proof. reflexivity. Qed.
Lemma num_5_eq : num_of_Z 5 = S754_finite false 5629499534213120 (-50).
Proof. reflexivity. Qed.
Lemma num_10_eq : num_of_Z 10 = S754_finite false 5629499534213120 (-49).
Proof. reflexivity. Qed.

(** The grades of a mismatch [m], as [compareImagesDetailed] computes them. *)
Lemma quality_grades m :
  let excellent := num_le m (num_of_Z 1) in
  let good := num_le m (num_of_Z 5) in
  let acceptable := num_le m (num_of_Z 10) in
  let poor := num_lt (num_of_Z 10) m in
  (excellent = true -> good = true) /\
  (good = true -> acceptable = true) /\
  (m <> NaN -> poor = negb acceptable) /\
  (m = NaN -> excellent = false /\ good = false /\ acceptable = false /\ poor = false).
Proof.
  cbv zeta. rewrite num_1_eq, num_5_eq, num_10_eq. unfold num_le, num_lt, SFleb, SFltb.
  destruct m as [s|s| |s m e]; cbn [SFcompare].
  - repeat split; try done.
  - destruct s; repeat split; try done.
  - repeat split; try done.
  - destruct s; [repeat split; done|].
    destruct (Z.compare_spec e (-52)), (Z.compare_spec e (-50)), (Z.compare_spec e (-49)),
      (Z.compare_spec (-49) e); try lia; subst; repeat split; try done.
    all: try (by destruct (Pos.compare_cont Eq m _)).
    intros _. change (Pos.compare_cont Eq 5629499534213120 m) with (5629499534213120 ?= m)%positive.
    rewrite (Pos.compare_antisym m).
    by destruct (Pos.compare_cont Eq m _) eqn:E; unfold Pos.compare; rewrite E.
Qed.

Lemma detailed_resolved resemble mtime_of p1 p2 options w a w' :
  compareImagesDetailed resemble mtime_of p1 p2 options w = (Resolved a, w') ->
  exists c1 c2,
    compareImages resemble p1 p2 options w = (Resolved (detailed_result a), w') /\
    files w' !! p1 = Some c1 /\ files w' !! p2 = Some c2 /\
    fileInfo_image1 a = {| info_path := p1; info_size := Z.of_nat (length c1);
                           info_modified := mtime_of p1 w' |} /\
    fileInfo_image2 a = {| info_path := p2; info_size := Z.of_nat (length c2);
                           info_modified := mtime_of p2 w' |} /\
    let m := misMatchPercentage (detailed_result a) in
    quality a = {| excellent := num_le m (num_of_Z 1); good := num_le m (num_of_Z 5);
                   acceptable := num_le m (num_of_Z 10); poor := num_lt (num_of_Z 10) m |} /\
    recommendations a =
      (if num_le m (num_of_Z 1) then
         "Excellent match! The implementation is very close to the design."
       else if num_le m (num_of_Z 5) then
         "Good match. Minor adjustments may be needed for pixel-perfect implementation."
       else if num_le m (num_of_Z 10) then
         "Acceptable match. Consider reviewing layout, spacing, and styling."
       else
         "Significant differences detected. Review the design implementation thoroughly.")
      :: (if not_flag (isSameDimensions (detailed_result a)) then
            ["Images have different dimensions. Ensure consistent viewport sizes."]
          else []).
Proof.
  unfold compareImagesDetailed, statSync.
  destruct (compareImages _ _ _ _ _) as [[r|e] w1]; [|done].
  destruct (files w1 !! p1) as [c1|] eqn:E1; [|done].
  destruct (files w1 !! p2) as [c2|] eqn:E2; [|done].
  intros [= <- <-]. exists c1, c2. cbn. by rewrite E1, E2.
Qed.

(** X4.  The quality flags of [compareImagesDetailed] are nested: a match
    that is excellent is also good, and one that is good is also acceptable.
    For every mismatch that is a number [poor] is the opposite of
    [acceptable]; for a mismatch that is not a number all four flags are
    false. *)
Theorem detailed_quality_grades resemble mtime_of p1 p2 options w a w' :
  compareImagesDetailed resemble mtime_of p1 p2 options w = (Resolved a, w') ->
  let m := misMatchPercentage (detailed_result a) in
  (excellent (quality a) = true -> good (quality a) = true) /\
  (good (quality a) = true -> acceptable (quality a) = true) /\
  (m <> NaN -> poor (quality a) = negb (acceptable (quality a))) /\
  (m = NaN -> excellent (quality a) = false /\ good (quality a) = false /\
              acceptable (quality a) = false /\ poor (quality a) = false).
Proof.
  intros (c1 & c2 & _ & _ & _ & _ & _ & Hq & _)%detailed_resolved m.
  cbv zeta in Hq. rewrite Hq. cbn [excellent good acceptable poor].
  apply quality_grades.
Qed.

Lemma detailed_quality_grades_witness :
  let m := misMatchPercentage (detailed_result sized_analysis) in
  (excellent (quality sized_analysis) = true -> good (quality sized_analysis) = true) /\
  (good (quality sized_analysis) = true -> acceptable (quality sized_analysis) = true) /\
  (m <> NaN -> poor (quality sized_analysis) = negb (acceptable (quality sized_analysis))) /\
  (m = NaN -> excellent (quality sized_analysis) = false /\ good (quality sized_analysis) = false /\
              acceptable (quality sized_analysis) = false /\ poor (quality sized_analysis) = false).
Proof.
  apply (detailed_quality_grades sized_engine sample_mtime figma_path code_path no_options
           sample_world sized_analysis sized_world).
  vm_compute. reflexivity.
Defined.

(** X5.  The recommendations of [compareImagesDetailed] start with one
    sentence for the grade: the one of the best flag that holds, and the one
    about significant differences exactly when the match is not acceptable,
    which includes a mismatch that is not a number, for which [poor] is
    false.  The sentence about the dimensions follows exactly when
    [isSameDimensions] is not [true]. *)
Theorem detailed_recommendations resemble mtime_of p1 p2 options w a w' :
  compareImagesDetailed resemble mtime_of p1 p2 options w = (Resolved a, w') ->
  exists first,
    recommendations a =
      first :: (if not_flag (isSameDimensions (detailed_result a))
                then ["Images have different dimensions. Ensure consistent viewport sizes."]
                else []) /\
    (first = "Excellent match! The implementation is very close to the design."
       <-> excellent (quality a) = true) /\
    (first = "Good match. Minor adjustments may be needed for pixel-perfect implementation."
       <-> excellent (quality a) = false /\ good (quality a) = true) /\
    (first = "Acceptable match. Consider reviewing layout, spacing, and styling."
       <-> good (quality a) = false /\ acceptable (quality a) = true) /\
    (first = "Significant differences detected. Review the design implementation thoroughly."
       <-> acceptable (quality a) = false).
Proof.
  intros (c1 & c2 & _ & _ & _ & _ & _ & Hq & Hr)%detailed_resolved.
  cbv zeta in Hq, Hr. rewrite Hq, Hr. cbn [excellent good acceptable poor].
  pose proof (quality_grades (misMatchPercentage (detailed_result a))) as (H1 & H2 & _).
  cbv zeta in H1, H2.
  eexists. split; [reflexivity|].
  destruct (num_le _ (num_of_Z 1)).
  { rewrite H1 in * by done. rewrite H2 by done. repeat split; try done; by intros []. }
  destruct (num_le _ (num_of_Z 5)).
  { rewrite H2 by done. repeat split; try done; by intros []. }
  destruct (num_le _ (num_of_Z 10)); repeat split; try done; by intros [].
Qed.

Lemma detailed_recommendations_witness :
  exists first,
    recommendations sized_analysis =
      first :: (if not_flag (isSameDimensions (detailed_result sized_analysis))
                then ["Images have different dimensions. Ensure consistent viewport sizes."]
                else []) /\
    (first = "Excellent match! The implementation is very close to the design."
       <-> excellent (quality sized_analysis) = true) /\
    (first = "Good match. Minor adjustments may be needed for pixel-perfect implementation."
       <-> excellent (quality sized_analysis) = false /\ good (quality sized_analysis) = true) /\
    (first = "Acceptable match. Consider reviewing layout, spacing, and styling."
       <-> good (quality sized_analysis) = false /\ acceptable (quality sized_analysis) = true) /\
    (first = "Significant differences detected. Review the design implementation thoroughly."
       <-> acceptable (quality sized_analysis) = false).
Proof.
  apply (detailed_recommendations sized_engine sample_mtime figma_path code_path no_options
           sample_world sized_analysis sized_world).
  vm_compute. reflexivity.
Defined.

(** ** screenshot.js: one attempt and the retries *)

(** The [try] and the [catch]: nothing is written and the error has the
    prefix, or the capture is written and decides. *)
Lemma screenshot_steps_cases no_response outcome outputPath w1 r w2 :
  screenshot_steps no_response outcome outputPath w1 = (r, w2) ->
  (w2 = w1 /\ exists msg, r = Rejected (screenshot_failed msg)) \/
  (exists png, w2 = writeFileSync outputPath png w1 /\
               (png = [] -> r = Rejected (screenshot_failed "Screenshot file is empty")) /\
               (png <> [] -> r = Resolved tt)).
Proof.
  induction outcome as [e|st txt|png| |e before IH]; cbn [screenshot_steps].
  - intros [= <- <-]. left. split; [done|by eexists].
  - intros [= <- <-]. left. split; [done|by eexists].
  - destruct png as [|b png]; intros [= <- <-]; right; eexists; (split; [reflexivity|]);
      split; done.
  - intros [= <- <-]. left. split; [done|by eexists].
  - exact IH.
Qed.


Lemma takeScreenshot_resolved browser pageUrl outputPath w u w' :
  takeScreenshot browser pageUrl outputPath w = (Resolved u, w') ->
  exists url png w1,
    pageUrl = JsString url /\ url <> "" /\ png <> [] /\
    browser url w = (Captured png, w1) /\
    w' = writeFileSync outputPath png w1.
Proof.
  unfold takeScreenshot. destruct pageUrl as [|x|url]; try done.
  cbn [falsy]. case_bool_decide as Hu; [done|].
  destruct (browser url w) as [[e|st txt|png| |e before] w1] eqn:Hb;
    cbn [screenshot_steps]; try done.
  - destruct png as [|b png]; [done|]. intros [= <- <-].
    by exists url, (b :: png), w1.
  - by destruct (screenshot_steps _ before outputPath w1).
Qed.

(** An error of [takeScreenshot] has the prefix of its [catch], or it is the
    error of [browser.close()]. *)
Lemma takeScreenshot_rejected browser pageUrl outputPath w e w' :
  takeScreenshot browser pageUrl outputPath w = (Rejected e, w') ->
  (exists msg, e = screenshot_failed msg) \/
  (exists url before w1, pageUrl = JsString url /\ browser url w = (CloseThrew e before, w1)).
Proof.
  unfold takeScreenshot.
  destruct pageUrl as [|x|url]; try (intros [= <- <-]; left; by eexists).
  destruct (falsy _); [intros [= <- <-]; left; by eexists|].
  destruct (browser url w) as [outcome w1] eqn:Hb.
  destruct (screenshot_steps _ outcome outputPath w1) as [r w2] eqn:Hs.
  apply screenshot_steps_cases in Hs.
  assert (r = Rejected e -> exists msg, e = screenshot_failed msg) as Hpre.
  { intros ->. destruct Hs as [[_ [msg [= ->]]]|(png & _ & He & Hn)]; [by exists msg|].
    destruct png as [|b0 png]; [specialize (He eq_refl); injection He as ->; by eexists|].
    by specialize (Hn ltac:(done)). }
  destruct outcome as [e0|st txt|png| |e0 before];
    try (intros [= -> <-]; left; by apply Hpre).
  intros [= <- <-]. right. by exists url, before, w1.
Qed.

(** The variant for small hosts: every error has the prefix. *)
Lemma takeScreenshot_small_rejected browser pageUrl outputPath w e w' :
  takeScreenshot_small browser pageUrl outputPath w = (Rejected e, w') ->
  exists msg, e = screenshot_failed msg.
Proof.
  unfold takeScreenshot_small.
  destruct pageUrl as [|x|url]; try (intros [= <- <-]; by eexists).
  destruct (falsy _); [intros [= <- <-]; by eexists|].
  destruct (browser url w) as [outcome w1] eqn:Hb.
  intros [[_ [msg [= ->]]]|(png & _ & He & Hn)]%screenshot_steps_cases; [by exists msg|].
  destruct png as [|b0 png]; [specialize (He eq_refl); injection He as ->; by eexists|].
  by specialize (Hn ltac:(done)).
Qed.




(** When [browser.close()] rejects after a good capture, the screenshot is
    on disk and the call rejects with the error of [close], without the
    prefix; the variant for small hosts resolves. *)
Example close_rejects_after_capture :
  let written := writeFileSync code_path (png_signature ++ [x02]) sample_world in
  takeScreenshot closing_badly (JsString "http://localhost:3000") code_path sample_world
    = (Rejected {| message := "Protocol error: Connection closed." |}, written) /\
  takeScreenshot_small closing_badly (JsString "http://localhost:3000") code_path sample_world
    = (Resolved tt, written) /\
  files written !! code_path = Some (png_signature ++ [x02]).
Proof. by vm_compute. Qed.

Section RetryProperties.
Variable attempt_once : World -> Outcome unit * World.
Variable what : string.
Variable base : Z.
Variable maxRetries : Z.

(** What holds of the world after a successful attempt holds after a
    successful retry loop. *)
Lemma retry_from_resolved (P : World -> Prop) fuel attempt lastError w u w' :
  (forall w0 u0 w1, attempt_once w0 = (Resolved u0, w1) -> P w1) ->
  retry_from attempt_once what base maxRetries fuel attempt lastError w = (Resolved u, w') ->
  P w'.
Proof.
  intros HP. revert attempt lastError w.
  induction fuel as [|k IH]; intros attempt lastError w; cbn [retry_from]; [done|].
  destruct (attempt <=? maxRetries); [|done].
  destruct (attempt_once w) as [[u0|e] w1] eqn:Ha.
  - intros [= <- <-]. by eapply HP.
  - apply IH.
Qed.

(** A retry loop that gives up reports the error of an attempt, or never
    made one. *)
Lemma retry_from_rejected fuel attempt lastError w e w' :
  retry_from attempt_once what base maxRetries fuel attempt lastError w = (Rejected e, w') ->
  (e = retry_exhausted what maxRetries lastError /\ w' = w) \/
  exists w0 e0 w1, attempt_once w0 = (Rejected e0, w1) /\
                   e = retry_exhausted what maxRetries (Some e0).
Proof.
  revert attempt lastError w.
  induction fuel as [|k IH]; intros attempt lastError w; cbn [retry_from].
  { intros [= <- <-]. by left. }
  destruct (attempt <=? maxRetries); [|intros [= <- <-]; by left].
  destruct (attempt_once w) as [[u0|e0] w1] eqn:Ha; [done|].
  intros Hr. apply IH in Hr as [[-> ->]|Hr]; [|by right].
  right. by exists w, e0, w1.
Qed.

Lemma attempt_start_next now d attempt j :
  0 <= attempt -> attempt <= j ->
  attempt_start base (now + d + 2 ^ attempt * base) d (attempt + 1) j
  = attempt_start base now d attempt j.
Proof.
  intros Ha Hj. unfold attempt_start. rewrite (Z.pow_add_r 2 attempt 1) by lia. lia.
Qed.

(** When the attempts before attempt [k] fail, each at its moment, the loop
    comes to attempt [k] at the moment of that attempt. *)
Lemma retry_from_reaches d (fuel : nat) attempt k lastError w :
  (forall w0, clock (attempt_once w0).2 = clock w0 + d) ->
  1 <= base -> 2 ^ (maxRetries - 1) * base <= TIMEOUT_MAX ->
  1 <= attempt <= k -> k <= maxRetries ->
  attempt + Z.of_nat fuel = maxRetries + 1 ->
  (forall j w0, attempt <= j < k -> clock w0 = attempt_start base (clock w) d attempt j ->
                exists e, (attempt_once w0).1 = Rejected e) ->
  exists (rest : nat) lastError' wk,
    k + Z.of_nat rest = maxRetries + 1 /\
    clock wk = attempt_start base (clock w) d attempt k /\
    retry_from attempt_once what base maxRetries fuel attempt lastError w
    = retry_from attempt_once what base maxRetries rest k lastError' wk.
Proof.
  intros Hd Hbase Hmax. revert attempt lastError w.
  induction fuel as [|f IH]; intros attempt lastError w Ha Hk Hfuel Hfail; [lia|].
  destruct (Z.eq_dec attempt k) as [->|Hne].
  { exists (S f), lastError, w. split; [done|]. split; [|done].
    unfold attempt_start. lia. }
  cbn [retry_from]. rewrite (proj2 (Z.leb_le _ _)) by lia.
  destruct (Hfail attempt w) as [e He]; [lia|unfold attempt_start; lia|].
  pose proof (Hd w) as Hc.
  destruct (attempt_once w) as [r w1]. cbn [fst snd] in He, Hc. subst r.
  rewrite (proj2 (Z.ltb_lt _ _)) by lia.
  assert (clock (sleep (2 ^ attempt * base) w1) = clock w + d + 2 ^ attempt * base) as Hs.
  { unfold sleep; cbn [clock]. rewrite Hc.
    assert (1 <= 2 ^ attempt * base <= TIMEOUT_MAX) as [H1 H2].
    { pose proof (Z.pow_pos_nonneg 2 attempt ltac:(lia) ltac:(lia)).
      pose proof (Z.pow_le_mono_r 2 attempt (maxRetries - 1) ltac:(lia) ltac:(lia)).
      split; nia. }
    by rewrite (proj2 (Z.leb_le _ _) H1), (proj2 (Z.leb_le _ _) H2). }
  destruct (IH (attempt + 1) (Some e) (sleep (2 ^ attempt * base) w1))
    as (rest & le' & wk & Hrest & Hwk & Heq); [lia|lia|lia| |].
  - intros j w0 Hj Hw0. apply (Hfail j w0); [lia|].
    rewrite Hw0, Hs. apply attempt_start_next; lia.
  - exists rest, le', wk. split; [done|]. split; [|done].
    rewrite Hwk, Hs. apply attempt_start_next; lia.
Qed.

(** The loop resolves with the first attempt that resolves, at the end of
    that attempt. *)
Lemma retry_from_first_success d (fuel : nat) attempt k lastError w :
  (forall w0, clock (attempt_once w0).2 = clock w0 + d) ->
  1 <= base -> 2 ^ (maxRetries - 1) * base <= TIMEOUT_MAX ->
  1 <= attempt <= k -> k <= maxRetries ->
  attempt + Z.of_nat fuel = maxRetries + 1 ->
  (forall j w0, attempt <= j < k -> clock w0 = attempt_start base (clock w) d attempt j ->
                exists e, (attempt_once w0).1 = Rejected e) ->
  (forall w0, clock w0 = attempt_start base (clock w) d attempt k ->
              exists u, (attempt_once w0).1 = Resolved u) ->
  exists w',
    retry_from attempt_once what base maxRetries fuel attempt lastError w = (Resolved tt, w') /\
    clock w' = attempt_start base (clock w) d attempt k + d.
Proof.
  intros Hd Hbase Hmax Ha Hk Hfuel Hfail Hok.
  destruct (retry_from_reaches d fuel attempt k lastError w)
    as (rest & le' & wk & Hrest & Hwk & ->); try done.
  destruct rest as [|rest]; [lia|]. cbn [retry_from].
  rewrite (proj2 (Z.leb_le _ _)) by lia.
  destruct (Hok wk Hwk) as [u Hu]. pose proof (Hd wk) as Hc.
  destruct (attempt_once wk) as [r w1]. cbn [fst snd] in Hu, Hc. subst r.
  exists w1. split; [done|]. by rewrite Hc, Hwk.
Qed.

(** When every attempt fails, each at its moment, the loop gives up at the
    end of the last attempt, without a wait after it, and reports the error
    of that attempt. *)
Lemma retry_from_never_success d (fuel : nat) attempt lastError w :
  (forall w0, clock (attempt_once w0).2 = clock w0 + d) ->
  1 <= base -> 2 ^ (maxRetries - 1) * base <= TIMEOUT_MAX ->
  1 <= attempt <= maxRetries ->
  attempt + Z.of_nat fuel = maxRetries + 1 ->
  (forall j w0, attempt <= j <= maxRetries ->
                clock w0 = attempt_start base (clock w) d attempt j ->
                exists e, (attempt_once w0).1 = Rejected e) ->
  exists w0 e w',
    clock w0 = attempt_start base (clock w) d attempt maxRetries /\
    attempt_once w0 = (Rejected e, w') /\
    retry_from attempt_once what base maxRetries fuel attempt lastError w
    = (Rejected (retry_exhausted what maxRetries (Some e)), w') /\
    clock w' = attempt_start base (clock w) d attempt maxRetries + d.
Proof.
  intros Hd Hbase Hmax Ha Hfuel Hfail.
  destruct (retry_from_reaches d fuel attempt maxRetries lastError w)
    as (rest & le' & wk & Hrest & Hwk & ->); try done; try lia.
  { intros j w0 Hj. apply Hfail. lia. }
  destruct rest as [|[|rest]]; [lia| |lia]. cbn [retry_from].
  rewrite Z.leb_refl, Z.ltb_irrefl.
  destruct (Hfail maxRetries wk) as [e He]; [lia|done|]. pose proof (Hd wk) as Hc.
  destruct (attempt_once wk) as [r w1] eqn:Hat. cbn [fst snd] in He, Hc. subst r.
  exists wk, e, w1. split; [done|]. split; [done|]. split; [done|]. by rewrite Hc, Hwk.
Qed.
End RetryProperties.

Lemma retry_loop_rejected attempt_once what base maxRetries w e w' :
  retry_loop attempt_once what base maxRetries w = (Rejected e, w') ->
  (maxRetries <= 0 /\ e = retry_exhausted what maxRetries None /\ w' = w) \/
  (1 <= maxRetries /\
   exists w0 e0 w1, attempt_once w0 = (Rejected e0, w1) /\
                    e = retry_exhausted what maxRetries (Some e0)).
Proof.
  unfold retry_loop. destruct (Z.to_nat maxRetries) as [|k] eqn:Hn.
  - cbn [retry_from]. intros [= <- <-]. left. split; [lia|done].
  - cbn [retry_from]. rewrite (proj2 (Z.leb_le 1 maxRetries)) by lia.
    destruct (attempt_once w) as [[u|e0] w1] eqn:Ha; [done|].
    intros [[-> ->]|H]%retry_from_rejected; right; (split; [lia|]); [|done].
    by exists w, e0, w1.
Qed.

(** X7.  When [takeScreenshotWithRetry] gives up, it has made an attempt and
    reports the number of attempts and the error of the last one, which is
    an error of [takeScreenshot]: one with the prefix of its [catch], or the
    error [browser.close()] rejected with, as it is.  Asked for no attempt at
    all, it makes none and fails on the error it never had. *)
Theorem takeScreenshotWithRetry_gives_up (browser : Browser) (pageUrl : JsValue)
    (outputPath : string) (maxRetries : option Z) (w w' : World) (e : JsError) :
  takeScreenshotWithRetry browser pageUrl outputPath maxRetries w = (Rejected e, w') ->
  let n := default 3 maxRetries in
  (n <= 0 /\ w' = w /\
   message e = "Cannot read properties of undefined (reading 'message')") \/
  (1 <= n /\ exists last w0 w1,
     takeScreenshot browser pageUrl outputPath w0 = (Rejected last, w1) /\
     message e = "Failed to take screenshot after " +:+ show_Z n
                 +:+ " attempts. Last error: " +:+ message last /\
     ((exists msg, message last = "Failed to take screenshot: " +:+ msg) \/
      (exists url before wb,
         pageUrl = JsString url /\ browser url w0 = (CloseThrew last before, wb)))).
Proof.
  intros [(Hn & -> & ->)|(Hn & w0 & e0 & w1 & Ha & ->)]%retry_loop_rejected n.
  - by left.
  - right. split; [done|]. exists e0, w0, w1. split; [done|]. split; [done|].
    apply takeScreenshot_rejected in Ha as [[msg ->]|H]; [left; by exists msg|by right].
Qed.

Lemma takeScreenshotWithRetry_gives_up_witness :
  let n := default 3 (Some 2) in
  let browser := unreachable_browser in
  let pageUrl := JsString "http://localhost:3000" in
  (n <= 0 /\ retried_world = sample_world /\
   message retried_error = "Cannot read properties of undefined (reading 'message')") \/
  (1 <= n /\ exists last w0 w1,
     takeScreenshot browser pageUrl code_path w0 = (Rejected last, w1) /\
     message retried_error = "Failed to take screenshot after " +:+ show_Z n
                 +:+ " attempts. Last error: " +:+ message last /\
     ((exists msg, message last = "Failed to take screenshot: " +:+ msg) \/
      (exists url before wb,
         pageUrl = JsString url /\ browser url w0 = (CloseThrew last before, wb)))).
Proof.
  apply (takeScreenshotWithRetry_gives_up unreachable_browser (JsString "http://localhost:3000")
           code_path (Some 2) sample_world retried_world retried_error).
  vm_compute. reflexivity.
Defined.

(** The variant for small hosts makes two attempts by default, and the error
    it reports always repeats the prefix. *)
Lemma takeScreenshotWithRetry_small_gives_up browser pageUrl outputPath maxRetries w w' e :
  takeScreenshotWithRetry_small browser pageUrl outputPath maxRetries w = (Rejected e, w') ->
  let n := default 2 maxRetries in
  (n <= 0 /\ w' = w /\
   message e = "Cannot read properties of undefined (reading 'message')") \/
  (1 <= n /\ exists msg,
     message e = "Failed to take screenshot after " +:+ show_Z n
                 +:+ " attempts. Last error: Failed to take screenshot: " +:+ msg).
Proof.
  intros [(Hn & -> & ->)|(Hn & w0 & e0 & w1 & Ha & ->)]%retry_loop_rejected n.
  - by left.
  - right. split; [done|]. apply takeScreenshot_small_rejected in Ha as [msg ->].
    by exists msg.
Qed.

(** With a browser whose [close] rejects at every attempt, the error of
    [close] is what the retries report, although every capture was written. *)
Example retries_report_close_error :
  exists w',
    takeScreenshotWithRetry closing_badly (JsString "http://localhost:3000") code_path
      (Some 2) sample_world
    = (Rejected {| message := "Failed to take screenshot after 2 attempts. Last error: "
                              +:+ "Protocol error: Connection closed." |}, w') /\
    files w' !! code_path = Some (png_signature ++ [x02]).
Proof. eexists. split; by vm_compute. Qed.

(** X8.  When a retry resolves, an attempt has resolved: the screenshot is on
    disk and not empty. *)
Theorem takeScreenshotWithRetry_resolved (browser : Browser) (pageUrl : JsValue)
    (outputPath : string) (maxRetries : option Z) (w w' : World) (u : unit) :
  takeScreenshotWithRetry browser pageUrl outputPath maxRetries w = (Resolved u, w') ->
  exists png, files w' !! outputPath = Some png /\ png <> [].
Proof.
  unfold takeScreenshotWithRetry, retry_loop.
  apply (retry_from_resolved _ _ _ _
           (fun w' => exists png, files w' !! outputPath = Some png /\ png <> [])).
  intros w0 u0 w1 (url & png & w2 & _ & _ & Hne & _ & ->)%takeScreenshot_resolved.
  exists png. split; [apply lookup_insert_eq|done].
Qed.

Lemma takeScreenshotWithRetry_resolved_witness :
  exists png,
    files (writeFileSync code_path (png_signature ++ [x02]) sample_world) !! code_path = Some png /\
    png <> [].
Proof.
  apply (takeScreenshotWithRetry_resolved sample_browser (JsString "http://localhost:3000")
           code_path None sample_world _ tt).
  reflexivity.
Defined.

(** One attempt takes as long as the browser does. *)
Lemma takeScreenshot_clock browser url outputPath d :
  (forall w0, clock (browser url w0).2 = clock w0 + d) ->
  url <> "" ->
  forall w0, clock (takeScreenshot browser (JsString url) outputPath w0).2 = clock w0 + d.
Proof.
  intros Hd Hurl w0. unfold takeScreenshot. cbn [falsy].
  rewrite bool_decide_eq_false_2 by done.
  specialize (Hd w0). destruct (browser url w0) as [outcome w1]. cbn [snd] in Hd.
  destruct (screenshot_steps _ outcome outputPath w1) as [r w2] eqn:Hs.
  assert (clock w2 = clock w1) as Hc.
  { apply screenshot_steps_cases in Hs as [[-> _]|(png & -> & _)]; done. }
  destruct outcome; cbn [snd]; by rewrite Hc.
Qed.

(** X9.  The schedule of [takeScreenshotWithRetry], for [n] attempts at
    most, [n] between 1 and 22, with a browser that takes [d] milliseconds
    whatever it comes to.  Attempt [j] begins
    [(j - 1) * d + 1000 * (2^j - 2)] milliseconds after the call: the wait
    after attempt [j] is [2^j] seconds.  When the browser throws at the
    moments of the attempts before attempt [k], then the call resolves at the
    end of attempt [k] if the browser captures the page at the moment of that
    attempt; and if it throws then as well and [k] is the last attempt, the
    call gives up at the end of that attempt, without a wait after it, and
    reports the error of that attempt.  What the browser does at other
    moments does not matter. *)
Theorem takeScreenshotWithRetry_backoff (browser : Browser) (url outputPath : string)
    (maxRetries : option Z) (d : Z) (w : World) (k : Z) :
  let n := default 3 maxRetries in
  let start := fun j : Z => clock w + (j - 1) * d + 1000 * (2 ^ j - 2) in
  url <> "" -> 1 <= k <= n -> n <= 22 ->
  (forall w0, clock (browser url w0).2 = clock w0 + d) ->
  (forall j w0, 1 <= j < k -> clock w0 = start j ->
                exists e, (browser url w0).1 = BrowserThrew e) ->
  ((forall w0, clock w0 = start k ->
               exists png, png <> [] /\ (browser url w0).1 = Captured png) ->
   exists w',
     takeScreenshotWithRetry browser (JsString url) outputPath maxRetries w
     = (Resolved tt, w') /\
     clock w' = start k + d) /\
  ((forall w0, clock w0 = start k -> exists e, (browser url w0).1 = BrowserThrew e) ->
   k = n ->
   exists w0 thrown w',
     clock w0 = start n /\ (browser url w0).1 = BrowserThrew thrown /\
     takeScreenshotWithRetry browser (JsString url) outputPath maxRetries w
     = (Rejected {| message := "Failed to take screenshot after " +:+ show_Z n
                               +:+ " attempts. Last error: Failed to take screenshot: "
                               +:+ message thrown |}, w') /\
     clock w' = start n + d).
Proof.
  intros n start Hurl Hk Hn Hd Hfail.
  pose proof (takeScreenshot_clock browser url outputPath d Hd Hurl) as Hclock.
  assert (forall j, start j = attempt_start 1000 (clock w) d 1 j) as Hstart.
  { intros j. unfold start, attempt_start. change (2 ^ 1) with 2. lia. }
  assert (2 ^ (n - 1) * 1000 <= TIMEOUT_MAX) as Hmax.
  { assert (2 ^ (n - 1) <= 2 ^ 21) by (apply Z.pow_le_mono_r; lia).
    unfold TIMEOUT_MAX. change (2 ^ 21) with 2097152 in *. lia. }
  assert (forall w0 e, (browser url w0).1 = BrowserThrew e ->
            (takeScreenshot browser (JsString url) outputPath w0).1
            = Rejected (screenshot_failed (message e))) as Hthrew.
  { intros w0 e He. unfold takeScreenshot. cbn [falsy].
    rewrite bool_decide_eq_false_2 by done.
    destruct (browser url w0) as [outcome w1]. cbn [fst] in He. by subst outcome. }
  assert (forall j w0, 1 <= j < k -> clock w0 = attempt_start 1000 (clock w) d 1 j ->
            exists e, (takeScreenshot browser (JsString url) outputPath w0).1 = Rejected e)
    as Hfail'.
  { intros j w0 Hj Hw0. destruct (Hfail j w0 Hj) as [e He]; [by rewrite Hstart|].
    eexists. by apply Hthrew. }
  unfold takeScreenshotWithRetry, retry_loop. fold n. split.
  - intros Hok.
    destruct (retry_from_first_success (takeScreenshot browser (JsString url) outputPath)
                "take screenshot" 1000 n d (Z.to_nat n) 1 k None w) as (w' & Hr & Hc);
      try done; try lia.
    + intros w0 Hw0. destruct (Hok w0) as (png & Hne & Hcap); [by rewrite Hstart|].
      exists tt. unfold takeScreenshot. cbn [falsy].
      rewrite bool_decide_eq_false_2 by done.
      destruct (browser url w0) as [outcome w1]. cbn [fst] in Hcap. subst outcome.
      cbn [screenshot_steps]. by destruct png.
    + exists w'. split; [done|]. by rewrite Hstart.
  - intros Hlast ->.
    destruct (retry_from_never_success (takeScreenshot browser (JsString url) outputPath)
                "take screenshot" 1000 n d (Z.to_nat n) 1 None w)
      as (w0 & e & w' & Hw0 & Hat & Hr & Hc); try done; try lia.
    + intros j w0 Hj Hw0. destruct (Z.eq_dec j n) as [->|Hne].
      * destruct (Hlast w0) as [e He]; [by rewrite Hstart|]. eexists. by apply Hthrew.
      * apply (Hfail' j w0); [lia|done].
    + destruct (Hlast w0) as [thrown Ht]; [by rewrite Hstart|].
      exists w0, thrown, w'. split; [by rewrite Hstart|]. split; [done|].
      split; [|by rewrite Hstart].
      rewrite Hr. apply Hthrew in Ht. rewrite Hat in Ht. cbn [fst] in Ht.
      injection Ht as ->. reflexivity.
Qed.

Lemma takeScreenshotWithRetry_backoff_witness :
  let url := "http://localhost:3000" in
  let start := fun j : Z => clock sample_world + (j - 1) * 250 + 1000 * (2 ^ j - 2) in
  (exists w',
     takeScreenshotWithRetry late_browser (JsString url) code_path None sample_world
     = (Resolved tt, w') /\
     clock w' = start 3 + 250) /\
  (exists w0 thrown w',
     clock w0 = start 3 /\ (unreachable_browser url w0).1 = BrowserThrew thrown /\
     takeScreenshotWithRetry unreachable_browser (JsString url) code_path None sample_world
     = (Rejected {| message := "Failed to take screenshot after " +:+ show_Z 3
                               +:+ " attempts. Last error: Failed to take screenshot: "
                               +:+ message thrown |}, w') /\
     clock w' = start 3 + 250).
Proof.
  split.
  - apply (takeScreenshotWithRetry_backoff late_browser "http://localhost:3000" code_path
             None 250 sample_world 3).
    + done.
    + cbn. lia.
    + cbn. lia.
    + intros w0. reflexivity.
    + intros j w0 Hj Hw0. eexists. unfold late_browser. cbn [fst].
      rewrite (proj2 (Z.ltb_lt _ _)); [reflexivity|].
      rewrite Hw0. assert (j = 1 \/ j = 2) as [-> | ->] by lia; cbn; lia.
    + intros w0 Hw0. eexists. split; [|unfold late_browser; cbn [fst];
        rewrite (proj2 (Z.ltb_ge _ _)); [reflexivity|rewrite Hw0; cbn; lia]].
      done.
  - apply (takeScreenshotWithRetry_backoff unreachable_browser "http://localhost:3000"
             code_path None 250 sample_world 3).
    + done.
    + cbn. lia.
    + cbn. lia.
    + intros w0. reflexivity.
    + intros j w0 _ _. by eexists.
    + intros w0 _. by eexists.
    + reflexivity.
Defined.

(** The attempts of the default call begin 0, 2.25 and 6.5 seconds after the
    call when each takes a quarter of a second; a page that is up from six
    seconds on is captured by the third. *)
Example third_attempt_captures :
  exists w',
    takeScreenshotWithRetry late_browser (JsString "http://localhost:3000") code_path None
      sample_world = (Resolved tt, w') /\
    clock w' = clock sample_world + 250 + 2000 + 250 + 4000 + 250.
Proof. eexists. split; by vm_compute. Qed.

(** ** downloadImage.js *)

(** *** Strings and lists of characters *)

Lemma list_ascii_app a b :
  list_ascii_of_string (a +:+ b) = list_ascii_of_string a ++ list_ascii_of_string b.
Proof.
  induction a as [|c a IH]; [done|].
  change (String c a +:+ b) with (String c (a +:+ b)). cbn. by rewrite IH.
Qed.

Lemma string_of_list_app a b :
  string_of_list_ascii (a ++ b) = string_of_list_ascii a +:+ string_of_list_ascii b.
Proof.
  induction a as [|c a IH]; [done|]. cbn. rewrite IH. done.
Qed.

Lemma string_app_assoc (a b c : string) : (a +:+ b) +:+ c = a +:+ (b +:+ c).
Proof.
  induction a as [|x a IH]; [done|].
  change (String x ((a +:+ b) +:+ c) = String x (a +:+ (b +:+ c))). by rewrite IH.
Qed.

Lemma string_cons_app c (a b : string) : String c a +:+ b = String c (a +:+ b).
Proof. done. Qed.

Lemma list_ascii_inj a b : list_ascii_of_string a = list_ascii_of_string b -> a = b.
Proof.
  intros H. apply (f_equal string_of_list_ascii) in H.
  by rewrite !string_of_list_ascii_of_string in H.
Qed.

Lemma list_ascii_nil s : list_ascii_of_string s = [] <-> s = "".
Proof. destruct s; split; done. Qed.

Lemma has_prefix_app p s : has_prefix p (p ++ s) = true.
Proof. induction p as [|c p IH]; [done|]. cbn. by rewrite Ascii.eqb_refl. Qed.

Lemma has_prefix_spec p s : has_prefix p s = true -> s = p ++ drop (length p) s.
Proof.
  revert s. induction p as [|c p IH]; intros [|d s]; cbn; try done.
  destruct (Ascii.eqb_spec c d) as [->|]; [|done]. intros H. f_equal. by apply IH.
Qed.

Lemma drop_length_app {A} (l r : list A) : drop (length l) (l ++ r) = r.
Proof. by rewrite drop_app_length. Qed.

Lemma take_length_app {A} (l r : list A) : take (length l) (l ++ r) = l.
Proof. by rewrite take_app_length. Qed.

(** *** Regular expressions *)

Lemma take_while_all P s : Forall (fun c => P c = true) (take_while P s).
Proof.
  induction s as [|c s IH]; cbn; [constructor|].
  destruct (P c) eqn:E; by constructor.
Qed.

Lemma take_while_split P s : s = take_while P s ++ drop (length (take_while P s)) s.
Proof.
  induction s as [|c s IH]; cbn; [done|]. destruct (P c); cbn; [by f_equal|done].
Qed.

(** The run stops at the first character that is excluded, or at the end. *)
Lemma take_while_stops P s :
  match drop (length (take_while P s)) s with
  | [] => True
  | c :: _ => P c = false
  end.
Proof.
  induction s as [|c s IH]; cbn; [done|]. destruct (P c) eqn:E; cbn; done.
Qed.

Lemma take_while_app P l rest :
  Forall (fun c => P c = true) l ->
  match rest with [] => True | c :: _ => P c = false end ->
  take_while P (l ++ rest) = l.
Proof.
  intros Hl Hr. induction Hl as [|c l Hc Hl IH]; cbn.
  - destruct rest as [|c r]; [done|]. cbn. by rewrite Hr.
  - by rewrite Hc, IH.
Qed.

Lemma give_back_first continue s least captured n m groups :
  (least <= n)%nat -> continue (drop n s) = Some (m, groups) ->
  give_back continue s least captured n
    = Some (take n s ++ m, if captured then take n s :: groups else groups).
Proof.
  intros Hn Hk. destruct n; cbn [give_back]; rewrite (proj2 (Nat.leb_le _ _) Hn), Hk; done.
Qed.

Lemma give_back_sound continue s least captured n m groups :
  give_back continue s least captured n = Some (m, groups) ->
  exists j m' groups',
    (least <= j <= n)%nat /\ continue (drop j s) = Some (m', groups') /\
    m = take j s ++ m' /\
    groups = if captured then take j s :: groups' else groups'.
Proof.
  induction n as [|n IH]; cbn [give_back].
  - destruct (least <=? 0)%nat eqn:E.
    + destruct (continue (drop 0 s)) as [[m' g']|] eqn:Hk; [|done].
      intros [= <- <-]. exists 0%nat, m', g'. apply Nat.leb_le in E. repeat split; try done; lia.
    + done.
  - destruct (least <=? S n)%nat eqn:E.
    + destruct (continue (drop (S n) s)) as [[m' g']|] eqn:Hk.
      * intros [= <- <-]. exists (S n), m', g'. apply Nat.leb_le in E.
        repeat split; try done; lia.
      * intros (j & m' & g' & Hj & H)%IH. exists j, m', g'. split; [lia|done].
    + intros (j & m' & g' & Hj & H)%IH. exists j, m', g'. split; [lia|done].
Qed.

(** The characters a run takes are none of them the excluded one. *)
Lemma run_chars c s j :
  (j <= length (take_while (other_than c) s))%nat ->
  Forall (fun x => x <> c) (take j s).
Proof.
  intros Hj. rewrite (take_while_split (other_than c) s) at 1.
  rewrite take_app_le by done.
  apply Forall_take. eapply Forall_impl; [apply take_while_all|].
  intros x Hx ->. unfold other_than in Hx. by rewrite Ascii.eqb_refl in Hx.
Qed.

Lemma other_than_all c l :
  Forall (fun x => x <> c) l -> Forall (fun x => other_than c x = true) l.
Proof.
  intros H. eapply Forall_impl; [exact H|]. intros x Hx. unfold other_than.
  by destruct (Ascii.eqb_spec x c).
Qed.

(** A match is a prefix of the text it was found in. *)
Lemma match_here_prefix items s m groups :
  match_here items s = Some (m, groups) -> s = m ++ drop (length m) s.
Proof.
  revert s m groups. induction items as [|[text|c least captured] rest IH]; intros s m groups.
  - intros [= <- <-]. done.
  - cbn [match_here]. destruct (has_prefix text s) eqn:Hp; [|done].
    destruct (match_here rest _) as [[m' g']|] eqn:Hr; [|done]. intros [= <- <-].
    apply IH in Hr. apply has_prefix_spec in Hp.
    rewrite length_app, <- drop_drop, <- app_assoc. rewrite <- Hr. exact Hp.
  - cbn [match_here]. intros (j & m' & g' & Hj & Hk & -> & _)%give_back_sound.
    apply IH in Hk.
    assert (j <= length s)%nat.
    { pose proof (f_equal length (take_while_split (other_than c) s)) as Hl.
      rewrite length_app in Hl. lia. }
    rewrite length_app, length_take, Nat.min_l, <- drop_drop by done.
    rewrite <- app_assoc. rewrite <- Hk. by rewrite take_drop.
Qed.

Lemma regex_match_infix items s m groups :
  regex_match items s = Some (m, groups) ->
  exists pre, match_here items (drop (length pre) s) = Some (m, groups) /\
              s = pre ++ m ++ drop (length m) (drop (length pre) s).
Proof.
  induction s as [|c s IH]; cbn [regex_match].
  - destruct (match_here items []) as [[m' g']|] eqn:Hm; [|done].
    intros [= <- <-]. exists []. split; [done|]. cbn. by apply match_here_prefix in Hm.
  - destruct (match_here items (c :: s)) as [[m' g']|] eqn:Hm.
    + intros [= <- <-]. exists []. split; [done|]. by apply match_here_prefix in Hm.
    + intros (pre & Hp & Hs)%IH. exists (c :: pre). split; [done|]. cbn. by f_equal.
Qed.

(** *** [extractFigmaIds] *)

Lemma not_occurs c s : ~ occurs c s <-> Forall (fun x => x <> c) (list_ascii_of_string s).
Proof.
  unfold occurs. rewrite List.Forall_forall. split.
  - intros H x Hx ->. by apply H.
  - intros H Hc. by apply (H c).
Qed.

(** What a match of one of the four patterns looks like. *)
Lemma figma_pattern_sound kind s m groups :
  match_here (figma_pattern kind) s = Some (m, groups) ->
  exists g1 name g2,
    groups = [g1; g2] /\
    m = list_ascii_of_string ("figma.com/" +:+ kind +:+ "/") ++ g1 ++ "/"%char :: name
        ++ list_ascii_of_string "?node-id=" ++ g2 /\
    g1 <> [] /\ Forall (fun x => x <> "/"%char) g1 /\
    name <> [] /\ Forall (fun x => x <> "?"%char) name /\
    g2 <> [] /\ Forall (fun x => x <> "&"%char) g2 /\
    match drop (length m) s with [] => True | c :: _ => c = "&"%char end.
Proof.
  unfold figma_pattern, lit. cbn [match_here].
  set (L := list_ascii_of_string ("figma.com/" +:+ kind +:+ "/")).
  destruct (has_prefix L s) eqn:HL; [|done]. apply has_prefix_spec in HL.
  set (s1 := drop (length L) s) in *.
  destruct (give_back _ s1 _ _ _) as [[m1 gs1]|] eqn:H1; [|done]. intros [= <- <-].
  apply give_back_sound in H1 as (j1 & m2 & gs2 & Hj1 & H2 & -> & ->).
  set (s2 := drop j1 s1) in *.
  destruct (has_prefix _ s2) eqn:Hs2; [|done]. apply has_prefix_spec in Hs2.
  change (length (list_ascii_of_string "/")) with 1%nat in *.
  set (s3 := drop 1 s2) in *.
  destruct (give_back _ s3 _ _ _) as [[m3 gs3]|] eqn:H3; [|done].
  injection H2 as <- <-.
  apply give_back_sound in H3 as (j3 & m4 & gs4 & Hj3 & H4 & -> & ->).
  set (s4 := drop j3 s3) in *.
  destruct (has_prefix _ s4) eqn:Hs4; [|done]. apply has_prefix_spec in Hs4.
  set (N := list_ascii_of_string "?node-id=") in *.
  set (s5 := drop (length N) s4) in *.
  destruct (give_back _ s5 _ _ _) as [[m5 gs5]|] eqn:H5; [|done].
  injection H4 as <- <-.
  pose proof H5 as H5'.
  apply give_back_sound in H5' as (j5 & m6 & gs6 & Hj5 & H6 & _ & _).
  rewrite (give_back_first _ _ _ _ _ [] []) in H5 by (done || lia).
  injection H5 as <- <-. rewrite app_nil_r.
  set (n5 := length (take_while (other_than "&") s5)) in *.
  exists (take j1 s1), (take j3 s3), (take n5 s5).
  assert (Hlen : forall (l : list ascii) k, (1 <= k <= length (take_while (other_than "&"%char) l)
              \/ 1 <= k <= length (take_while (other_than "/"%char) l)
              \/ 1 <= k <= length (take_while (other_than "?"%char) l))%nat ->
            take k l <> []).
  { intros l k Hk Hn. apply (f_equal length) in Hn. rewrite length_take in Hn. cbn in Hn.
    assert (forall c, length (take_while (other_than c) l) <= length l)%nat.
    { intros c. pose proof (f_equal length (take_while_split (other_than c) l)) as Hl.
      rewrite length_app in Hl. lia. }
    pose proof (H "&"%char). pose proof (H "/"%char). pose proof (H "?"%char). lia. }
  split; [done|]. split; [done|].
  split; [apply Hlen; lia|]. split; [by apply run_chars; lia|].
  split; [apply Hlen; lia|]. split; [by apply run_chars; lia|].
  split; [apply Hlen; lia|]. split; [by apply run_chars|].
  (* the rest of the text *)
  assert (s = L ++ take j1 s1 ++ "/"%char :: take j3 s3 ++ N ++ take n5 s5 ++ drop n5 s5) as Hs.
  { rewrite take_drop. rewrite <- Hs4. unfold s4. rewrite take_drop.
    change ("/"%char :: s3) with (list_ascii_of_string "/" ++ s3). rewrite <- Hs2.
    unfold s2. rewrite take_drop. exact HL. }
  change (match drop (length (L ++ take j1 s1 ++ "/"%char :: take j3 s3 ++ N ++ take n5 s5)) s
          with [] => True | c :: _ => c = "&"%char end).
  assert (drop (length (L ++ take j1 s1 ++ "/"%char :: take j3 s3 ++ N ++ take n5 s5)) s
          = drop n5 s5) as ->.
  { assert (forall (a t : list ascii), s = a ++ t -> drop (length a) s = t) as Hd.
    { intros a t ->. by rewrite drop_app_length. }
    apply Hd. rewrite Hs at 1. rewrite <- !app_assoc. cbn. rewrite <- !app_assoc. done. }
  pose proof (take_while_stops (other_than "&") s5) as Hstop. fold n5 in Hstop.
  destruct (drop n5 s5) as [|c r]; [done|].
  unfold other_than in Hstop. by destruct (Ascii.eqb_spec c "&").
Qed.

Lemma extractFigmaIds_cases url :
  let s := list_ascii_of_string url in
  extractFigmaIds url =
    match regex_match (figma_pattern "design") s with
    | Some (_, groups) => inr (ids_of groups)
    | None =>
        match regex_match (figma_pattern "file") s with
        | Some (_, groups) => inr (ids_of groups)
        | None =>
            match regex_match (figma_pattern "proto") s with
            | Some (_, groups) => inr (ids_of groups)
            | None =>
                match regex_match (figma_pattern "community/file") s with
                | Some (_, groups) => inr (ids_of groups)
                | None => inl invalid_figma_url
                end
            end
        end
    end.
Proof.
  cbv zeta. unfold extractFigmaIds, patterns.
  repeat (destruct (regex_match _ _) as [[? ?]|]; [reflexivity|]). reflexivity.
Qed.

Lemma string_of_list_inj a b : string_of_list_ascii a = string_of_list_ascii b -> a = b.
Proof.
  intros H. apply (f_equal list_ascii_of_string) in H.
  by rewrite !list_ascii_of_string_of_list_ascii in H.
Qed.

Lemma figma_match_sound kind url m groups :
  regex_match (figma_pattern kind) (list_ascii_of_string url) = Some (m, groups) ->
  let ids := ids_of groups in
  exists pre name post,
    url = pre +:+ "figma.com/" +:+ kind +:+ "/" +:+ fileId ids +:+ "/" +:+ name
          +:+ "?node-id=" +:+ nodeId ids +:+ post /\
    fileId ids <> "" /\ ~ occurs "/" (fileId ids) /\
    name <> "" /\ ~ occurs "?" name /\
    nodeId ids <> "" /\ ~ occurs "&" (nodeId ids) /\
    (post = "" \/ exists t, post = "&" +:+ t).
Proof.
  intros (pre & Hm & Hs)%regex_match_infix.
  apply figma_pattern_sound in Hm
    as (g1 & name & g2 & -> & -> & Hg1 & Hf1 & Hn & Hfn & Hg2 & Hf2 & Hrest).
  set (post := drop _ (drop _ _)) in *.
  exists (string_of_list_ascii pre), (string_of_list_ascii name),
    (string_of_list_ascii post).
  cbn [ids_of nth fileId nodeId].
  split.
  { apply list_ascii_inj. rewrite Hs, !list_ascii_app, !list_ascii_of_string_of_list_ascii.
    rewrite <- !app_assoc. cbn. rewrite <- !app_assoc. done. }
  assert (forall l : list ascii, l <> [] -> string_of_list_ascii l <> "") as Hne.
  { intros [|c l]; done. }
  split; [by apply Hne|]. split; [by rewrite not_occurs, list_ascii_of_string_of_list_ascii|].
  split; [by apply Hne|]. split; [by rewrite not_occurs, list_ascii_of_string_of_list_ascii|].
  split; [by apply Hne|]. split; [by rewrite not_occurs, list_ascii_of_string_of_list_ascii|].
  destruct post as [|c r]; [by left|]. right. subst c. by exists (string_of_list_ascii r).
Qed.

(** X10.  The ids [extractFigmaIds] gives are the two groups of a match: the
    URL contains [figma.com/KIND/FILE/NAME?node-id=NODE], where KIND is one of
    the four kinds, FILE is not empty and has no slash, NAME is not empty, and
    NODE is not empty and runs up to the first [&] or to the end. *)
Theorem extractFigmaIds_sound (url : string) (ids : FigmaIds) :
  extractFigmaIds url = inr ids ->
  exists kind pre name post,
    In kind ["design"; "file"; "proto"; "community/file"] /\
    url = pre +:+ "figma.com/" +:+ kind +:+ "/" +:+ fileId ids +:+ "/" +:+ name
          +:+ "?node-id=" +:+ nodeId ids +:+ post /\
    fileId ids <> "" /\ ~ occurs "/" (fileId ids) /\
    name <> "" /\ ~ occurs "?" name /\
    nodeId ids <> "" /\ ~ occurs "&" (nodeId ids) /\
    (post = "" \/ exists t, post = "&" +:+ t).
Proof.
  rewrite extractFigmaIds_cases. cbv zeta.
  destruct (regex_match (figma_pattern "design") _) as [[m g]|] eqn:E1.
  { intros [= <-]. apply figma_match_sound in E1 as (pre & name & post & H).
    exists "design", pre, name, post. split; [cbn; tauto|done]. }
  destruct (regex_match (figma_pattern "file") _) as [[m g]|] eqn:E2.
  { intros [= <-]. apply figma_match_sound in E2 as (pre & name & post & H).
    exists "file", pre, name, post. split; [cbn; tauto|done]. }
  destruct (regex_match (figma_pattern "proto") _) as [[m g]|] eqn:E3.
  { intros [= <-]. apply figma_match_sound in E3 as (pre & name & post & H).
    exists "proto", pre, name, post. split; [cbn; tauto|done]. }
  destruct (regex_match (figma_pattern "community/file") _) as [[m g]|] eqn:E4; [|done].
  intros [= <-]. apply figma_match_sound in E4 as (pre & name & post & H).
  exists "community/file", pre, name, post. split; [cbn; tauto|done].
Qed.

Lemma extractFigmaIds_sound_witness :
  let ids := {| fileId := "sL3BXjIxnX2Zaqbta4e1NE"; nodeId := "0-1" |} in
  exists kind pre name post,
    In kind ["design"; "file"; "proto"; "community/file"] /\
    design_url = pre +:+ "figma.com/" +:+ kind +:+ "/" +:+ fileId ids +:+ "/" +:+ name
          +:+ "?node-id=" +:+ nodeId ids +:+ post /\
    fileId ids <> "" /\ ~ occurs "/" (fileId ids) /\
    name <> "" /\ ~ occurs "?" name /\
    nodeId ids <> "" /\ ~ occurs "&" (nodeId ids) /\
    (post = "" \/ exists t, post = "&" +:+ t).
Proof.
  apply (extractFigmaIds_sound design_url).
  vm_compute. reflexivity.
Defined.

(** A run followed by the rest of the pattern, on a text where the run is
    plain to see. *)
Lemma match_here_run c least captured items l rest m groups :
  Forall (fun x => x <> c) l -> (least <= length l)%nat ->
  match rest with [] => True | x :: _ => x = c end ->
  match_here items rest = Some (m, groups) ->
  match_here (RRun c least captured :: items) (l ++ rest)
    = Some (l ++ m, if captured then l :: groups else groups).
Proof.
  intros Hl Hlen Hrest Hm. cbn [match_here].
  rewrite (take_while_app _ l).
  - rewrite (give_back_first _ _ _ _ _ m groups); [by rewrite take_app_length|done|].
    by rewrite drop_app_length.
  - by apply other_than_all.
  - destruct rest as [|x r]; [done|]. subst x. unfold other_than. by rewrite Ascii.eqb_refl.
Qed.

Lemma match_here_lit text items rest m groups :
  match_here items rest = Some (m, groups) ->
  match_here (RLit text :: items) (text ++ rest) = Some (text ++ m, groups).
Proof. intros Hm. cbn [match_here]. by rewrite has_prefix_app, drop_app_length, Hm. Qed.

Lemma match_here_figma kind fid name nid rest :
  fid <> [] -> Forall (fun x => x <> "/"%char) fid ->
  name <> [] -> Forall (fun x => x <> "?"%char) name ->
  nid <> [] -> Forall (fun x => x <> "&"%char) nid ->
  match rest with [] => True | c :: _ => c = "&"%char end ->
  let L := list_ascii_of_string ("figma.com/" +:+ kind +:+ "/") in
  let N := list_ascii_of_string "?node-id=" in
  match_here (figma_pattern kind) (L ++ fid ++ "/"%char :: name ++ N ++ nid ++ rest)
    = Some (L ++ fid ++ "/"%char :: name ++ N ++ nid, [fid; nid]).
Proof.
  intros Hfid Hf1 Hname Hf2 Hnid Hf3 Hrest L N.
  assert (forall l : list ascii, l <> [] -> (1 <= length l)%nat) as Hlen.
  { intros [|c l] H; [done|cbn; lia]. }
  unfold figma_pattern, lit. fold L. fold N.
  apply match_here_lit.
  apply (match_here_run "/" 1 true _ fid ("/"%char :: _) ("/"%char :: _) [nid]);
    [done|by apply Hlen|done|].
  apply (match_here_lit ["/"%char]).
  apply (match_here_run "?" 1 false _ name (N ++ _) (N ++ nid) [nid]);
    [done|by apply Hlen|done|].
  apply match_here_lit.
  rewrite <- (app_nil_r nid) at 2.
  apply (match_here_run "&" 1 true [] nid rest [] []); [done|by apply Hlen|done|done].
Qed.

(** No match of a pattern without its first literal. *)
Lemma regex_match_marker text items s :
  includes_from text s = false -> regex_match (RLit text :: items) s = None.
Proof.
  induction s as [|c s IH]; cbn [includes_from regex_match match_here].
  - rewrite orb_false_r. by intros ->.
  - intros [-> Hs]%orb_false_iff. by apply IH.
Qed.

(** The first match is not to the left of the first [f]. *)
Lemma regex_match_skip kind pre s :
  Forall (fun x => x <> "f"%char) pre ->
  regex_match (figma_pattern kind) (pre ++ s) = regex_match (figma_pattern kind) s.
Proof.
  induction 1 as [|c pre Hc Hpre IH]; [done|].
  cbn [app regex_match]. rewrite IH.
  assert (match_here (figma_pattern kind) (c :: pre ++ s) = None) as ->; [|done].
  unfold figma_pattern, lit. cbn [match_here].
  change (list_ascii_of_string ("figma.com/" +:+ kind +:+ "/"))
    with ("f"%char :: list_ascii_of_string ("igma.com/" +:+ kind +:+ "/")).
  cbn [has_prefix]. by destruct (Ascii.eqb_spec "f" c) as [<-|].
Qed.

Lemma regex_match_here items s r :
  match_here items s = Some r -> regex_match items s = Some r.
Proof. intros H. destruct s; cbn [regex_match]; by rewrite H. Qed.

Lemma regex_match_figma kind pre fid name nid rest :
  ~ occurs "f" pre ->
  fid <> "" -> ~ occurs "/" fid -> name <> "" -> ~ occurs "?" name ->
  nid <> "" -> ~ occurs "&" nid -> (rest = "" \/ exists t, rest = "&" +:+ t) ->
  exists m,
    regex_match (figma_pattern kind)
      (list_ascii_of_string (pre +:+ "figma.com/" +:+ kind +:+ "/" +:+ fid +:+ "/" +:+ name
                             +:+ "?node-id=" +:+ nid +:+ rest))
    = Some (m, [list_ascii_of_string fid; list_ascii_of_string nid]).
Proof.
  intros Hpre Hfid Hf1 Hname Hf2 Hnid Hf3 Hrest.
  rewrite list_ascii_app. rewrite regex_match_skip by (by apply not_occurs).
  assert (forall s, s <> "" -> list_ascii_of_string s <> []) as Hne.
  { intros [|c s]; done. }
  pose proof (match_here_figma kind (list_ascii_of_string fid) (list_ascii_of_string name)
                (list_ascii_of_string nid) (list_ascii_of_string rest)
                (Hne _ Hfid) (proj1 (not_occurs _ _) Hf1)
                (Hne _ Hname) (proj1 (not_occurs _ _) Hf2)
                (Hne _ Hnid) (proj1 (not_occurs _ _) Hf3)) as Hm.
  cbv zeta in Hm. specialize (Hm ltac:(by destruct Hrest as [->|[t ->]])).
  eexists. apply regex_match_here.
  erewrite (f_equal (match_here _)); [exact Hm|].
  rewrite !list_ascii_app. cbn. rewrite <- ?app_assoc. cbn.
  by rewrite <- ?app_assoc.
Qed.

Lemma includes_marker_none kind s :
  string_includes ("figma.com/" +:+ kind +:+ "/") s = false ->
  regex_match (figma_pattern kind) (list_ascii_of_string s) = None.
Proof. intros H. by apply regex_match_marker. Qed.

(** X11.  A URL of one of the four kinds comes back as its file id and node id:
    the address before [figma.com] has no [f], the file id has no slash, the
    node id ends at the first [&] or at the end of the URL, and the URL does
    not hold the marker of another kind. *)
Theorem extractFigmaIds_round_trip (kind pre fid name nid rest : string) :
  let url := pre +:+ "figma.com/" +:+ kind +:+ "/" +:+ fid +:+ "/" +:+ name
             +:+ "?node-id=" +:+ nid +:+ rest in
  In kind ["design"; "file"; "proto"; "community/file"] ->
  (forall other, In other ["design"; "file"; "proto"; "community/file"] -> other <> kind ->
     string_includes ("figma.com/" +:+ other +:+ "/") url = false) ->
  ~ occurs "f" pre ->
  fid <> "" -> ~ occurs "/" fid -> name <> "" -> ~ occurs "?" name ->
  nid <> "" -> ~ occurs "&" nid -> (rest = "" \/ exists t, rest = "&" +:+ t) ->
  extractFigmaIds url = inr {| fileId := fid; nodeId := nid |}.
Proof.
  intros url Hkind Hother Hpre Hfid Hf1 Hname Hf2 Hnid Hf3 Hrest.
  destruct (regex_match_figma kind pre fid name nid rest) as [m Hm]; try done.
  fold url in Hm.
  rewrite extractFigmaIds_cases. cbv zeta.
  assert (inr (ids_of [list_ascii_of_string fid; list_ascii_of_string nid])
          = inr (A := JsError) {| fileId := fid; nodeId := nid |}) as Hids.
  { unfold ids_of. cbn [nth]. by rewrite !string_of_list_ascii_of_string. }
  cbn [In] in Hkind. destruct Hkind as [<-|[<-|[<-|[<-|[]]]]].
  - by rewrite Hm.
  - rewrite (includes_marker_none "design") by (apply Hother; [cbn; tauto|done]).
    by rewrite Hm.
  - rewrite (includes_marker_none "design") by (apply Hother; [cbn; tauto|done]).
    rewrite (includes_marker_none "file") by (apply Hother; [cbn; tauto|done]).
    by rewrite Hm.
  - rewrite (includes_marker_none "design") by (apply Hother; [cbn; tauto|done]).
    rewrite (includes_marker_none "file") by (apply Hother; [cbn; tauto|done]).
    rewrite (includes_marker_none "proto") by (apply Hother; [cbn; tauto|done]).
    by rewrite Hm.
Qed.

Lemma extractFigmaIds_round_trip_witness :
  extractFigmaIds ("https://www." +:+ "figma.com/" +:+ "design" +:+ "/"
                   +:+ "sL3BXjIxnX2Zaqbta4e1NE" +:+ "/" +:+ "Loan-CalcD"
                   +:+ "?node-id=" +:+ "0-1" +:+ "&t=15ph90yweftOGITr-0")
  = inr {| fileId := "sL3BXjIxnX2Zaqbta4e1NE"; nodeId := "0-1" |}.
Proof.
  apply (extractFigmaIds_round_trip "design" "https://www." "sL3BXjIxnX2Zaqbta4e1NE"
           "Loan-CalcD" "0-1" "&t=15ph90yweftOGITr-0").
  - cbn. tauto.
  - intros other [<-|[<-|[<-|[<-|[]]]]] Hne; try done; vm_compute; reflexivity.
  - apply not_occurs. cbn. repeat constructor; done.
  - done.
  - apply not_occurs. cbn. repeat constructor; done.
  - done.
  - apply not_occurs. cbn. repeat constructor; done.
  - done.
  - apply not_occurs. cbn. repeat constructor; done.
  - right. by exists "t=15ph90yweftOGITr-0".
Defined.

Example extract_test_url :
  extractFigmaIds "hhttps://www.figma.com/design/sL3BXjIxnX2Zaqbta4e1NE/Loan-CalcD?node-id=0-1&t=15ph90yweftOGITr-0"
  = inr {| fileId := "sL3BXjIxnX2Zaqbta4e1NE"; nodeId := "0-1" |}.
Proof. vm_compute. reflexivity. Qed.

Example extract_no_node :
  exists e, extractFigmaIds "https://www.figma.com/design/sL3BXjIxnX2Zaqbta4e1NE/Loan-CalcD" = inl e.
Proof. vm_compute. eauto. Qed.

Example extract_community :
  extractFigmaIds "https://www.figma.com/community/file/123/Name?node-id=1%3A2"
  = inr {| fileId := "123"; nodeId := "1%3A2" |}.
Proof. vm_compute. reflexivity. Qed.

(** *** [downloadImage] and [convertFigmaUrlToImageUrl] *)

Lemma includes_from_infix needle pre post :
  includes_from needle (pre ++ needle ++ post) = true.
Proof.
  induction pre as [|c pre IH]; cbn [app].
  - destruct (needle ++ post) eqn:E; cbn [includes_from]; rewrite <- E, has_prefix_app; done.
  - cbn [includes_from]. rewrite IH. apply orb_true_r.
Qed.

(** No match of a pattern without one of its literals. *)
Lemma figma_needs_node_id kind s :
  includes_from (list_ascii_of_string "?node-id=") s = false ->
  regex_match (figma_pattern kind) s = None.
Proof.
  intros Hn. destruct (regex_match _ s) as [[m groups]|] eqn:Hm; [|done].
  apply regex_match_infix in Hm as (pre & Hm & Hs).
  apply figma_pattern_sound in Hm as (g1 & name & g2 & _ & -> & _).
  rewrite Hs in Hn.
  set (L := list_ascii_of_string ("figma.com/" +:+ kind +:+ "/")) in *.
  set (N := list_ascii_of_string "?node-id=") in *.
  match type of Hn with
  | includes_from _ (pre ++ (L ++ g1 ++ ?c :: name ++ N ++ g2) ++ ?post) = _ =>
      replace (pre ++ (L ++ g1 ++ c :: name ++ N ++ g2) ++ post)
        with ((pre ++ L ++ g1 ++ c :: name) ++ N ++ (g2 ++ post)) in Hn
  end.
  - by rewrite includes_from_infix in Hn.
  - rewrite <- !app_assoc. cbn. by rewrite <- !app_assoc.
Qed.

Lemma extractFigmaIds_needs_node_id url :
  string_includes "?node-id=" url = false -> extractFigmaIds url = inl invalid_figma_url.
Proof.
  intros H. rewrite extractFigmaIds_cases. cbv zeta.
  by rewrite !figma_needs_node_id.
Qed.

(** X12.  A Figma URL without [?node-id=] is refused before any request is
    made: the answer is the same for every network, and the world is as it
    was. *)
Theorem downloadImage_figma_without_node (fetch : Fetch) (url outputPath : string) (w : World) :
  string_includes "figma.com" url = true ->
  string_includes "?node-id=" url = false ->
  downloadImage fetch (JsString url) outputPath w =
    (Rejected {| message :=
       "Failed to download image: Failed to convert Figma URL to image URL: "
       +:+ "Invalid Figma URL format. Please provide a valid Figma design URL with node-id parameter." |},
     w).
Proof.
  intros Hf Hn. unfold downloadImage. cbn [falsy].
  case_bool_decide as Hu.
  { subst url. discriminate. }
  rewrite Hf. unfold convertFigmaUrlToImageUrl. by rewrite extractFigmaIds_needs_node_id.
Qed.

Lemma downloadImage_figma_without_node_witness :
  downloadImage sample_fetch (JsString "https://www.figma.com/design/sL3BXjIxnX2Zaqbta4e1NE/Loan-CalcD")
    figma_path sample_world =
    (Rejected {| message :=
       "Failed to download image: Failed to convert Figma URL to image URL: "
       +:+ "Invalid Figma URL format. Please provide a valid Figma design URL with node-id parameter." |},
     sample_world).
Proof.
  apply (downloadImage_figma_without_node sample_fetch
           "https://www.figma.com/design/sL3BXjIxnX2Zaqbta4e1NE/Loan-CalcD"
           figma_path sample_world); reflexivity.
Defined.

Lemma convert_files fetch url w r w' :
  (forall target w0, files (fetch target w0).2 = files w0) ->
  convertFigmaUrlToImageUrl fetch url w = (r, w') -> files w' = files w.
Proof.
  intros Hk. unfold convertFigmaUrlToImageUrl, image_url_from_page.
  destruct (extractFigmaIds url) as [e|ids]; [by intros [= <- <-]|].
  pose proof (Hk (JsString ("https://www.figma.com/api/figma/1.0/images/" +:+ fileId ids
                            +:+ "?ids=" +:+ nodeId ids +:+ "&format=png&scale=2")) w) as H1.
  destruct (fetch _ w) as [o1 w1]. cbn [snd] in H1.
  pose proof (Hk (JsString url) w1) as H2.
  destruct (fetch (JsString url) w1) as [o2 w2]. cbn [snd] in H2.
  assert (forall r0 w0,
    (match o2 with
     | FetchThrew _ => (Rejected (convert_failed unable_to_convert), w2)
     | Fetched pageResponse =>
         if res_ok pageResponse
         then match res_text pageResponse with
              | inl _ => (Rejected (convert_failed unable_to_convert), w2)
              | inr html =>
                  match regex_match png_url_pattern (list_ascii_of_string html) with
                  | Some (whole, _) => (Resolved (JsString (string_of_list_ascii whole)), w2)
                  | None => (Rejected (convert_failed unable_to_convert), w2)
                  end
              end
         else (Rejected (convert_failed unable_to_convert), w2)
     end) = (r0, w0) -> files w0 = files w) as Hpage.
  { intros r0 w0 H. assert (w0 = w2) as ->; [|congruence].
    destruct o2 as [e|resp]; [congruence|].
    destruct (res_ok resp); [|congruence].
    destruct (res_text resp) as [e|html]; [congruence|].
    destruct (regex_match _ _) as [[whole g]|]; congruence. }
  destruct o1 as [e|resp]; [apply Hpage|].
  destruct (res_ok resp); [|apply Hpage].
  destruct (res_json resp) as [e|[|[images|]]]; try apply Hpage.
  destruct (falsy _); [apply Hpage|]. intros [= <- <-]. done.
Qed.

(** What [downloadImage] answers when it resolves. *)
Lemma downloadImage_resolved_inv fetch imageUrl outputPath w u w' :
  downloadImage fetch imageUrl outputPath w = (Resolved u, w') ->
  exists target w1 response w2 contentType buffer,
    fetch target w1 = (Fetched response, w2) /\
    res_ok response = true /\
    res_contentType response = Some contentType /\
    String.prefix "image/" contentType = true /\
    res_arrayBuffer response = inr buffer /\ buffer <> [] /\
    w' = writeFileSync outputPath buffer w2.
Proof.
  unfold downloadImage. destruct imageUrl as [|x|url]; try done.
  destruct (falsy _); [done|].
  destruct (if string_includes "figma.com" url then _ else _) as [[target|e] w1]; [|done].
  destruct (fetch target w1) as [[e|response] w2] eqn:Hf; [done|].
  destruct (res_ok response) eqn:Hok; [|done]. cbn [negb].
  destruct (res_contentType response) as [contentType|] eqn:Hct; [|done].
  destruct (bool_decide _ || negb (String.prefix "image/" contentType)) eqn:Hp; [done|].
  apply orb_false_iff in Hp as [_ Hp%negb_false_iff].
  destruct (res_arrayBuffer response) as [e|buffer] eqn:Hb; [done|].
  destruct buffer as [|b buffer]; [done|]. intros [= <- <-].
  by exists target, w1, response, w2, contentType, (b :: buffer).
Qed.

(** X13.  When [downloadImage] resolves, the file at [outputPath] holds the
    body of a response that was ok and whose content type starts with
    [image/], and the file is not empty. *)
Theorem downloadImage_resolved (fetch : Fetch) (imageUrl : JsValue) (outputPath : string)
    (w w' : World) (u : unit) :
  downloadImage fetch imageUrl outputPath w = (Resolved u, w') ->
  exists buffer,
    files w' !! outputPath = Some buffer /\ buffer <> [] /\
    exists target w1 response w2 contentType,
      fetch target w1 = (Fetched response, w2) /\
      res_ok response = true /\
      res_contentType response = Some contentType /\
      String.prefix "image/" contentType = true /\
      res_arrayBuffer response = inr buffer.
Proof.
  intros (target & w1 & response & w2 & ct & buffer & Hf & Hok & Hct & Hp & Hb & Hne & ->)
    %downloadImage_resolved_inv.
  exists buffer. split; [apply lookup_insert_eq|]. split; [done|].
  by exists target, w1, response, w2, ct.
Qed.

Lemma downloadImage_resolved_witness :
  exists buffer,
    files (writeFileSync figma_path (png_signature ++ [x01]) world_without_code) !! figma_path
      = Some buffer /\ buffer <> [] /\
    exists target w1 response w2 contentType,
      sample_fetch target w1 = (Fetched response, w2) /\
      res_ok response = true /\
      res_contentType response = Some contentType /\
      String.prefix "image/" contentType = true /\
      res_arrayBuffer response = inr buffer.
Proof.
  apply (downloadImage_resolved sample_fetch (JsString "https://example.com/figma.png")
           figma_path world_without_code _ tt).
  reflexivity.
Defined.

(** Every error of [downloadImage] carries the prefix of its [catch]. *)
Lemma downloadImage_rejected fetch imageUrl outputPath w e w' :
  downloadImage fetch imageUrl outputPath w = (Rejected e, w') ->
  exists msg, e = download_failed msg.
Proof.
  unfold downloadImage. destruct imageUrl as [|x|url]; try (intros [= <- <-]; by eexists).
  destruct (falsy _); [intros [= <- <-]; by eexists|].
  destruct (if string_includes "figma.com" url then _ else _) as [[target|e0] w1];
    [|intros [= <- <-]; by eexists].
  destruct (fetch target w1) as [[e0|response] w2]; [intros [= <- <-]; by eexists|].
  destruct (negb (res_ok response)); [intros [= <- <-]; by eexists|].
  destruct (match res_contentType response with Some _ => _ | None => _ end);
    [intros [= <- <-]; by eexists|].
  destruct (res_arrayBuffer response) as [e0|buffer]; [intros [= <- <-]; by eexists|].
  destruct buffer; [intros [= <- <-]; by eexists|done].
Qed.

(** X14.  With a network that leaves the files alone, [downloadImage] writes
    no file but [outputPath]; it writes that file when the body of an image
    response has arrived, also when the body is empty, and it resolves
    exactly when what it wrote is not empty. *)
Theorem downloadImage_writes_only_output (fetch : Fetch) (imageUrl : JsValue)
    (outputPath : string) (w w' : World) (r : Outcome unit) :
  (forall target w0, files (fetch target w0).2 = files w0) ->
  downloadImage fetch imageUrl outputPath w = (r, w') ->
  (files w' = files w /\ exists e, r = Rejected e) \/
  (exists buffer, files w' = <[outputPath := buffer]> (files w) /\
                  (buffer = [] -> r = Rejected (download_failed "Downloaded image file is empty")) /\
                  (buffer <> [] -> r = Resolved tt)).
Proof.
  intros Hk. unfold downloadImage.
  destruct imageUrl as [|x|url]; try (intros [= <- <-]; left; split; [done|by eexists]).
  destruct (falsy _); [intros [= <- <-]; left; split; [done|by eexists]|].
  destruct (if string_includes "figma.com" url then _ else _) as [[target|e0] w1] eqn:Hc.
  2:{ intros [= <- <-]. left. split; [|by eexists].
      destruct (string_includes "figma.com" url); [by eapply convert_files|congruence]. }
  assert (files w1 = files w) as H1.
  { destruct (string_includes "figma.com" url); [by eapply convert_files|congruence]. }
  pose proof (Hk target w1) as H2.
  destruct (fetch target w1) as [[e0|response] w2]; cbn [snd] in H2.
  { intros [= <- <-]. left. split; [congruence|by eexists]. }
  destruct (negb (res_ok response)).
  { intros [= <- <-]. left. split; [congruence|by eexists]. }
  destruct (match res_contentType response with Some _ => _ | None => _ end).
  { intros [= <- <-]. left. split; [congruence|by eexists]. }
  destruct (res_arrayBuffer response) as [e0|buffer].
  { intros [= <- <-]. left. split; [congruence|by eexists]. }
  destruct buffer as [|b buffer]; intros [= <- <-]; right; eexists;
    (split; [cbn; rewrite H2, H1; reflexivity|]); split; done.
Qed.

Lemma downloadImage_writes_only_output_witness :
  let w' := writeFileSync figma_path (png_signature ++ [x01]) world_without_code in
  (files w' = files world_without_code /\ exists e, Resolved tt = Rejected e) \/
  (exists buffer, files w' = <[figma_path := buffer]> (files world_without_code) /\
                  (buffer = [] -> Resolved tt = Rejected (download_failed "Downloaded image file is empty")) /\
                  (buffer <> [] -> Resolved tt = Resolved tt)).
Proof.
  apply (downloadImage_writes_only_output sample_fetch (JsString "https://example.com/figma.png")
           figma_path world_without_code).
  - intros target w0. reflexivity.
  - reflexivity.
Defined.

(** What a match of the PNG pattern looks like. *)
Lemma png_url_pattern_sound s m groups :
  match_here png_url_pattern s = Some (m, groups) ->
  exists a b,
    m = list_ascii_of_string "https://" ++ a ++ list_ascii_of_string ".png" ++ b /\
    Forall (fun x => x <> quote) a /\ Forall (fun x => x <> quote) b.
Proof.
  unfold png_url_pattern, lit. cbn [match_here].
  set (H := list_ascii_of_string "https://"). set (P := list_ascii_of_string ".png").
  destruct (has_prefix H s); [|done].
  set (s1 := drop (length H) s).
  destruct (give_back _ s1 _ _ _) as [[m1 g1]|] eqn:H1; [|done]. intros [= <- <-].
  apply give_back_sound in H1 as (j1 & m2 & g2 & Hj1 & H2 & -> & _).
  set (s2 := drop j1 s1) in *.
  destruct (has_prefix P s2); [|done].
  set (s3 := drop (length P) s2) in *.
  destruct (give_back _ s3 _ _ _) as [[m3 g3]|] eqn:H3; [|done].
  injection H2 as <- _.
  apply give_back_sound in H3 as (j3 & m4 & g4 & Hj3 & H4 & -> & _).
  injection H4 as <- _. rewrite app_nil_r.
  exists (take j1 s1), (take j3 s3). split; [done|].
  split; apply run_chars; lia.
Qed.

(** X15.  What [convertFigmaUrlToImageUrl] resolves with.  The URL has an
    id of the file and of the node, and either the images API has answered
    the first request with a truthy value for the node, which is the result,
    whatever it is; or the result is a text found in the page of the design:
    it starts with [https://], holds [.png], and has no double quote in it. *)
Theorem convertFigmaUrlToImageUrl_resolved (fetch : Fetch) (figmaUrl : string)
    (w w' : World) (v : JsValue) :
  convertFigmaUrlToImageUrl fetch figmaUrl w = (Resolved v, w') ->
  exists ids,
    extractFigmaIds figmaUrl = inr ids /\
    ((exists response images,
        fetch (JsString ("https://www.figma.com/api/figma/1.0/images/" +:+ fileId ids
                         +:+ "?ids=" +:+ nodeId ids +:+ "&format=png&scale=2")) w
          = (Fetched response, w') /\
        res_ok response = true /\
        res_json response = inr (AnswerImages (Some images)) /\
        v = images (nodeId ids) /\ falsy v = false)
     \/
     (exists w1 pageResponse html before a b after,
        fetch (JsString figmaUrl) w1 = (Fetched pageResponse, w') /\
        res_ok pageResponse = true /\ res_text pageResponse = inr html /\
        html = before +:+ "https://" +:+ a +:+ ".png" +:+ b +:+ after /\
        v = JsString ("https://" +:+ a +:+ ".png" +:+ b) /\
        ~ occurs quote a /\ ~ occurs quote b)).
Proof.
  unfold convertFigmaUrlToImageUrl.
  destruct (extractFigmaIds figmaUrl) as [e|ids]; [done|].
  intros Hc. exists ids. split; [done|].
  set (apiUrl := JsString _) in *.
  assert (forall w1, image_url_from_page fetch figmaUrl w1 = (Resolved v, w') ->
            exists pageResponse html before a b after,
              fetch (JsString figmaUrl) w1 = (Fetched pageResponse, w') /\
              res_ok pageResponse = true /\ res_text pageResponse = inr html /\
              html = before +:+ "https://" +:+ a +:+ ".png" +:+ b +:+ after /\
              v = JsString ("https://" +:+ a +:+ ".png" +:+ b) /\
              ~ occurs quote a /\ ~ occurs quote b) as Hpage.
  { intros w1. unfold image_url_from_page.
    destruct (fetch (JsString figmaUrl) w1) as [[e|resp] w2] eqn:Hf; [done|].
    destruct (res_ok resp) eqn:Hok; [|done].
    destruct (res_text resp) as [e|html] eqn:Ht; [done|].
    destruct (regex_match _ _) as [[whole g]|] eqn:Hm; [|done].
    intros [= <- <-].
    apply regex_match_infix in Hm as (pre & Hm & Hs).
    apply png_url_pattern_sound in Hm as (a & b & -> & Ha & Hb).
    set (post := drop _ (drop _ _)) in Hs.
    exists resp, html, (string_of_list_ascii pre), (string_of_list_ascii a),
      (string_of_list_ascii b), (string_of_list_ascii post).
    repeat split; try done.
    - apply list_ascii_inj. rewrite Hs, !list_ascii_app, !list_ascii_of_string_of_list_ascii.
      by rewrite <- !app_assoc.
    - f_equal. apply list_ascii_inj.
      rewrite list_ascii_of_string_of_list_ascii, !list_ascii_app,
        !list_ascii_of_string_of_list_ascii. done.
    - by rewrite not_occurs, list_ascii_of_string_of_list_ascii.
    - by rewrite not_occurs, list_ascii_of_string_of_list_ascii. }
  destruct (fetch apiUrl w) as [[e|response] w1] eqn:Hf.
  { right. exists w1. by apply Hpage. }
  destruct (res_ok response) eqn:Hok; [|right; exists w1; by apply Hpage].
  destruct (res_json response) as [e|[|[images|]]] eqn:Hj;
    try (right; exists w1; by apply Hpage).
  destruct (falsy (images (nodeId ids))) eqn:Hfalsy; [right; exists w1; by apply Hpage|].
  injection Hc as <- <-. left. by exists response, images.
Qed.

Lemma convertFigmaUrlToImageUrl_resolved_witness :
  let v := JsString "https://cdn.example.com/0-1.png" in
  exists ids,
    extractFigmaIds design_url = inr ids /\
    ((exists response images,
        figma_fetch (JsString ("https://www.figma.com/api/figma/1.0/images/" +:+ fileId ids
                               +:+ "?ids=" +:+ nodeId ids +:+ "&format=png&scale=2")) sample_world
          = (Fetched response, sample_world) /\
        res_ok response = true /\
        res_json response = inr (AnswerImages (Some images)) /\
        v = images (nodeId ids) /\ falsy v = false)
     \/
     (exists w1 pageResponse html before a b after,
        figma_fetch (JsString design_url) w1 = (Fetched pageResponse, sample_world) /\
        res_ok pageResponse = true /\ res_text pageResponse = inr html /\
        html = before +:+ "https://" +:+ a +:+ ".png" +:+ b +:+ after /\
        v = JsString ("https://" +:+ a +:+ ".png" +:+ b) /\
        ~ occurs quote a /\ ~ occurs quote b)).
Proof.
  apply (convertFigmaUrlToImageUrl_resolved figma_fetch design_url sample_world sample_world).
  vm_compute. reflexivity.
Defined.

(** X16.  When [downloadImageWithRetry] gives up, it has made an attempt and
    reports the number of attempts and the error of the last one, which
    carries the prefix of [downloadImage] again; asked for no attempt at all,
    it makes no request and fails on the error it never had. *)
Theorem downloadImageWithRetry_gives_up (fetch : Fetch) (imageUrl : JsValue)
    (outputPath : string) (maxRetries : option Z) (w w' : World) (e : JsError) :
  downloadImageWithRetry fetch imageUrl outputPath maxRetries w = (Rejected e, w') ->
  let n := default 3 maxRetries in
  (n <= 0 /\ w' = w /\
   message e = "Cannot read properties of undefined (reading 'message')") \/
  (1 <= n /\ exists msg,
     message e = "Failed to download image after " +:+ show_Z n
                 +:+ " attempts. Last error: Failed to download image: " +:+ msg).
Proof.
  intros [(Hn & -> & ->)|(Hn & w0 & e0 & w1 & Ha & ->)]%retry_loop_rejected n.
  - by left.
  - right. split; [done|]. apply downloadImage_rejected in Ha as [msg ->]. by exists msg.
Qed.

Lemma downloadImageWithRetry_gives_up_witness :
  let n := default 3 None in
  let e := {| message := "Failed to download image after 3 attempts. Last error: "
                         +:+ "Failed to download image: getaddrinfo ENOTFOUND example.com" |} in
  let w' := {| files := files sample_world; clock := clock sample_world + 2000 + 4000 |} in
  (n <= 0 /\ w' = sample_world /\
   message e = "Cannot read properties of undefined (reading 'message')") \/
  (1 <= n /\ exists msg,
     message e = "Failed to download image after " +:+ show_Z n
                 +:+ " attempts. Last error: Failed to download image: " +:+ msg).
Proof.
  apply (downloadImageWithRetry_gives_up unreachable_fetch (JsString "https://example.com/figma.png")
           figma_path None sample_world).
  vm_compute. reflexivity.
Defined.

(** ** server.js: the files of the routes *)

(** *** Paths *)

Lemma split_slash_plain s rest cur :
  Forall (fun c => is_slash c = false) s ->
  split_slash (s ++ rest) cur = split_slash rest (rev s ++ cur).
Proof.
  intros H. revert cur. induction H as [|c s Hc Hs IH]; intros cur; [done|].
  cbn [app split_slash]. rewrite Hc, IH. cbn [rev]. by rewrite <- app_assoc.
Qed.

Lemma split_slash_at a b cur :
  split_slash (a ++ "/"%char :: b) cur = split_slash a cur ++ split_slash b [].
Proof.
  revert cur. induction a as [|c a IH]; intros cur; [done|].
  cbn [app split_slash]. destruct (is_slash c); [by rewrite IH|apply IH].
Qed.

Lemma split_slash_free s cur :
  Forall (fun c => is_slash c = false) cur ->
  Forall (Forall (fun c => is_slash c = false)) (split_slash s cur).
Proof.
  revert cur. induction s as [|c s IH]; intros cur Hcur; cbn [split_slash].
  - constructor; [|constructor]. by apply Forall_rev.
  - destruct (is_slash c) eqn:E.
    + constructor; [by apply Forall_rev|]. by apply IH.
    + apply IH. by constructor.
Qed.

(** The segments of a joined path. *)
Lemma split_join_slash segs :
  segs <> [] -> Forall (Forall (fun c => is_slash c = false)) segs ->
  split_slash (join_slash segs) [] = segs.
Proof.
  intros Hne H. induction H as [|seg segs Hseg Hsegs IH]; [done|].
  destruct segs as [|seg' segs].
  - cbn [join_slash]. rewrite <- (app_nil_r seg) at 1.
    rewrite split_slash_plain by done. cbn [split_slash]. by rewrite app_nil_r, rev_involutive.
  - change (join_slash (seg :: seg' :: segs)) with (seg ++ "/"%char :: join_slash (seg' :: segs)).
    rewrite split_slash_at, IH by done.
    rewrite <- (app_nil_r seg) at 1. rewrite split_slash_plain by done.
    cbn [split_slash]. by rewrite app_nil_r, rev_involutive.
Qed.

Lemma seg_eqb_false a b : a <> b -> seg_eqb a b = false.
Proof. intros H. unfold seg_eqb. by apply bool_decide_eq_false_2. Qed.

Lemma seg_eqb_true a : seg_eqb a a = true.
Proof. unfold seg_eqb. by apply bool_decide_eq_true_2. Qed.

Lemma normalize_segments_app above a b acc :
  normalize_segments above (a ++ b) acc
  = normalize_segments above b (normalize_segments above a acc).
Proof.
  revert acc. induction a as [|seg a IH]; intros acc; [done|].
  cbn [app normalize_segments].
  destruct (seg_eqb seg [] || seg_eqb seg dot); [apply IH|].
  destruct (seg_eqb seg dotdot); [|apply IH].
  destruct acc as [|last acc']; [apply IH|].
  destruct (seg_eqb last dotdot); apply IH.
Qed.

Lemma normalize_segments_regular segs acc :
  Forall regular segs ->
  normalize_segments false segs acc = rev segs ++ acc.
Proof.
  intros H. revert acc. induction H as [|seg segs (H1 & H2 & H3 & _) Hsegs IH]; intros acc; [done|].
  cbn [normalize_segments]. rewrite !seg_eqb_false by done. cbn [orb].
  rewrite IH. cbn [rev]. by rewrite <- app_assoc.
Qed.

(** Below the root the kept segments are regular. *)
Lemma normalize_segments_kept segs acc :
  Forall (Forall (fun c => is_slash c = false)) segs -> Forall regular acc ->
  Forall regular (normalize_segments false segs acc).
Proof.
  intros H. revert acc. induction H as [|seg segs Hseg Hsegs IH]; intros acc Hacc; [done|].
  cbn [normalize_segments].
  destruct (seg_eqb seg [] || seg_eqb seg dot) eqn:E1; [by apply IH|].
  destruct (seg_eqb seg dotdot) eqn:E2.
  - destruct acc as [|last acc']; [by apply IH|].
    apply Forall_cons in Hacc as [(_ & _ & Hl & _) Hacc'].
    rewrite seg_eqb_false by done. by apply IH.
  - apply IH. constructor; [|done].
    apply orb_false_iff in E1 as [E0 E1]. unfold seg_eqb in *.
    apply bool_decide_eq_false in E0, E1, E2. done.
Qed.

Lemma join_slash_snoc segs seg :
  segs <> [] -> join_slash (segs ++ [seg]) = join_slash segs ++ "/"%char :: seg.
Proof.
  induction segs as [|s segs IH]; [done|]. intros _.
  destruct segs as [|s' segs]; [done|].
  change (join_slash ((s :: s' :: segs) ++ [seg]))
    with (s ++ "/"%char :: join_slash ((s' :: segs) ++ [seg])).
  rewrite IH by done. cbn [join_slash]. by rewrite <- app_assoc.
Qed.

Lemma join_slash_nonempty segs :
  segs <> [] -> Forall regular segs -> join_slash segs <> [].
Proof.
  intros Hne H. destruct H as [|seg segs (Hs & _) _]; [done|].
  destruct segs; cbn [join_slash]; [done|]. by destruct seg.
Qed.

(** The last character of a joined path is no slash. *)
Lemma join_slash_last segs d :
  segs <> [] -> Forall regular segs -> is_slash (List.last (join_slash segs) d) = false.
Proof.
  intros Hne H. induction H as [|seg segs Hseg Hsegs IH]; [done|].
  destruct segs as [|seg' segs].
  - cbn [join_slash]. destruct Hseg as (Hs & _ & _ & Hf).
    destruct (exists_last Hs) as (l & c & ->). rewrite List.last_last.
    apply Forall_app in Hf as [_ Hf]. by apply Forall_inv in Hf.
  - change (join_slash (seg :: seg' :: segs)) with (seg ++ "/"%char :: join_slash (seg' :: segs)).
    assert (join_slash (seg' :: segs) <> []) as Hj by (by apply join_slash_nonempty).
    destruct (exists_last Hj) as (l & c & Hl). rewrite Hl in *.
    replace (seg ++ "/"%char :: l ++ [c]) with ((seg ++ "/"%char :: l) ++ [c])
      by (by rewrite <- app_assoc).
    rewrite List.last_last. specialize (IH ltac:(done)). by rewrite List.last_last in IH.
Qed.

Lemma regular_free segs :
  Forall regular segs -> Forall (Forall (fun c => is_slash c = false)) segs.
Proof. intros H. eapply Forall_impl; [exact H|]. by intros seg (_ & _ & _ & Hf). Qed.

Lemma normalize_rooted rest segs :
  segs <> [] -> Forall regular segs ->
  normalize_segments false (split_slash rest []) [] = rev segs ->
  is_slash (List.last rest "/"%char) = false ->
  list_ascii_of_string (normalize (string_of_list_ascii ("/"%char :: rest)))
    = "/"%char :: join_slash segs.
Proof.
  intros Hne Hreg Hn Hlast. unfold normalize.
  rewrite list_ascii_of_string_of_list_ascii.
  change (is_slash "/") with true. cbn [negb].
  change (split_slash ("/"%char :: rest) []) with ([] :: split_slash rest []).
  cbn [normalize_segments]. rewrite seg_eqb_true. cbn [orb].
  rewrite Hn, rev_involutive, Hlast.
  pose proof (join_slash_nonempty segs Hne Hreg) as Hj.
  destruct (join_slash segs) eqn:E; [done|].
  by rewrite list_ascii_of_string_of_list_ascii.
Qed.

(** [join] under a canonical directory appends the name. *)
Lemma join_canonical dir name :
  canonical dir -> regular (list_ascii_of_string name) ->
  join dir name = dir +:+ "/" +:+ name /\ canonical (join dir name).
Proof.
  intros (segs & Hne & Hreg & Hd) Hname.
  assert (list_ascii_of_string (join dir name)
          = "/"%char :: join_slash (segs ++ [list_ascii_of_string name])) as Hj.
  { unfold join.
    rewrite <- (string_of_list_ascii_of_string (dir +:+ "/" +:+ name)).
    rewrite !list_ascii_app, Hd. cbn [app].
    change (list_ascii_of_string "/") with ["/"%char].
    replace (join_slash segs ++ ["/"%char] ++ list_ascii_of_string name)
      with (join_slash (segs ++ [list_ascii_of_string name]))
      by (by rewrite join_slash_snoc).
    assert (Forall regular (segs ++ [list_ascii_of_string name])) as Hall.
    { apply Forall_app. split; [done|]. by constructor. }
    apply normalize_rooted.
    - by destruct segs.
    - done.
    - rewrite split_join_slash; [|by destruct segs|by apply regular_free].
      rewrite normalize_segments_regular by done. by rewrite app_nil_r.
    - apply join_slash_last; [by destruct segs|done]. }
  split.
  - apply list_ascii_inj. rewrite Hj, !list_ascii_app, Hd. cbn [app].
    by rewrite join_slash_snoc.
  - exists (segs ++ [list_ascii_of_string name]). split; [by destruct segs|].
    split; [|done]. apply Forall_app. split; [done|]. by constructor.
Qed.

Lemma last_app_nonempty {A} (a b : list A) d : b <> [] -> List.last (a ++ b) d = List.last b d.
Proof.
  intros Hb. destruct (exists_last Hb) as (l & c & ->).
  by rewrite app_assoc, !List.last_last.
Qed.

Lemma regular_last seg d : regular seg -> is_slash (List.last seg d) = false.
Proof.
  intros (Hs & _ & _ & Hf). destruct (exists_last Hs) as (l & c & ->).
  rewrite List.last_last. apply Forall_app in Hf as [_ Hf]. by apply Forall_inv in Hf.
Qed.

Lemma prefix_slash dir : String.prefix "/" dir = true -> exists rest, dir = String "/" rest.
Proof.
  destruct dir as [|c0 rest]; [done|]. intros H.
  change (String.prefix "/" (String c0 rest))
    with (if ascii_dec "/" c0 then String.prefix "" rest else false) in H.
  destruct (ascii_dec "/" c0) as [<-|]; [eauto|discriminate].
Qed.

(** [join] of an absolute directory and a plain name is canonical. *)
Lemma join_absolute dir name :
  String.prefix "/" dir = true -> regular (list_ascii_of_string name) ->
  canonical (join dir name).
Proof.
  intros [rest ->]%prefix_slash Hname. set (lname := list_ascii_of_string name) in *.
  set (acc := normalize_segments false (split_slash (list_ascii_of_string rest) []) []).
  assert (Forall regular acc) as Hacc.
  { apply normalize_segments_kept; [|done]. by apply split_slash_free. }
  exists (rev acc ++ [lname]).
  split; [by destruct (rev acc)|].
  assert (Forall regular (rev acc ++ [lname])) as Hall.
  { apply Forall_app. split; [by apply Forall_rev|by constructor]. }
  split; [done|]. unfold join.
  rewrite <- (string_of_list_ascii_of_string (String "/" rest +:+ "/" +:+ name)).
  rewrite !list_ascii_app. cbn [list_ascii_of_string app].
  apply normalize_rooted.
  - by destruct (rev acc).
  - done.
  - change (list_ascii_of_string "/" ++ list_ascii_of_string name) with ("/"%char :: lname).
    rewrite split_slash_at, normalize_segments_app. fold acc. fold lname.
    rewrite <- (app_nil_r lname) at 1.
    rewrite split_slash_plain by (by destruct Hname as (_ & _ & _ & ?)).
    cbn [split_slash]. rewrite app_nil_r, rev_involutive.
    destruct Hname as (H1 & H2 & H3 & _).
    cbn [normalize_segments]. rewrite !seg_eqb_false by done. cbn [orb].
    by rewrite rev_app_distr, rev_involutive.
  - change (list_ascii_of_string "/" ++ list_ascii_of_string name) with ("/"%char :: lname).
    rewrite (last_app_nonempty _ ("/"%char :: lname)) by done.
    change ("/"%char :: lname) with (["/"%char] ++ lname).
    rewrite last_app_nonempty by apply Hname. by apply regular_last.
Qed.

Lemma drop_while_app_all P (a b : list ascii) :
  Forall (fun c => P c = true) a -> drop_while P (a ++ b) = drop_while P b.
Proof. induction 1 as [|c a Hc Ha IH]; [done|]. cbn. by rewrite Hc. Qed.

Lemma drop_while_stop P (a : list ascii) :
  match a with [] => True | c :: _ => P c = false end -> drop_while P a = a.
Proof. destruct a as [|c a]; [done|]. cbn. by intros ->. Qed.

(** [dirname] undoes [join] under a canonical directory. *)
Lemma dirname_join dir name :
  canonical dir -> regular (list_ascii_of_string name) ->
  dirname (join dir name) = dir.
Proof.
  intros Hdir Hname. destruct (join_canonical dir name Hdir Hname) as [-> _].
  destruct Hdir as (segs & Hne & Hreg & Hd).
  set (lname := list_ascii_of_string name) in *.
  unfold dirname. rewrite !list_ascii_app, Hd. cbn [app].
  change (is_slash "/") with true.
  change (list_ascii_of_string "/" ++ lname) with ("/"%char :: lname).
  set (body := join_slash segs).
  assert (body <> []) as Hbody by (by apply join_slash_nonempty).
  destruct Hname as (Hn & _ & _ & Hf).
  assert (drop_while (fun c => negb (is_slash c))
            (drop_while is_slash
               (rev (body ++ list_ascii_of_string "/" ++ list_ascii_of_string name)))
          = "/"%char :: rev body) as ->.
  { fold lname. change (list_ascii_of_string "/" ++ lname) with ("/"%char :: lname).
    rewrite rev_app_distr. cbn [rev]. rewrite <- app_assoc. cbn [app].
    rewrite (drop_while_stop is_slash).
    2:{ destruct (exists_last Hn) as (l & c & El). rewrite El, rev_app_distr. cbn.
        rewrite El in Hf. apply Forall_app in Hf as [_ Hf]. by apply Forall_inv in Hf. }
    rewrite drop_while_app_all.
    2:{ apply Forall_rev. eapply Forall_impl; [exact Hf|]. by intros c ->. }
    done. }
  cbn [length andb]. rewrite length_rev.
  destruct (length body) as [|k] eqn:El; [by destruct body|].
  cbn [Nat.eqb]. cbn [take]. rewrite <- El, take_app_length.
  apply list_ascii_inj. by rewrite list_ascii_of_string_of_list_ascii, Hd.
Qed.

(** *** The routes *)

Lemma regular_name (name : string) :
  Forall (fun c => is_slash c = false) (list_ascii_of_string name) ->
  name <> "" -> name <> "." -> name <> ".." ->
  regular (list_ascii_of_string name).
Proof.
  intros Hf H0 H1 H2. unfold regular. repeat split; [| | |done].
  - by rewrite list_ascii_nil.
  - intros H. apply H1. apply list_ascii_inj. by rewrite H.
  - intros H. apply H2. apply list_ascii_inj. by rewrite H.
Qed.

Ltac regular_literal :=
  apply regular_name; [cbn; repeat constructor|done|done|done].

Lemma assetsDir_canonical dir : String.prefix "/" dir = true -> canonical (assetsDir dir).
Proof. intros H. apply join_absolute; [done|regular_literal]. Qed.

(** Where the server keeps its files. *)
Lemma server_paths dir :
  String.prefix "/" dir = true ->
  figmaImagePath dir = assetsDir dir +:+ "/figma.png" /\
  codeImagePath dir = assetsDir dir +:+ "/code.png" /\
  join (assetsDir dir) "figma-upload.png" = assetsDir dir +:+ "/figma-upload.png" /\
  diff_path (figmaImagePath dir) = assetsDir dir +:+ "/diff.png" /\
  join (assetsDir dir) "diff.png" = assetsDir dir +:+ "/diff.png".
Proof.
  intros H. pose proof (assetsDir_canonical dir H) as Hc.
  unfold figmaImagePath, codeImagePath, diff_path.
  rewrite dirname_join by (done || regular_literal).
  repeat split; apply join_canonical; (done || regular_literal).
Qed.

Lemma app_ne (a b c : string) : b <> c -> a +:+ b <> a +:+ c.
Proof. intros Hne H. apply Hne. by apply (String.app_inj a). Qed.

Lemma takeScreenshot_files browser pageUrl outputPath w r w' :
  (forall url w0, files (browser url w0).2 = files w0) ->
  takeScreenshot browser pageUrl outputPath w = (r, w') ->
  forall p, p <> outputPath -> files w' !! p = files w !! p.
Proof.
  intros Hk. unfold takeScreenshot.
  destruct pageUrl as [|x|url]; try (by intros [= <- <-]).
  destruct (falsy _); [by intros [= <- <-]|].
  pose proof (Hk url w) as H1.
  destruct (browser url w) as [outcome w1]; cbn [snd] in H1.
  destruct (screenshot_steps _ outcome outputPath w1) as [r0 w2] eqn:Hs.
  intros Hr p Hp. assert (w' = w2) as -> by (by destruct outcome; injection Hr).
  apply screenshot_steps_cases in Hs as [[-> _]|(png & -> & _)]; [by rewrite H1|].
  cbn. by rewrite lookup_insert_ne, H1.
Qed.

Lemma compareImages_files resemble p1 p2 options w r w' :
  (forall call w0, files (resemble call w0).2 = files w0) ->
  compareImages resemble p1 p2 options w = (r, w') ->
  forall p, p <> diff_path p1 -> files w' !! p = files w !! p.
Proof.
  intros Hk. unfold compareImages.
  destruct (negb (existsSync w p1)); [by intros [= <- <-]|].
  destruct (negb (existsSync w p2)); [by intros [= <- <-]|].
  cbv zeta.
  match goal with |- context [resemble ?c w] => pose proof (Hk c w) as H1;
    destruct (resemble c w) as [[data|e] w1] end; cbn [snd] in H1.
  - destruct (data_getBuffer data) as [[error|buf]|]; intros [= <- <-] p Hp;
      [by rewrite H1| |by rewrite H1].
    cbn. fold (diff_path p1). by rewrite lookup_insert_ne, H1.
  - intros [= <- <-] p _. by rewrite H1.
Qed.

Section MoreRoutes.
Variable downloadImage : JsValue -> string -> World -> Outcome unit * World.
Variable browser : Browser.
Variable resemble : Engine.
Variable server_dir : string.

(** A report is sent only after the three steps. *)
Lemma post_compare_ok req w resp w' :
  post_compare downloadImage browser resemble server_dir req w = (resp, w') ->
  status_code resp = 200 ->
  exists u w1 v w2 comparisonResult,
    downloadImage (figmaImageUrl req) (figmaImagePath server_dir) w = (Resolved u, w1) /\
    takeScreenshot browser (pageUrl req) (codeImagePath server_dir) w1 = (Resolved v, w2) /\
    compareImages resemble (figmaImagePath server_dir) (codeImagePath server_dir) no_options w2
      = (Resolved comparisonResult, w') /\
    resp = json (ReportBody (build_response comparisonResult w')).
Proof.
  unfold post_compare. destruct (falsy _ || falsy _); [by intros [= <- <-]|].
  destruct (downloadImage _ _ w) as [[u|e] w1] eqn:Hd; [|by intros [= <- <-]].
  destruct (takeScreenshot _ _ _ w1) as [[v|e] w2] eqn:Ht; [|by intros [= <- <-]].
  destruct (compareImages _ _ _ _ w2) as [[r|e] w3] eqn:Hc; [|by intros [= <- <-]].
  intros [= <- <-] _. by exists u, w1, v, w2, r.
Qed.

Lemma compareImages_resolved_inv p1 p2 options w r w' :
  compareImages resemble p1 p2 options w = (Resolved r, w') ->
  exists data w1,
    resemble (engine_call p1 p2 options) w = (Completed data, w1) /\
    w' = match data_getBuffer data with
         | Some (inr buf) => writeFileSync (diff_path p1) buf w1
         | _ => w1
         end.
Proof.
  destruct (existsSync w p1) eqn:E1; [|by rewrite compareImages_first_missing].
  destruct (existsSync w p2) eqn:E2; [|by rewrite compareImages_second_missing].
  destruct (resemble (engine_call p1 p2 options) w) as [[data|e] w1] eqn:Er.
  - destruct (data_getBuffer data) as [[error|buf]|] eqn:Hb.
    + by rewrite (compareImages_callback_threw _ _ _ _ _ _ _ _ E1 E2 Er Hb).
    + rewrite (compareImages_completed _ _ _ _ _ _ _ E1 E2 Er) by (by rewrite Hb).
      rewrite Hb. intros [= _ <-]. exists data, w1. by rewrite Hb.
    + rewrite (compareImages_completed _ _ _ _ _ _ _ E1 E2 Er) by (by rewrite Hb).
      rewrite Hb. intros [= _ <-]. exists data, w1. by rewrite Hb.
  - by rewrite (compareImages_threw _ _ _ _ _ _ _ E1 E2 Er).
Qed.

(** X17.  The diff image is written where [GET /diff.png] reads it: after a
    report from [/compare], the route serves the buffer the engine gave. *)
Theorem compare_diff_served (req : CompareRequest) (w w' : World) (resp : Response) :
  String.prefix "/" server_dir = true ->
  post_compare downloadImage browser resemble server_dir req w = (resp, w') ->
  status_code resp = 200 ->
  exists w2 data w3,
    resemble (engine_call (figmaImagePath server_dir) (codeImagePath server_dir) no_options) w2
      = (Completed data, w3) /\
    forall buf, data_getBuffer data = Some (inr buf) ->
      get_diff server_dir w' = ReplyFile (assetsDir server_dir +:+ "/diff.png") buf.
Proof.
  intros Hdir Hp Hs.
  destruct (post_compare_ok _ _ _ _ Hp Hs) as (u & w1 & v & w2 & r & _ & _ & Hc & _).
  apply compareImages_resolved_inv in Hc as (data & w3 & He & ->).
  exists w2, data, w3. split; [done|]. intros buf ->.
  destruct (server_paths server_dir Hdir) as (_ & _ & _ & Hd1 & Hd2).
  unfold get_diff, sendFile, existsSync. rewrite Hd1, Hd2. cbn.
  rewrite lookup_insert_eq. rewrite bool_decide_eq_true_2 by eauto. done.
Qed.
End MoreRoutes.

Lemma compare_diff_served_witness :
  exists w2 data w3,
    sized_engine (engine_call (figmaImagePath "/app/backend") (codeImagePath "/app/backend")
                    no_options) w2
      = (Completed data, w3) /\
    forall buf, data_getBuffer data = Some (inr buf) ->
      get_diff "/app/backend" compared.2
        = ReplyFile (assetsDir "/app/backend" +:+ "/diff.png") buf.
Proof.
  apply (compare_diff_served (downloadImage sample_fetch) sample_browser sized_engine
           "/app/backend" sample_request sample_world compared.2 compared.1).
  - reflexivity.
  - vm_compute. reflexivity.
  - vm_compute. reflexivity.
Defined.

Lemma serve_present dir name missing (w : World) content :
  files w !! join (assetsDir dir) name = Some content ->
  (if existsSync w (join (assetsDir dir) name) then sendFile (join (assetsDir dir) name) w
   else ReplyJson 404 [("error", missing)])
  = ReplyFile (join (assetsDir dir) name) content.
Proof.
  intros H. unfold existsSync, sendFile. rewrite H.
  by rewrite bool_decide_eq_true_2 by eauto.
Qed.

(** X18.  With collaborators that leave the files alone, after a report from
    [/compare] the routes [GET /figma.png] and [GET /code.png] serve the
    image that was downloaded and the screenshot that was taken, neither of
    them empty. *)
Theorem compare_images_served (fetch : Fetch) (browser : Browser) (resemble : Engine)
    (server_dir : string) (req : CompareRequest) (w w' : World) (resp : Response) :
  String.prefix "/" server_dir = true ->
  (forall target w0, files (fetch target w0).2 = files w0) ->
  (forall url w0, files (browser url w0).2 = files w0) ->
  (forall call w0, files (resemble call w0).2 = files w0) ->
  post_compare (downloadImage fetch) browser resemble server_dir req w = (resp, w') ->
  status_code resp = 200 ->
  exists image png,
    image <> [] /\ png <> [] /\
    get_figma server_dir w' = ReplyFile (assetsDir server_dir +:+ "/figma.png") image /\
    get_code server_dir w' = ReplyFile (assetsDir server_dir +:+ "/code.png") png /\
    (exists target w1 response w2,
       fetch target w1 = (Fetched response, w2) /\ res_arrayBuffer response = inr image) /\
    (exists url w1 w2, browser url w1 = (Captured png, w2)).
Proof.
  intros Hdir Hf Hb Hr Hp Hs.
  destruct (post_compare_ok _ _ _ _ _ _ _ _ Hp Hs) as (u & w1 & v & w2 & r & Hd & Ht & Hc & _).
  destruct (server_paths server_dir Hdir) as (Pf & Pc & _ & Pd & Pd').
  pose proof Hd as (target & wa & response & wb & ct & image & Hfetch & _ & _ & _ & Hbuf & Hne & ->)
    %downloadImage_resolved_inv.
  pose proof Ht as (url & png & wc & _ & _ & Hpng & Hbr & ->)%takeScreenshot_resolved.
  exists image, png. split; [done|]. split; [done|].
  assert (forall p, p <> diff_path (figmaImagePath server_dir) ->
            files w' !! p = files (writeFileSync (codeImagePath server_dir) png wc) !! p) as Hw'.
  { by apply (compareImages_files _ _ _ _ _ _ _ Hr Hc). }
  pose proof (Hb url (writeFileSync (figmaImagePath server_dir) image wb)) as Hwc.
  rewrite Hbr in Hwc. cbn [snd] in Hwc.
  split; [|split; [|split]].
  - unfold get_figma. fold (figmaImagePath server_dir). rewrite <- Pf.
    apply serve_present. fold (figmaImagePath server_dir).
    rewrite Hw' by (rewrite Pd, Pf; by apply app_ne).
    cbn. rewrite lookup_insert_ne by (rewrite Pc, Pf; by apply app_ne).
    rewrite Hwc. cbn. apply lookup_insert_eq.
  - unfold get_code. fold (codeImagePath server_dir). rewrite <- Pc.
    apply serve_present. fold (codeImagePath server_dir).
    rewrite Hw' by (rewrite Pd, Pc; by apply app_ne).
    cbn. apply lookup_insert_eq.
  - by exists target, wa, response, wb.
  - by exists url, (writeFileSync (figmaImagePath server_dir) image wb), wc.
Qed.

Lemma compare_images_served_witness :
  exists image png,
    image <> [] /\ png <> [] /\
    get_figma "/app/backend" compared.2
      = ReplyFile (assetsDir "/app/backend" +:+ "/figma.png") image /\
    get_code "/app/backend" compared.2
      = ReplyFile (assetsDir "/app/backend" +:+ "/code.png") png /\
    (exists target w1 response w2,
       sample_fetch target w1 = (Fetched response, w2) /\ res_arrayBuffer response = inr image) /\
    (exists url w1 w2, sample_browser url w1 = (Captured png, w2)).
Proof.
  apply (compare_images_served sample_fetch sample_browser sized_engine "/app/backend"
           sample_request sample_world compared.2 compared.1).
  - reflexivity.
  - intros target w0. reflexivity.
  - intros url w0. reflexivity.
  - intros call w0. reflexivity.
  - vm_compute. reflexivity.
  - vm_compute. reflexivity.
Defined.

(** X19.  The uploaded file of [/compare-file] is kept as
    [assets/figma-upload.png]; it is removed when the report is sent, and
    with collaborators that leave the files alone it stays on disk after
    every other answer to an image upload. *)
Theorem compare_file_upload_cleanup (browser : Browser) (resemble : Engine)
    (server_dir : string) (f : UploadedFile) (page : JsValue) (w w' : World) (resp : Response) :
  String.prefix "/" server_dir = true ->
  String.prefix "image/" (mimetype f) = true ->
  (forall url w0, files (browser url w0).2 = files w0) ->
  (forall call w0, files (resemble call w0).2 = files w0) ->
  post_compare_file browser resemble server_dir
    {| figmaImage := Some f; file_pageUrl := page |} w = (resp, w') ->
  let uploadPath := assetsDir server_dir +:+ "/figma-upload.png" in
  (status_code resp = 200 -> files w' !! uploadPath = None) /\
  (status_code resp <> 200 -> files w' !! uploadPath = Some (upload_content f)).
Proof.
  intros Hdir Himg Hb Hr. unfold post_compare_file. cbn [figmaImage file_pageUrl].
  rewrite Himg.
  destruct (server_paths server_dir Hdir) as (Pf & Pc & Pu & Pd & _).
  rewrite Pu. set (uploadPath := assetsDir server_dir +:+ "/figma-upload.png").
  set (w0 := writeFileSync uploadPath (upload_content f) w).
  assert (files w0 !! uploadPath = Some (upload_content f)) as H0 by apply lookup_insert_eq.
  destruct (falsy page).
  { intros [= <- <-]. cbn. split; done. }
  unfold copy. rewrite H0.
  set (w1 := writeFileSync (figmaImagePath server_dir) (upload_content f) w0).
  assert (files w1 !! uploadPath = Some (upload_content f)) as H1.
  { cbn. rewrite lookup_insert_ne by (rewrite Pf; by apply app_ne). done. }
  destruct (takeScreenshot browser page (codeImagePath server_dir) w1) as [[v|e] w2] eqn:Ht.
  2:{ intros [= <- <-]. cbn. split; [done|]. intros _.
      rewrite (takeScreenshot_files _ _ _ _ _ _ Hb Ht) by (rewrite Pc; by apply app_ne). done. }
  assert (files w2 !! uploadPath = Some (upload_content f)) as H2.
  { rewrite (takeScreenshot_files _ _ _ _ _ _ Hb Ht) by (rewrite Pc; by apply app_ne). done. }
  destruct (compareImages resemble _ _ no_options w2) as [[r|e] w3] eqn:Hc.
  - intros [= <- <-]. cbn. split; [|done]. intros _. apply lookup_delete_eq.
  - intros [= <- <-]. cbn. split; [done|]. intros _.
    rewrite (compareImages_files _ _ _ _ _ _ _ Hr Hc) by (rewrite Pd; by apply app_ne). done.
Qed.

Lemma compare_file_upload_cleanup_witness :
  let uploadPath := assetsDir "/app/backend" +:+ "/figma-upload.png" in
  (status_code compared_file.1 = 200 -> files compared_file.2 !! uploadPath = None) /\
  (status_code compared_file.1 <> 200 ->
     files compared_file.2 !! uploadPath = Some (upload_content uploaded_png)).
Proof.
  apply (compare_file_upload_cleanup sample_browser sized_engine "/app/backend" uploaded_png
           (JsString "http://localhost:3000") sample_world compared_file.2 compared_file.1).
  - reflexivity.
  - reflexivity.
  - intros url w0. reflexivity.
  - intros call w0. reflexivity.
  - vm_compute. reflexivity.
Defined.

(** ** Index.tsx: the page *)

(** *** The state and the requests *)


Lemma step_quiet ev st st' :
  Page.step ev st = Some st' -> page_quiet st -> page_quiet st'.
Proof.
  unfold page_quiet. intros Hs [Hc Hr].
  destruct ev as [v|v|t|file| |s| |v]; cbn [Page.step] in Hs.
  - destruct (Page.showResults st) eqn:E1, (Page.isComparing st) eqn:E2; try discriminate.
    injection Hs as <-. cbn. by rewrite E1, E2.
  - destruct (Page.showResults st) eqn:E1, (Page.isComparing st) eqn:E2; try discriminate.
    injection Hs as <-. cbn. by rewrite E1, E2.
  - destruct (Page.showResults st) eqn:E1; try discriminate.
    injection Hs as <-. cbn. rewrite E1. split; [|done]. intros H. by destruct (Hc H).
  - destruct (Page.showResults st) eqn:E1, (Page.isComparing st) eqn:E2; try discriminate.
    injection Hs as <-. unfold Page.handleFileChange.
    destruct file as [f|]; [destruct (String.prefix _ _)|]; cbn; by rewrite E1, E2.
  - destruct (Page.showResults st) eqn:E1; try discriminate.
    destruct (Page.compare_disabled st); try discriminate.
    injection Hs as <-. cbn. by rewrite E1.
  - destruct (Page.isComparing st) eqn:E2; try discriminate.
    destruct (Hc eq_refl) as [E1 E3].
    injection Hs as <-. unfold Page.handleCompare_end.
    destruct s as [e|response]; [|destruct (negb _)]; cbn; rewrite ?E1, ?E3; done.
  - destruct (Page.showResults st) eqn:E1; try discriminate.
    injection Hs as <-. cbn. done.
  - destruct (Page.showResults st) eqn:E1; try discriminate.
    injection Hs as <-. cbn. rewrite E1. split; [|done]. intros H. by destruct (Hc H).
Qed.

Lemma run_invariant (P : Page.State -> Prop) :
  (forall ev st st', Page.step ev st = Some st' -> P st -> P st') ->
  forall evs st st', Page.run evs st = Some st' -> P st -> P st'.
Proof.
  intros Hstep evs. induction evs as [|ev rest IH]; intros st st' Hrun HP.
  - by injection Hrun as <-.
  - cbn [Page.run] in Hrun. destruct (Page.step ev st) as [st1|] eqn:Es; [|done].
    eapply IH; [exact Hrun|]. by eapply Hstep.
Qed.

Lemma step_chosen ev st st' :
  Page.step ev st = Some st' -> page_chosen st -> page_chosen st'.
Proof.
  unfold page_chosen. intros Hs [Hf Hm].
  destruct ev as [v|v|t|file| |s| |v]; cbn [Page.step] in Hs;
    repeat match type of Hs with
           | (if ?c then _ else _) = _ => destruct c; try discriminate
           end; injection Hs as <-; try done.
  - split; [done|]. destruct t; cbn; auto.
  - unfold Page.handleFileChange. destruct file as [f|]; [destruct (String.prefix _ _) eqn:E|].
    + split; [|done]. cbn. by intros f' [= <-].
    + split; [|done]. cbn. done.
    + split; [|done]. cbn. done.
  - unfold Page.handleCompare_end. destruct s as [e|response]; [|destruct (negb _)]; done.
Qed.

(** What an enabled button sends. *)
Lemma request_complete st :
  page_chosen st -> Page.compare_disabled st = false ->
  (exists f, Page.request st = Page.PostCompareFile f (Page.pageUrl st) /\
             String.prefix "image/" (file_type f) = true /\ Page.pageUrl st <> "") \/
  (Page.request st = Page.PostCompare (Page.figmaUrl st) (Page.pageUrl st) /\
   Page.figmaUrl st <> "" /\ Page.pageUrl st <> "").
Proof.
  intros [Hf Hm]. unfold Page.compare_disabled, Page.request.
  intros Hd. apply orb_false_iff in Hd as [Hd H4]. apply orb_false_iff in Hd as [Hd H3].
  apply orb_false_iff in Hd as [H1 H2]. apply bool_decide_eq_false in H1.
  destruct Hm as [Hm|Hm]; rewrite Hm in *; cbn in H3, H4 |- *.
  - right. apply bool_decide_eq_false in H3. done.
  - destruct (Page.figmaFile st) as [f|] eqn:Ef; [|done].
    left. exists f. split; [done|]. split; [by apply Hf|done].
Qed.

(** X20.  The page never renders its error alert: whatever the user does and
    however the requests end, when the results view (the only place of the
    alert) is shown, the stored error is empty.  The message of a failed
    comparison is stored while the form is shown, where nothing renders
    it. *)
Theorem page_alert_never_shown (evs : list Page.Event) (st : Page.State) :
  Page.run evs Page.initial = Some st ->
  Page.alert st = None /\
  forall s st', Page.step (Page.Settle s) st = Some st' ->
    Page.alert st' = None /\
    (Page.showResults st' = false ->
     Page.error st' = match s with
                      | Page.Thrown e => message e
                      | Page.Answered response => Page.error_message (body response)
                      end).
Proof.
  intros Hrun.
  assert (page_quiet st) as Hq.
  { eapply (run_invariant page_quiet); [apply step_quiet|exact Hrun|]. by split. }
  assert (forall st0, page_quiet st0 -> Page.alert st0 = None) as Halert.
  { intros st0 [_ Hr]. unfold Page.alert. destruct (Page.showResults st0); [|done].
    rewrite Hr by done. done. }
  split; [by apply Halert|]. intros s st' Hs. split.
  - apply Halert. by eapply step_quiet.
  - cbn [Page.step] in Hs. destruct (Page.isComparing st); [|done].
    injection Hs as <-. unfold Page.handleCompare_end.
    destruct s as [e|response]; [done|]. destruct (negb _); [done|]. cbn. done.
Qed.

Lemma page_alert_never_shown_witness :
  exists st,
    Page.run failed_run Page.initial = Some st /\
    Page.error st = "Failed to fetch" /\ Page.showResults st = false /\
    Page.alert st = None.
Proof.
  eexists. split; [reflexivity|]. split; [reflexivity|]. split; [reflexivity|].
  apply (page_alert_never_shown failed_run). reflexivity.
Defined.

(** X21.  The button is enabled only for a complete request: whatever
    happened before, a click that the page accepts sends a non-empty page
    URL together with either a non-empty design URL to [/compare] or a file
    whose type starts with [image/] to [/compare-file]; and after the click
    no second click is accepted until the request has ended. *)
Theorem page_request_complete (evs : list Page.Event) (st st' : Page.State) :
  Page.run evs Page.initial = Some st ->
  Page.step Page.ClickCompare st = Some st' ->
  Page.pageUrl st <> "" /\
  ((exists f, Page.request st = Page.PostCompareFile f (Page.pageUrl st) /\
              Page.inputMethod st = "file" /\ Page.figmaFile st = Some f /\
              String.prefix "image/" (file_type f) = true) \/
   (Page.request st = Page.PostCompare (Page.figmaUrl st) (Page.pageUrl st) /\
    Page.inputMethod st = "url" /\ Page.figmaUrl st <> "")) /\
  Page.step Page.ClickCompare st' = None.
Proof.
  intros Hrun Hs.
  assert (page_chosen st) as [Hf Hm].
  { eapply (run_invariant page_chosen); [apply step_chosen|exact Hrun|].
    split; [done|by left]. }
  cbn [Page.step] in Hs. destruct (Page.showResults st) eqn:E1; [done|].
  destruct (Page.compare_disabled st) eqn:Hd; [done|]. injection Hs as <-.
  unfold Page.compare_disabled in Hd.
  apply orb_false_iff in Hd as [Hd H4]. apply orb_false_iff in Hd as [Hd H3].
  apply orb_false_iff in Hd as [H1 H2]. apply bool_decide_eq_false in H1.
  split; [done|]. split.
  - unfold Page.request. destruct Hm as [Hm|Hm]; rewrite Hm in *; cbn in H3, H4 |- *.
    + right. apply bool_decide_eq_false in H3. done.
    + destruct (Page.figmaFile st) as [f|] eqn:Ef; [|done].
      left. exists f. repeat split; try done. by apply Hf.
  - cbn. rewrite E1. cbn. unfold Page.compare_disabled. cbn.
    by rewrite orb_true_r.
Qed.

Lemma page_request_complete_witness :
  exists st st',
    Page.run upload_run Page.initial = Some st /\
    Page.step Page.ClickCompare st = Some st' /\
    Page.pageUrl st <> "" /\
    ((exists f, Page.request st = Page.PostCompareFile f (Page.pageUrl st) /\
                Page.inputMethod st = "file" /\ Page.figmaFile st = Some f /\
                String.prefix "image/" (file_type f) = true) \/
     (Page.request st = Page.PostCompare (Page.figmaUrl st) (Page.pageUrl st) /\
      Page.inputMethod st = "url" /\ Page.figmaUrl st <> "")) /\
    Page.step Page.ClickCompare st' = None.
Proof.
  eexists _, _. split; [reflexivity|]. split; [reflexivity|].
  apply (page_request_complete upload_run); reflexivity.
Defined.

(** X22.  The page and the server agree on what a request needs: the request
    of a click that the page accepts passes the checks of its route.  The
    answer is never the 400 of a missing parameter nor the refusal of a file
    that is no image; it is the report with status 200, or a 500 of a step
    of the comparison that failed. *)
Theorem page_request_passes_validation (fetch : Fetch) (browser : Browser) (resemble : Engine)
    (server_dir : string) (evs : list Page.Event) (st st' : Page.State) (w : World) :
  Page.run evs Page.initial = Some st ->
  Page.step Page.ClickCompare st = Some st' ->
  let response := (receive fetch browser resemble server_dir (Page.request st) w).1 in
  (status_code response = 200 /\ exists report, body response = ReportBody report) \/
  (status_code response = 500 /\
   exists msg, body response = ErrorBody "Comparison failed" msg \/
               body response = ErrorBody "File upload comparison failed" msg).
Proof.
  intros Hrun Hs.
  assert (page_chosen st) as Hc.
  { eapply (run_invariant page_chosen); [apply step_chosen|exact Hrun|].
    split; [done|by left]. }
  cbn [Page.step] in Hs. destruct (Page.showResults st); [done|].
  destruct (Page.compare_disabled st) eqn:Hd; [done|]. clear Hs.
  destruct (request_complete st Hc Hd) as [(f & -> & Hf & Hp)|(-> & Hu & Hp)];
    cbv zeta; cbn [receive].
  - unfold post_compare_file. cbn [figmaImage mimetype file_pageUrl falsy]. rewrite Hf.
    rewrite bool_decide_eq_false_2 by done.
    destruct (copy _ _ _) as [[u1|e1] w1]; [|cbn; right; eauto].
    destruct (takeScreenshot _ _ _ _) as [[u2|e2] w2]; [|cbn; right; eauto].
    destruct (compareImages _ _ _ _ _) as [[r|e3] w3]; cbn; [left|right]; eauto.
  - unfold post_compare. cbn [figmaImageUrl pageUrl falsy].
    rewrite !bool_decide_eq_false_2 by done. cbn [orb].
    destruct (downloadImage _ _ _ _) as [[u1|e1] w1]; [|cbn; right; eauto].
    destruct (takeScreenshot _ _ _ _) as [[u2|e2] w2]; [|cbn; right; eauto].
    destruct (compareImages _ _ _ _ _) as [[r|e3] w3]; cbn; [left|right]; eauto.
Qed.

Lemma page_request_passes_validation_witness :
  exists st,
    Page.run upload_run Page.initial = Some st /\
    let response := (receive sample_fetch sample_browser sized_engine "/app/backend"
                       (Page.request st) sample_world).1 in
    (status_code response = 200 /\ exists report, body response = ReportBody report) \/
    (status_code response = 500 /\
     exists msg, body response = ErrorBody "Comparison failed" msg \/
                 body response = ErrorBody "File upload comparison failed" msg).
Proof.
  eexists. split; [reflexivity|].
  eapply (page_request_passes_validation sample_fetch sample_browser sized_engine "/app/backend"
            upload_run); reflexivity.
Defined.

(** *** The colour of the score *)

(** A mantissa of 53 or 54 digits is rounded to a valid number next to it. *)
Lemma binary_round_aux_near mx ex lx :
  53 <= Zpos (digits2_pos mx) <= 54 -> -1074 <= ex -> ex + 2 <= 971 ->
  exists m e,
    binary_round_aux prec emax false (Zpos mx) ex lx = S754_finite false m e /\
    valid (S754_finite false m e) = true /\
    (Zpos mx - 1) * 2 ^ (ex + 1074) <= Zpos m * 2 ^ (e + 1074)
      <= (Zpos mx + 2) * 2 ^ (ex + 1074).
Proof.
  intros Hd Hlo Hhi.
  pose proof (digits2_pos_bounds mx) as [Hmlo Hmhi].
  set (d := Zpos (digits2_pos mx)) in *.
  (* the first shift *)
  assert (exists m1 e1,
            (let '(mrs, e') := shr_fexp prec emax (Zpos mx) ex lx in
             (round_nearest_even (shr_m mrs) (loc_of_shr_record mrs), e')) = (m1, e1) /\
            2 ^ 52 <= m1 <= 2 ^ 53 /\ ex <= e1 <= ex + 1 /\
            (Zpos mx - 1) * 2 ^ (ex + 1074) <= m1 * 2 ^ (e1 + 1074)
              <= (Zpos mx + 2) * 2 ^ (ex + 1074)) as (m1 & e1 & Hs1 & Hm1 & He1 & Hv1).
  { unfold shr_fexp. cbn [Zdigits2]. fold d. rewrite fexp_eq, Z.max_l by lia.
    pose proof (pow2_pos (ex + 1074) ltac:(lia)) as HE.
    destruct (Z.eq_dec d 53) as [Hd53|Hd54].
    - rewrite shr_nonpos by lia.
      pose proof (round_nearest_even_bounds (shr_m (shr_record_of_loc (Zpos mx) lx))
                    (loc_of_shr_record (shr_record_of_loc (Zpos mx) lx))) as Hr.
      rewrite shr_record_of_loc_m in Hr.
      eexists _, _. split; [reflexivity|]. rewrite shr_record_of_loc_m.
      rewrite Hd53 in Hmlo, Hmhi. change (53 - 1) with 52 in Hmlo.
      set (m1 := round_nearest_even _ _) in *. split; [lia|]. split; [lia|]. nia.
    - assert (d = 54) as Hd54' by lia.
      rewrite shr_pos by lia. replace (d + ex - 53 - ex) with 1 by lia.
      change (Z.to_nat 1) with 1%nat.
      pose proof (shr_iter_m 1 (shr_record_of_loc (Zpos mx) lx)) as Hq.
      rewrite shr_record_of_loc_m in Hq. specialize (Hq ltac:(lia)).
      change (2 ^ Z.of_nat 1) with 2 in Hq.
      change (Nat.iter 1 shr_1 (shr_record_of_loc (Zpos mx) lx))
        with (shr_1 (shr_record_of_loc (Zpos mx) lx)) in *.
      pose proof (round_nearest_even_bounds (shr_m (shr_1 (shr_record_of_loc (Zpos mx) lx)))
                    (loc_of_shr_record (shr_1 (shr_record_of_loc (Zpos mx) lx)))) as Hr.
      rewrite Hq in Hr.
      eexists _, _. split; [reflexivity|]. rewrite Hq.
      rewrite Hd54' in Hmlo, Hmhi. change (54 - 1) with 53 in Hmlo.
      set (m1 := round_nearest_even _ _) in *.
      change (2 ^ 53) with (2 * 2 ^ 52) in *. change (2 ^ 54) with (2 * (2 * 2 ^ 52)) in Hmhi.
      pose proof (Z.div_mod (Zpos mx) 2 ltac:(lia)) as Hdm.
      pose proof (Z.mod_pos_bound (Zpos mx) 2 ltac:(lia)) as Hmb.
      clearbody m1. revert Hr Hdm Hmb. generalize (Zpos mx / 2) (Zpos mx mod 2).
      intros q r Hr Hdm Hmb. set (K := 2 ^ 52) in *. clearbody K.
      split; [lia|]. split; [lia|].
      replace (ex + 1 + 1074) with (1 + (ex + 1074)) by lia.
      rewrite (pow2_add 1 (ex + 1074)) by lia.
      change (2 ^ 1) with 2.
      nia. }
  unfold binary_round_aux.
  destruct (shr_fexp prec emax (Zpos mx) ex lx) as [mrs e'] eqn:Es.
  injection Hs1 as Hm1eq He'. rewrite Hm1eq. subst e'.
  pose proof (pow2_pos (e1 + 1074) ltac:(lia)) as HE1.
  destruct (Z.eq_dec m1 (2 ^ 53)) as [Hc|Hc].
  - (* the rounding carried into a 54th digit *)
    rewrite Hc in *. unfold shr_fexp.
    change (Zdigits2 (2 ^ 53)) with 54. rewrite fexp_eq, Z.max_l by lia.
    replace (54 + e1 - 53 - e1) with 1 by lia.
    rewrite shr_pos by lia. change (Z.to_nat 1) with 1%nat. cbn [shr_record_of_loc].
    change (Nat.iter 1 shr_1 ?x) with (shr_1 x).
    rewrite shr_1_spec by lia. cbn [shr_m].
    change (2 ^ 53 / 2) with (Zpos (Z.to_pos (2 ^ 52))).
    change (emax - prec) with 971.
    rewrite (proj2 (Z.leb_le (e1 + 1) 971)) by lia.
    eexists _, _. split; [reflexivity|]. split.
    + unfold valid, valid_binary, bounded, canonical_mantissa.
      change (Zpos (digits2_pos (Z.to_pos (2 ^ 52)))) with 53.
      rewrite fexp_eq, Z.max_l by lia. change (emax - prec) with 971.
      apply andb_true_iff. split; [apply Z.eqb_eq|apply Z.leb_le]; lia.
    + change (Zpos (Z.to_pos (2 ^ 52))) with (2 ^ 52).
      replace (e1 + 1 + 1074) with (1 + (e1 + 1074)) by lia.
      rewrite (pow2_add 1 (e1 + 1074)) by lia.
      change (2 ^ 1) with 2. change (2 ^ 53) with (2 * 2 ^ 52) in Hv1. lia.
  - destruct m1 as [|m1p|m1p] eqn:Em1; [lia| |lia].
    assert (Zpos (digits2_pos m1p) = 53) as Hd1.
    { apply digits2_pos_unique. change (53 - 1) with 52. lia. }
    unfold shr_fexp. cbn [Zdigits2 shr_record_of_loc]. rewrite Hd1.
    rewrite fexp_eq, Z.max_l by lia. rewrite shr_nonpos by lia. cbn [shr_m].
    change (emax - prec) with 971.
    rewrite (proj2 (Z.leb_le e1 971)) by lia.
    eexists _, _. split; [reflexivity|]. split; [|done].
    unfold valid, valid_binary, bounded, canonical_mantissa. rewrite Hd1.
    rewrite fexp_eq, Z.max_l by lia. change (emax - prec) with 971.
    apply andb_true_iff. split; [apply Z.eqb_eq|apply Z.leb_le]; lia.
Qed.

(** A number of hundredths up to 100.00, divided by 100: the quotient is a
    valid number within [2^-45] of the exact one. *)
Lemma num_of_ratio_100 p :
  Zpos p <= 10000 ->
  exists m e,
    num_of_ratio false p 100 = S754_finite false m e /\
    valid (S754_finite false m e) = true /\
    2 ^ 46 * Z.abs (100 * (Zpos m * 2 ^ (e + 1074)) - Zpos p * unit_den) <= 200 * unit_den.
Proof.
  intros Hp. unfold num_of_ratio, SFdiv_core_binary. cbn [Zdigits2].
  pose proof (digits2_pos_bounds p) as [Hlo Hhi].
  set (dx := Zpos (digits2_pos p)) in *.
  assert (1 <= dx <= 14) as Hdx.
  { split; [unfold dx; lia|].
    destruct (Z.le_gt_cases dx 14) as [|Hgt]; [done|exfalso].
    assert (2 ^ 14 <= 2 ^ (dx - 1)) by (apply pow2_le; lia).
    change (2 ^ 14) with 16384 in *. lia. }
  change (Zpos (digits2_pos 100)) with 7.
  rewrite fexp_eq, Z.max_l by lia.
  replace (Z.min (dx + 0 - (7 + 0) - 53) (0 - 0)) with (dx - 60) by lia.
  replace (0 - 0 - (dx - 60)) with (60 - dx) by lia.
  set (s := 60 - dx).
  set (m' := match s with Zpos _ => Z.shiftl (Zpos p) s | 0 => Zpos p | Zneg _ => 0 end).
  assert (m' = Zpos p * 2 ^ s) as Hm'.
  { unfold m'. destruct s as [|q|q] eqn:Es; [unfold s in Es; lia| |unfold s in Es; lia].
    by rewrite Z.shiftl_mul_pow2. }
  assert (2 ^ 59 <= m' < 2 ^ 60) as Hm'b.
  { rewrite Hm'. pose proof (pow2_pos s ltac:(unfold s; lia)) as Hs.
    replace 59 with ((dx - 1) + s) by (unfold s; lia).
    replace 60 with (dx + s) by (unfold s; lia).
    rewrite !pow2_add by (unfold s; lia). nia. }
  destruct (Z.div_eucl m' 100) as [q r] eqn:Ediv.
  pose proof (Z_div_mod m' 100 ltac:(lia)) as Hdm. rewrite Ediv in Hdm.
  destruct Hdm as [Hdm Hr].
  change (2 ^ 59) with 576460752303423488 in Hm'b.
  change (2 ^ 60) with 1152921504606846976 in Hm'b.
  assert (2 ^ 52 <= q < 2 ^ 54) as Hq.
  { change (2 ^ 52) with 4503599627370496. change (2 ^ 54) with 18014398509481984. lia. }
  destruct q as [|mq|mq]; [lia| |lia].
  destruct (binary_round_aux_near mq (dx - 60) (new_location 100 r)) as (m & e & Hres & Hv & Hb).
  { destruct (Z.lt_ge_cases (Zpos mq) (2 ^ 53)) as [Hlt|Hge].
    - rewrite (digits2_pos_unique mq 53); [lia|]. change (53 - 1) with 52. lia.
    - rewrite (digits2_pos_unique mq 54); [lia|]. change (54 - 1) with 53. lia. }
  { lia. }
  { lia. }
  exists m, e. split; [done|]. split; [done|].
  set (V := Zpos m * 2 ^ (e + 1074)) in *.
  set (E := 2 ^ (dx - 60 + 1074)) in *.
  assert (0 < E) as HE by (apply pow2_pos; lia).
  assert (m' * E = Zpos p * unit_den) as HmE.
  { rewrite Hm'. unfold E, unit_den. rewrite <- Z.mul_assoc, <- pow2_add by (unfold s; lia).
    do 2 f_equal. unfold s. lia. }
  assert (2 ^ 46 * E <= unit_den) as HEU.
  { unfold E, unit_den. rewrite <- pow2_add by lia. apply pow2_le. lia. }
  rewrite <- HmE. change (2 ^ 46) with 70368744177664 in *.
  pose proof unit_den_pos. nia.
Qed.


(** A string that starts with a digit has no white space, sign or
    [Infinity] in front. *)
Lemma digit_first c rest :
  is_digit c = true ->
  drop_while is_white_space (c :: rest) = c :: rest /\
  take_sign (c :: rest) = (false, c :: rest) /\
  has_prefix (list_ascii_of_string "Infinity") (c :: rest) = false.
Proof.
  intros Hc.
  destruct c as [[] [] [] [] [] [] [] []]; try (vm_compute in Hc; discriminate Hc);
    repeat split; reflexivity.
Qed.

(** [parseFloat] reads the digits of [toFixed(2)] as that number of
    hundredths. *)
Lemma parseFloat_fixed_digits n :
  0 <= n ->
  parseFloat_string (string_of_list_ascii (fixed_digits 2 n)) = num_of_decimal false n (-2).
Proof.
  intros Hn. destruct (fixed_digits_2_spec n Hn) as (ip & d1 & d2 & Heq & Hne & Hall & Hval).
  unfold parseFloat_string. rewrite list_ascii_of_string_of_list_ascii, Heq.
  pose proof Hall as Hall'. apply Forall_app in Hall' as [Hip Hfp].
  destruct ip as [|c ip']; [done|].
  assert (is_digit c = true) as Hc by (by inversion Hip).
  change ((c :: ip') ++ "."%char :: [d1; d2]) with (c :: (ip' ++ "."%char :: [d1; d2])).
  destruct (digit_first c (ip' ++ "."%char :: [d1; d2]) Hc) as (H1 & H2 & H3).
  rewrite H1, H2, H3.
  change (c :: (ip' ++ "."%char :: [d1; d2])) with ((c :: ip') ++ "."%char :: [d1; d2]).
  rewrite span_digits_all by done.
  pose proof (span_digits_all [d1; d2] [] Hfp I) as Hs. rewrite app_nil_r in Hs.
  rewrite Hs.
  change ((c :: ip') ++ [d1; d2]) with (c :: (ip' ++ [d1; d2])) in *.
  cbv iota. rewrite Hval. reflexivity.
Qed.

(** Against 70, 80 and 90 the number read from the digits compares as the
    hundredths do. *)
Lemma threshold_of_hundredths T n :
  T = 70 \/ T = 80 \/ T = 90 -> 0 <= n <= 10000 ->
  num_le (num_of_Z T) (num_of_decimal false n (-2)) = (100 * T <=? n).
Proof.
  intros HT Hn. destruct n as [|p|p]; [| |lia].
  { destruct HT as [->|[->| ->]]; reflexivity. }
  change (num_of_decimal false (Zpos p) (-2)) with (num_of_ratio false p 100).
  destruct (Z.eq_dec (Zpos p) (100 * T)) as [Heq|Hne].
  { destruct HT as [->|[->| ->]]; injection Heq as ->; vm_compute; reflexivity. }
  destruct (num_of_ratio_100 p (proj2 Hn)) as (m & e & -> & Hv & Hb).
  assert (valid (num_of_Z T) = true /\ is_finite (num_of_Z T) = true /\
          units (num_of_Z T) = T * unit_den) as (HvT & HfT & HuT)
    by (destruct HT as [->|[->| ->]]; repeat split; reflexivity).
  rewrite num_le_units, HuT by done.
  cbn [units cond_Zopp]. set (V := Zpos m * 2 ^ (e + 1074)) in *.
  pose proof unit_den_pos as HU. change (2 ^ 46) with 70368744177664 in Hb.
  destruct (Z.leb_spec (100 * T) (Zpos p)) as [Hle|Hgt].
  - apply Z.leb_le.
    assert ((100 * T + 1) * unit_den <= Zpos p * unit_den)
      by (apply Z.mul_le_mono_nonneg_r; lia).
    set (X := Zpos p * unit_den) in *. clearbody X V.
    destruct HT as [->|[->| ->]]; lia.
  - apply Z.leb_gt.
    assert (Zpos p * unit_den <= (100 * T - 1) * unit_den)
      by (apply Z.mul_le_mono_nonneg_r; lia).
    set (X := Zpos p * unit_den) in *. clearbody X V.
    destruct HT as [->|[->| ->]]; lia.
Qed.


(** X23.  The colour, the icon and the words the page shows for the score of
    the server are decided by the digits of the score: for a mismatch
    between 0 and 100 the score is a string of [a] hundredths, and it is
    shown green from 90.00, blue from 80.00, yellow from 70.00 and red
    below; reading the string back as a binary number moves no score across
    a threshold. *)
Theorem score_colour_by_hundredths (comparisonResult : ComparisonResult) (w : World) :
  let m := misMatchPercentage comparisonResult in
  valid m = true -> num_le (num_of_Z 0) m = true -> num_le m (num_of_Z 100) = true ->
  exists score a,
    matchScore (build_response comparisonResult w) = Str score /\
    hundredths (Str score) = Some a /\ 0 <= a <= 10000 /\
    getMatchScoreColor score =
      (if 9000 <=? a then "text-green-600" else if 8000 <=? a then "text-blue-600"
       else if 7000 <=? a then "text-yellow-600" else "text-red-600") /\
    getMatchScoreIcon score =
      (if 9000 <=? a then {| icon_component := "CheckCircle";
                             icon_className := "w-5 h-5 text-green-600" |}
       else if 8000 <=? a then {| icon_component := "CheckCircle";
                                  icon_className := "w-5 h-5 text-blue-600" |}
       else if 7000 <=? a then {| icon_component := "AlertCircle";
                                  icon_className := "w-5 h-5 text-yellow-600" |}
       else {| icon_component := "XCircle"; icon_className := "w-5 h-5 text-red-600" |}) /\
    matchScoreWords score =
      (if 9000 <=? a then "Excellent match!" else if 8000 <=? a then "Great implementation!"
       else if 7000 <=? a then "Good match" else "Needs improvement").
Proof.
  intros m Hv H0 H100.
  destruct (sub_100_spec m Hv H0 H100) as (Hshape & [Hr0 Hr100] & _).
  cbn [build_response matchScore]. fold m.
  set (r := num_sub (num_of_Z 100) (parseFloat (JsNumber m))) in *.
  destruct (toFixed_2_percent r) as [Hfr Hnr]; [|done|].
  { destruct Hshape as [->|(m2 & e2 & -> & He2)]; [eauto|].
    right. eexists _, _. split; [done|lia]. }
  set (a := (200 * units r + unit_den) / (2 * unit_den)) in *.
  exists (string_of_list_ascii (fixed_digits 2 a)), a.
  cbv zeta in Hfr, Hnr. fold a in Hfr, Hnr.
  split; [done|]. split; [apply hundredths_fixed_digits; lia|]. split; [done|].
  unfold getMatchScoreColor, getMatchScoreIcon, matchScoreWords. cbv zeta.
  cbn [parseFloat]. rewrite parseFloat_fixed_digits by lia.
  rewrite !threshold_of_hundredths by (auto || lia).
  done.
Qed.

Lemma score_colour_by_hundredths_witness :
  exists score a,
    matchScore (build_response sample_result sample_world) = Str score /\
    hundredths (Str score) = Some a /\ 0 <= a <= 10000 /\
    getMatchScoreColor score =
      (if 9000 <=? a then "text-green-600" else if 8000 <=? a then "text-blue-600"
       else if 7000 <=? a then "text-yellow-600" else "text-red-600") /\
    getMatchScoreIcon score =
      (if 9000 <=? a then {| icon_component := "CheckCircle";
                             icon_className := "w-5 h-5 text-green-600" |}
       else if 8000 <=? a then {| icon_component := "CheckCircle";
                                  icon_className := "w-5 h-5 text-blue-600" |}
       else if 7000 <=? a then {| icon_component := "AlertCircle";
                                  icon_className := "w-5 h-5 text-yellow-600" |}
       else {| icon_component := "XCircle"; icon_className := "w-5 h-5 text-red-600" |}) /\
    matchScoreWords score =
      (if 9000 <=? a then "Excellent match!" else if 8000 <=? a then "Great implementation!"
       else if 7000 <=? a then "Good match" else "Needs improvement").
Proof.
  apply (score_colour_by_hundredths sample_result sample_world); reflexivity.
Defined.

(** The score of the sample is shown blue. *)
Example colour_of_87_55 :
  getMatchScoreColor "87.55" = "text-blue-600" /\ getMatchScoreColor "90.00" = "text-green-600" /\
  getMatchScoreColor "89.99" = "text-blue-600" /\ getMatchScoreColor "69.99" = "text-red-600".
Proof. repeat split; vm_compute; reflexivity. Qed.
